(** * imagetojson: receipt archive ingestion, discovery, extraction protocol
      and output packaging

    A shallow embedding of [receipt_io.py], of [_build_prompt],
    [_run_model], [convert_selected], [run_conversion] and [run_all]
    from [app.py] and of the client's requests from [llama_client.py],
    with the properties of the pipeline stated and proved over it.

    Conventions of the embedding.
    - A Python [str] is a Rocq [string]; each character stands for the code
      point of the same number (0..255).  Python's notions of whitespace
      ([str.strip]), decimal digit ([\d], [int]) and case folding
      ([re.IGNORECASE]) are the ones Python uses on these code points.
    - The file system is a tree of named nodes; the order of a directory's
      entry list is the order in which the operating system enumerates it
      ([Path.iterdir], [Path.glob]), so a statement about every tree is a
      statement about every enumeration order.  There are no symbolic
      links, and paths follow POSIX rules ([/] is the only separator of the
      platform).
    - A file is written under names the system takes: no NUL character
      and at most 255 bytes in UTF-8 ([NAME_MAX]).  The bytes of a ZIP
      archive are left open ([archive_bytes]); so are the model service
      ([respond]), [json.loads] and [base64.b64encode].
    - A Python exception is an [Err] result. *)

From Stdlib Require Import String Ascii List Bool Arith NArith Lia.
From Stdlib Require Import Sorted Permutation.
From Stdlib Require DecimalString.
Import ListNotations.

Local Open Scope string_scope.
Local Open Scope list_scope.

(* ================================================================= *)
(** ** Python strings *)

Module PyStr.

Definition chars (s : string) : list ascii := list_ascii_of_string s.

(** [c.isspace()] for a code point below 256: TAB..CR, FS..US, space,
    NEL (U+0085) and NBSP (U+00A0). *)
Definition isspace (c : ascii) : bool :=
  let n := nat_of_ascii c in
  (((9 <=? n) && (n <=? 13)) || ((28 <=? n) && (n <=? 32))
   || (n =? 133) || (n =? 160))%nat.

(** [\d] and the digits [int] accepts, below 256: [0]..[9]. *)
Definition isdigit (c : ascii) : bool :=
  let n := nat_of_ascii c in ((48 <=? n) && (n <=? 57))%nat.

(** Simple case folding of an ASCII letter, as [re.IGNORECASE] uses it
    for the letters of the literal [page]. *)
Definition lower (c : ascii) : ascii :=
  let n := nat_of_ascii c in
  if ((65 <=? n) && (n <=? 90))%nat then ascii_of_nat (n + 32) else c.

Fixpoint lower_str (s : string) : string :=
  match s with
  | EmptyString => EmptyString
  | String c r => String (lower c) (lower_str r)
  end.

(** [s.replace(old, new)] for a one-character [old]. *)
Fixpoint replace (old : ascii) (new : string) (s : string) : string :=
  match s with
  | EmptyString => EmptyString
  | String c r =>
      if Ascii.eqb c old then new ++ replace old new r
      else String c (replace old new r)
  end.

Fixpoint lstrip (s : string) : string :=
  match s with
  | EmptyString => EmptyString
  | String c r => if isspace c then lstrip r else s
  end.

Fixpoint rstrip (s : string) : string :=
  match s with
  | EmptyString => EmptyString
  | String c r =>
      match rstrip r with
      | EmptyString => if isspace c then EmptyString else String c EmptyString
      | r' => String c r'
      end
  end.

(** [s.strip()] *)
Definition strip (s : string) : string := rstrip (lstrip s).

(** [s.startswith(p)] *)
Definition startswith (s p : string) : bool := String.prefix p s.

(** [int(s)] on a run of decimal digits. *)
Definition digit_value (c : ascii) : N := N.of_nat (nat_of_ascii c - 48).

Definition int (s : string) : N :=
  fold_left (fun acc c => (10 * acc + digit_value c)%N) (chars s) 0%N.

Definition all_chars (P : ascii -> bool) (s : string) : bool :=
  forallb P (chars s).

Fixpoint map_chars (f : ascii -> ascii) (s : string) : string :=
  match s with
  | EmptyString => EmptyString
  | String c r => String (f c) (map_chars f r)
  end.

End PyStr.
Import PyStr.

(* ================================================================= *)
(** ** receipt_io.sanitize_filename *)

(** The set literal [{"/", "\\"}]; a Python set of strings is iterated in
    an order that depends on the process's hash seed, so the order is a
    parameter of the embedding. *)
Definition unsafe : list ascii := ["/"%char; "\"%char].

Definition sanitize_filename_in (order : list ascii) (name : string) : string :=
  strip (fold_left (fun name char => replace char "_" name) order name).

Definition sanitize_filename (name : string) : string :=
  sanitize_filename_in unsafe name.

(** What the specification calls a path-separator character. *)
Definition is_path_sep (c : ascii) : bool :=
  Ascii.eqb c "/" || Ascii.eqb c "\".

Definition underscore_sep (c : ascii) : ascii :=
  if is_path_sep c then "_"%char else c.

(** A name that no separator splits: joined to a directory it names an
    entry of that directory itself. *)
Definition separator_free (s : string) : Prop :=
  forall c, In c (chars s) -> is_path_sep c = false.

(** The specification's words, a safe single filename component: a name
    that, joined to a directory, names one entry of that directory: no
    separator splits it, and it is neither empty nor one of the two names
    [.] and [..] that stand for the directory itself and its parent. *)
Definition safe_component (s : string) : Prop :=
  separator_free s /\ s <> EmptyString /\ s <> "." /\ s <> "..".

(** No whitespace at either end. *)
Definition trimmed (s : string) : Prop :=
  (forall c r, s = String c r -> isspace c = false) /\
  (forall r c, s = (r ++ String c EmptyString)%string -> isspace c = false).

(** [t] is [s] with a run of whitespace removed at each end, and nothing
    more to remove. *)
Definition is_trim_of (s t : string) : Prop :=
  exists l r, s = (l ++ t ++ r)%string /\
              all_chars isspace l = true /\ all_chars isspace r = true /\
              trimmed t.

(* ================================================================= *)
(** ** Exceptions and results *)

Inductive exn : Type :=
| ValueError (msg : string)
| FileNotFoundError
| FileExistsError
| NotADirectoryError
| IsADirectoryError
| OSError
| ModelServiceError
| RecursionError.

Inductive result (A : Type) : Type :=
| Ok (a : A)
| Err (e : exn).

Arguments Ok {A} a.
Arguments Err {A} e.

Definition bind {A B : Type} (m : result A) (k : A -> result B) : result B :=
  match m with
  | Ok a => k a
  | Err e => Err e
  end.

Notation "x <- m ;; k" := (bind m (fun x => k))
  (at level 61, m at next level, right associativity).

(* ================================================================= *)
(** ** pathlib on POSIX, without symbolic links *)

Module Path.

(** An absolute path, by its components below the root. *)
Definition t : Type := list string.

(** [path.name] *)
Definition name (p : t) : string := last p EmptyString.

(** [s.rfind(c)] *)
Fixpoint rfind (c : ascii) (s : string) : option nat :=
  match s with
  | EmptyString => None
  | String a r =>
      match rfind c r with
      | Some i => Some (S i)
      | None => if Ascii.eqb a c then Some 0 else None
      end
  end.

(** [PurePath.suffix] and [PurePath.stem] (CPython up to 3.13): the name
    is cut at its last dot unless that dot is its first or its last
    character. *)
Definition suffix_of (nm : string) : string :=
  match rfind "." nm with
  | Some i =>
      if ((0 <? i) && (i <? String.length nm - 1))%nat
      then substring i (String.length nm - i) nm
      else EmptyString
  | None => EmptyString
  end.

Definition stem_of (nm : string) : string :=
  match rfind "." nm with
  | Some i =>
      if ((0 <? i) && (i <? String.length nm - 1))%nat
      then substring 0 i nm
      else nm
  | None => nm
  end.

Definition suffix (p : t) : string := suffix_of (name p).
Definition stem (p : t) : string := stem_of (name p).

(** [s.split("/")] *)
Fixpoint split_slash (s : string) : list string :=
  match s with
  | EmptyString => [EmptyString]
  | String c r =>
      if Ascii.eqb c "/" then EmptyString :: split_slash r
      else match split_slash r with
           | h :: tl => String c h :: tl
           | [] => [String c EmptyString]
           end
  end.

(** A path as [PurePosixPath] parses it from text: whether it starts at
    the root, and its components with empty ones and [.] dropped
    ([..] is kept). *)
Record pure : Type := { anchored : bool; parts : list string }.

Definition keep_part (c : string) : bool :=
  negb (String.eqb c EmptyString || String.eqb c ".").

Definition parse (s : string) : pure :=
  {| anchored := String.prefix "/" s;
     parts := filter keep_part (split_slash s) |}.

(** [Path(a, b)]: an anchored second segment replaces the first. *)
Definition joinpath (a b : pure) : pure :=
  if anchored b then b
  else {| anchored := anchored a; parts := parts a ++ parts b |}.

(** [Path(dir, child)] for a directory already given by its absolute
    components. *)
Definition join (dir : t) (child : string) : t :=
  parts (joinpath {| anchored := true; parts := dir |} (parse child)).

(** [..] steps back over the component before it; at the root it stays. *)
Fixpoint collapse (stack : list string) (ps : list string) : t :=
  match ps with
  | [] => rev stack
  | p :: ps' =>
      if String.eqb p ".." then collapse (tl stack) ps'
      else collapse (p :: stack) ps'
  end.

(** [path.resolve()] in a process whose working directory is [cwd]. *)
Definition resolve (cwd : t) (p : pure) : t :=
  collapse [] ((if anchored p then [] else cwd) ++ parts p).

(** [str(path)] of an absolute path. *)
Definition str (p : t) : string :=
  match p with
  | [] => "/"
  | _ => String.concat EmptyString (map (fun c => ("/" ++ c)%string) p)
  end.

(** Paths compare as their component lists do, component by component,
    each component as a string (by code point). *)
Fixpoint compare (p q : t) : comparison :=
  match p, q with
  | [], [] => Eq
  | [], _ :: _ => Lt
  | _ :: _, [] => Gt
  | a :: p', b :: q' =>
      match String.compare a b with
      | Eq => compare p' q'
      | ne => ne
      end
  end.

Definition ltb (p q : t) : bool :=
  match compare p q with Lt => true | _ => false end.

End Path.

(* ================================================================= *)
(** ** Python's [sorted] *)

Section Sorted.
Context {A : Type} (lt : A -> A -> bool).

(** Stable insertion: [x], which came before every element of [l] in
    the input, moves only past the elements strictly smaller than it. *)
Fixpoint insert (x : A) (l : list A) : list A :=
  match l with
  | [] => [x]
  | y :: l' => if lt y x then y :: insert x l' else x :: l
  end.

(** [sorted(l)]: the stable sort, which asks only [<] of its elements. *)
Definition py_sorted (l : list A) : list A := fold_right insert [] l.

(** [a] may stand before [b] in a sorted list: [b] is not smaller. *)
Definition not_after (a b : A) : Prop := lt b a = false.
End Sorted.

(** [sorted(l, key=key)] *)
Definition py_sorted_key {A K : Type} (key : A -> K) (lt : K -> K -> bool)
    (l : list A) : list A :=
  py_sorted (fun a b => lt (key a) (key b)) l.

(* ================================================================= *)
(** ** The file system *)

#[local] Set Warnings "-register-all".

Inductive node : Type :=
| File (content : string)
| Dir (entries : list (string * node))
| Special.
(** [Special] stands for what is neither a regular file nor a directory
    (a socket, a FIFO, a device). *)

Module FS.

Fixpoint assoc (k : string) (es : list (string * node)) : option node :=
  match es with
  | [] => None
  | (k', n) :: es' => if String.eqb k k' then Some n else assoc k es'
  end.

Fixpoint update (k : string) (n : node) (es : list (string * node))
  : list (string * node) :=
  match es with
  | [] => []
  | (k', n') :: es' =>
      if String.eqb k k' then (k', n) :: es' else (k', n') :: update k n es'
  end.

Fixpoint lookup (fs : node) (p : Path.t) : option node :=
  match p with
  | [] => Some fs
  | c :: q =>
      match fs with
      | Dir es =>
          match assoc c es with
          | Some n => lookup n q
          | None => None
          end
      | _ => None
      end
  end.

(** [path.is_dir()], [path.is_file()] *)
Definition is_dir (fs : node) (p : Path.t) : bool :=
  match lookup fs p with Some (Dir _) => true | _ => false end.

Definition is_file (fs : node) (p : Path.t) : bool :=
  match lookup fs p with Some (File _) => true | _ => false end.

(** [path.iterdir()], in the order of the directory's entry list. *)
Definition iterdir (fs : node) (p : Path.t) : result (list Path.t) :=
  match lookup fs p with
  | Some (Dir es) => Ok (map (fun e => p ++ [fst e]) es)
  | Some _ => Err NotADirectoryError
  | None => Err FileNotFoundError
  end.

(** [path.glob("*")]: every entry of the directory (pathlib does not
    hide dot files); nothing when [path] is no directory. *)
Definition glob_star (fs : node) (p : Path.t) : list Path.t :=
  match lookup fs p with
  | Some (Dir es) => map (fun e => p ++ [fst e]) es
  | _ => []
  end.

(** A chain of fresh directories. *)
Fixpoint fresh_dirs (p : Path.t) : node :=
  match p with
  | [] => Dir []
  | c :: q => Dir [(c, fresh_dirs q)]
  end.

(** [path.mkdir(parents=True, exist_ok=True)] *)
Fixpoint mkdir_parents (fs : node) (p : Path.t) : result node :=
  match p with
  | [] => match fs with
          | Dir _ => Ok fs
          | _ => Err FileExistsError
          end
  | c :: q =>
      match fs with
      | Dir es =>
          match assoc c es with
          | Some n =>
              n' <- mkdir_parents n q ;;
              Ok (Dir (update c n' es))
          | None => Ok (Dir (es ++ [(c, fresh_dirs q)]))
          end
      | _ => Err NotADirectoryError
      end
  end.

(** File names as the operating system takes them. A name with a NUL
    character is refused by Python before any system call
    ([ValueError]); a name is encoded in UTF-8 (one byte for a
    character below 128, two for the others of the strings modelled
    here) and may take [NAME_MAX] bytes, 255 on the Linux file systems.
    The length of a whole path ([PATH_MAX]) is not modelled. *)
Fixpoint has_nul (c : string) : bool :=
  match c with
  | EmptyString => false
  | String a r => (nat_of_ascii a =? 0)%nat || has_nul r
  end.

Fixpoint name_bytes (c : string) : nat :=
  match c with
  | EmptyString => 0
  | String a r => (if (nat_of_ascii a <? 128)%nat then 1 else 2) + name_bytes r
  end.

Definition NAME_MAX : nat := 255.

Definition too_long (c : string) : bool := (NAME_MAX <? name_bytes c)%nat.

Arguments too_long : simpl never.

Definition valid_name (c : string) : bool :=
  negb (has_nul c) && negb (too_long c).

Definition valid_path (p : Path.t) : bool := forallb valid_name p.

(** Opening [p] for writing and replacing its content, as the system
    call walks the path: a component that is too long is refused where
    it is met ([ENAMETOOLONG], an [OSError]). *)
Fixpoint write_at (fs : node) (p : Path.t) (content : string)
  : result node :=
  match p with
  | [] => Err IsADirectoryError
  | c :: q =>
      match fs with
      | Dir es =>
          if too_long c then Err OSError
          else
            match q with
            | [] =>
                match assoc c es with
                | None => Ok (Dir (es ++ [(c, File content)]))
                | Some (File _) => Ok (Dir (update c (File content) es))
                | Some (Dir _) => Err IsADirectoryError
                | Some Special => Err OSError
                end
            | _ :: _ =>
                match assoc c es with
                | Some n =>
                    n' <- write_at n q content ;;
                    Ok (Dir (update c n' es))
                | None => Err FileNotFoundError
                end
            end
      | _ => Err NotADirectoryError
      end
  end.

(** [path.write_text(content, encoding="utf-8")]: creates the file or
    replaces its whole content. *)
Definition write_text (fs : node) (p : Path.t) (content : string)
  : result node :=
  if existsb has_nul p then Err (ValueError "embedded null byte")
  else write_at fs p content.

(** Reading a regular file. *)
Definition read (fs : node) (p : Path.t) : result string :=
  match lookup fs p with
  | Some (File c) => Ok c
  | Some (Dir _) => Err IsADirectoryError
  | Some Special => Err OSError
  | None => Err FileNotFoundError
  end.

(** Every node met on the way to [p], as far as the way exists, is a
    directory: what [mkdir(parents=True, exist_ok=True)] needs. *)
Fixpoint creatable (fs : node) (p : Path.t) : bool :=
  match fs with
  | Dir es =>
      match p with
      | [] => true
      | c :: q =>
          match assoc c es with
          | Some n => creatable n q
          | None => true
          end
      end
  | _ => false
  end.

(** Nothing at [p], or a regular file. *)
Definition writable (fs : node) (p : Path.t) : bool :=
  match lookup fs p with
  | None | Some (File _) => true
  | Some _ => false
  end.

(** A file can be opened for writing at [p]: the names are ones the
    system takes, the directory that is to hold the file exists, and
    what is at [p], if anything, is a regular file. *)
Fixpoint openable_at (fs : node) (p : Path.t) : bool :=
  match fs, p with
  | Dir es, c :: q =>
      negb (too_long c)
      && match q with
         | [] =>
             match assoc c es with
             | None | Some (File _) => true
             | Some _ => false
             end
         | _ :: _ =>
             match assoc c es with
             | Some n => openable_at n q
             | None => false
             end
         end
  | _, _ => false
  end.

Definition openable (fs : node) (p : Path.t) : bool :=
  negb (existsb has_nul p) && openable_at fs p.

(** The names of a directory's entries are pairwise distinct. *)
Definition distinct_names (fs : node) (p : Path.t) : Prop :=
  forall es, lookup fs p = Some (Dir es) -> NoDup (map fst es).

End FS.

(* ================================================================= *)
(** ** receipt_io: groups, page order, discovery *)

Definition PNG_EXTENSIONS : list string := [".png"; ".PNG"].

(** [x in s] for a set of strings *)
Definition in_set (x : string) (s : list string) : bool :=
  existsb (String.eqb x) s.

Record ReceiptGroup : Type := { name : string; pages : list Path.t }.

Definition page_count (g : ReceiptGroup) : nat := List.length (pages g).

(** The first component of a sort key: an [int], or [float("inf")]. *)
Inductive page_number : Type :=
| Finite (n : N)
| Infinity.

Definition num_eqb (a b : page_number) : bool :=
  match a, b with
  | Finite x, Finite y => N.eqb x y
  | Infinity, Infinity => true
  | _, _ => false
  end.

Definition num_ltb (a b : page_number) : bool :=
  match a, b with
  | Finite x, Finite y => N.ltb x y
  | Finite _, Infinity => true
  | Infinity, _ => false
  end.

Definition sort_key : Type := (page_number * string)%type.

(** [<] on the tuples: the first components decide unless they are
    equal. *)
Definition key_ltb (a b : sort_key) : bool :=
  if num_eqb (fst a) (fst b) then String.ltb (snd a) (snd b)
  else num_ltb (fst a) (fst b).

(** The longest run of digits at the start of [s]: what a greedy [\d+]
    consumes there. *)
Fixpoint take_digits (s : string) : string :=
  match s with
  | EmptyString => EmptyString
  | String c r => if isdigit c then String c (take_digits r) else EmptyString
  end.

Definition is_page_sep (c : ascii) : bool :=
  Ascii.eqb c "_" || Ascii.eqb c "-".

(** [page[_-]?(\d+)] with [re.IGNORECASE], tried at the start of [s];
    the result is group 1. The optional separator is taken when it is
    there and given back if no digit follows it. *)
Definition match_page_here (s : string) : option string :=
  match s with
  | String c1 (String c2 (String c3 (String c4 rest))) =>
      if Ascii.eqb (lower c1) "p" && Ascii.eqb (lower c2) "a"
         && Ascii.eqb (lower c3) "g" && Ascii.eqb (lower c4) "e"
      then
        let after_sep :=
          match rest with
          | String c r => if is_page_sep c then r else rest
          | EmptyString => rest
          end in
        match take_digits after_sep with
        | EmptyString =>
            match take_digits rest with
            | EmptyString => None
            | ds => Some ds
            end
        | ds => Some ds
        end
      else None
  | _ => None
  end.

(** [re.search(r"page[_-]?(\d+)", s, re.IGNORECASE)], reduced to group 1
    of the match: the first position at which the pattern matches wins. *)
Fixpoint re_search_page (s : string) : option string :=
  match match_page_here s with
  | Some ds => Some ds
  | None =>
      match s with
      | EmptyString => None
      | String _ r => re_search_page r
      end
  end.

(** [re.findall(r"(\d+)", s)]: the maximal digit runs, left to right.
    [in_run] tells that the character before [s] was a digit, so that a
    digit at the head of [s] continues a run already reported. *)
Fixpoint findall_from (in_run : bool) (s : string) : list string :=
  match s with
  | EmptyString => []
  | String c r =>
      if isdigit c then
        if in_run then findall_from true r
        else take_digits s :: findall_from true r
      else findall_from false r
  end.

Definition re_findall_digits (s : string) : list string :=
  findall_from false s.

Definition _page_sort_key (path : Path.t) : sort_key :=
  match re_search_page (Path.stem path) with
  | Some group1 => (Finite (int group1), Path.name path)
  | None =>
      match rev (re_findall_digits (Path.stem path)) with
      | last_run :: _ => (Finite (int last_run), Path.name path)
      | [] => (Infinity, Path.name path)
      end
  end.

(** *** The ordering key in the words of the specification *)

(** A run of digits: not empty, digits only. *)
Definition digit_run (ds : string) : Prop :=
  ds <> EmptyString /\ all_chars isdigit ds = true.

Definition no_digit (s : string) : Prop :=
  forall c, In c (chars s) -> isdigit c = false.

(** The last character of [s], if there is one, is no digit. *)
Definition no_digit_at_end (s : string) : Prop :=
  forall r c, s = (r ++ String c EmptyString)%string -> isdigit c = false.

(** After the prefix [pre], the stem reads [page] in any mix of cases,
    then nothing or one of the separators [_] and [-], then the digit
    run [ds]. *)
Inductive page_match (stem pre ds : string) : Prop :=
| PageMatch (kw sep rest : string) :
    stem = (pre ++ kw ++ sep ++ ds ++ rest)%string ->
    lower_str kw = "page" ->
    sep = EmptyString \/ sep = "_" \/ sep = "-" ->
    digit_run ds ->
    page_match stem pre ds.

(** The number of the ordering key:
    - the number after the first [page] pattern, its digit run taken in
      full;
    - else the number of the last digit run;
    - else infinity. *)
Inductive spec_page_number (stem : string) : page_number -> Prop :=
| KeyPage (pre ds : string) :
    page_match stem pre ds ->
    (forall pre' ds', page_match stem pre' ds' ->
       String.length pre <= String.length pre'
       /\ (String.length pre' = String.length pre ->
           String.length ds' <= String.length ds)) ->
    spec_page_number stem (Finite (int ds))
| KeyLastRun (pre ds rest : string) :
    (forall pre' ds', ~ page_match stem pre' ds') ->
    stem = (pre ++ ds ++ rest)%string ->
    digit_run ds ->
    no_digit_at_end pre ->
    no_digit rest ->
    spec_page_number stem (Finite (int ds))
| KeyNoDigits :
    no_digit stem ->
    spec_page_number stem Infinity.

(** The body of the loop over the sorted entries of the root;
    [receipts] is the list built so far. *)
Fixpoint discover_loop (fs : node) (entries : list Path.t)
    (receipts : list ReceiptGroup) : result (list ReceiptGroup) :=
  match entries with
  | [] => Ok receipts
  | entry :: rest =>
      if FS.is_dir fs entry then
        listing <- FS.iterdir fs entry ;;
        let pages :=
          filter (fun p => FS.is_file fs p
                           && in_set (Path.suffix p) PNG_EXTENSIONS)
                 (py_sorted_key _page_sort_key key_ltb listing) in
        match pages with
        | [] => discover_loop fs rest receipts
        | _ :: _ =>
            discover_loop fs rest
              (receipts ++ [{| name := Path.name entry; pages := pages |}])
        end
      else discover_loop fs rest receipts
  end.

Definition discover_receipts (fs : node) (root_dir : Path.t)
  : result (list ReceiptGroup) :=
  listing <- FS.iterdir fs root_dir ;;
  discover_loop fs (py_sorted Path.ltb listing) [].

(** A path qualifies as a page: a regular file whose suffix is in
    [PNG_EXTENSIONS]. *)
Definition qualifies (fs : node) (p : Path.t) : bool :=
  FS.is_file fs p && in_set (Path.suffix p) PNG_EXTENSIONS.

(** The pages found in a directory listing: the list comprehension of
    [discover_receipts]. *)
Definition collect_pages (fs : node) (listing : list Path.t) : list Path.t :=
  filter (qualifies fs) (py_sorted_key _page_sort_key key_ltb listing).

(** What one entry of the root adds to the result. *)
Definition contribution (fs : node) (entry : Path.t) : list ReceiptGroup :=
  if FS.is_dir fs entry then
    match collect_pages fs (FS.glob_star fs entry) with
    | [] => []
    | pages => [{| name := Path.name entry; pages := pages |}]
    end
  else [].

(** Discovery lists the file [f] of the subdirectory [d] of the root as a
    page of the group named [d]. *)
Definition included_as_page (fs : node) (root_dir : Path.t) (d f : string)
  : Prop :=
  exists groups g,
    discover_receipts fs root_dir = Ok groups
    /\ In g groups /\ name g = d /\ In (root_dir ++ [d; f]) (pages g).

Definition list_receipt_table (receipts : list ReceiptGroup)
  : list (string * nat) :=
  map (fun receipt => (name receipt, page_count receipt)) receipts.

(* ================================================================= *)
(** ** receipt_io: writing and packaging outputs *)

Definition ensure_directory (fs : node) (path : Path.t)
  : result (node * Path.t) :=
  fs' <- FS.mkdir_parents fs path ;;
  Ok (fs', path).

(** The file extension chosen for an output format. *)
Definition output_ext (output_format : string) : string :=
  if String.eqb output_format "markdown" then "md" else "json".

(** The result is the file system after the call and the path written. *)
Definition write_output (fs : node) (receipt_name content output_format : string)
    (output_dir : Path.t) : result (node * Path.t) :=
  let ext := output_ext output_format in
  let safe_name := sanitize_filename receipt_name in
  made <- ensure_directory fs output_dir ;;
  let path := Path.join output_dir (safe_name ++ "." ++ ext) in
  fs' <- FS.write_text (fst made) path content ;;
  Ok (fs', path).

(** The path a call of [write_output] is to write: the sanitized name with
    the extension of the format, directly below the output directory. *)
Definition output_file (receipt_name output_format : string)
    (output_dir : Path.t) : Path.t :=
  output_dir
  ++ [(sanitize_filename receipt_name ++ "." ++ output_ext output_format)%string].

(** An archive under construction: its entries in the order written,
    each an entry name with the data stored under it. *)
Definition archive : Type := list (string * string).

Section Packaging.

(** The bytes of the archive file as a reader finds them on disk: while
    the archive is open and the entries given are written
    ([archive_bytes false]), and once it is closed
    ([archive_bytes true]).  The ZIP encoding itself is not modelled. *)
Variable archive_bytes : bool -> archive -> string.

(** The loop of [build_outputs_zip] over the sorted paths; every entry
    written changes the archive file, which is a file of the tree. *)
Fixpoint zip_loop (fs : node) (zip_file : Path.t) (files : list Path.t)
    (zf : archive) : result (node * archive) :=
  match files with
  | [] => Ok (fs, zf)
  | file_path :: rest =>
      if FS.is_file fs file_path then
        data <- FS.read fs file_path ;;
        fs' <- FS.write_text fs zip_file
                 (archive_bytes false (zf ++ [(Path.name file_path, data)])) ;;
        zip_loop fs' zip_file rest (zf ++ [(Path.name file_path, data)])
      else zip_loop fs zip_file rest zf
  end.

(** [ZipFile(zip_file, "w")] creates the archive file, or empties the
    file that is there, before the directory is listed; leaving the
    [with] block closes it.  The result is the file system after the
    call, the path of the archive and its entries. *)
Definition build_outputs_zip (fs : node) (output_dir zip_path : Path.t)
  : result (node * Path.t * archive) :=
  made <- ensure_directory fs output_dir ;;
  let output_dir_path := snd made in
  let zip_file := zip_path in
  opened <- FS.write_text (fst made) zip_file EmptyString ;;
  packed <- zip_loop opened zip_file
              (py_sorted Path.ltb (FS.glob_star opened output_dir_path)) [] ;;
  closed <- FS.write_text (fst packed) zip_file
              (archive_bytes true (snd packed)) ;;
  Ok (closed, zip_file, snd packed).

End Packaging.

(* ================================================================= *)
(** ** receipt_io.safe_extract_zip *)

(** An archive member, as [zf.infolist()] reports it. *)
Record ZipInfo : Type := { filename : string; data : string }.

(** The loop over the members; it ends with the first member whose
    resolved path, as text, does not start with the text of the resolved
    destination. *)
Fixpoint check_members (cwd : Path.t) (dest_dir : string)
    (members : list ZipInfo) : result unit :=
  match members with
  | [] => Ok tt
  | member :: rest =>
      let extracted_path :=
        Path.joinpath (Path.parse dest_dir) (Path.parse (filename member)) in
      let normalized := Path.resolve cwd extracted_path in
      if negb (startswith (Path.str normalized)
                 (Path.str (Path.resolve cwd (Path.parse dest_dir))))
      then Err (ValueError ("Unsafe path detected in zip: " ++ filename member))
      else check_members cwd dest_dir rest
  end.

(** What [safe_extract_zip] did to the disk: nothing, or one call of
    [zf.extractall(dest_dir)], which writes out every member. *)
Inductive extraction : Type :=
| ExtractAll (dest_dir : string) (members : list ZipInfo).

(** [cwd] is the working directory of the process, [zf] the members of
    the archive opened from [zip_path]. *)
Definition safe_extract_zip (cwd : Path.t) (zf : list ZipInfo)
    (dest_dir : string) : result extraction :=
  _ <- check_members cwd dest_dir zf ;;
  Ok (ExtractAll dest_dir zf).

(** The members that a call extracted. *)
Definition extracted (r : result extraction) : list ZipInfo :=
  match r with
  | Ok (ExtractAll _ members) => members
  | Err _ => []
  end.

(** A resolved path lies inside the root when the root's components
    begin it. *)
Fixpoint inside (root p : Path.t) : bool :=
  match root, p with
  | [], _ => true
  | _ :: _, [] => false
  | a :: root', b :: p' => String.eqb a b && inside root' p'
  end.

(** Where an archive entry resolves to from the destination root. *)
Definition entry_target (cwd : Path.t) (dest_dir : string) (member : ZipInfo)
  : Path.t :=
  Path.resolve cwd
    (Path.joinpath (Path.parse dest_dir) (Path.parse (filename member))).

Definition dest_root (cwd : Path.t) (dest_dir : string) : Path.t :=
  Path.resolve cwd (Path.parse dest_dir).

(* ================================================================= *)
(** ** prompts.py *)

(** A line feed, and the double quote. *)
Definition LF : string := String (ascii_of_nat 10) EmptyString.
Definition DQ : string := String (ascii_of_nat 34) EmptyString.

Definition MARKDOWN_INSTRUCTION : string :=
  "You are extracting information from a receipt or invoice that may span multiple pages. Preserve reading order across pages. Do not hallucinate missing fields. Return ONLY markdown without code fences.
Use this layout:

# {document_name}
- Document type: receipt or invoice; if unsure say unknown
- Vendor: name and address in one line
- Date: ISO-8601 if possible, else as seen
- Receipt/Invoice #: value if present, else blank
- Currency: 3-letter code if possible
## Totals
- Subtotal: numeric or blank
- Tax: numeric or blank
- Shipping/Freight: numeric or blank; treat shipping and freight as the same charge
- Tip: numeric or blank
- Total: numeric or blank
- Payment method: card/cash/etc. if present
## Line items
| Description | Qty | Unit price | Amount |
|---|---:|---:|---:|
| ... |
## Notes
Additional notes or disclaimers; if none, leave blank.".

(** The text of [JSON_INSTRUCTION]; every ['] below stands for a double
    quote of the source and is replaced by one. *)
Definition JSON_INSTRUCTION : string :=
  replace "'" DQ
  "Extract structured data from a receipt or invoice that may span multiple pages. Preserve reading order across pages. Do not hallucinate missing fields; use nulls for missing data. Treat shipping and freight as the same charge under the 'shipping' field. Return ONLY a valid JSON object, no markdown, no backticks.
Schema:
{{
  'document_name': string,
  'document_type': 'receipt'|'invoice'|'unknown',
  'vendor': {{
    'name': string|null,
    'address': string|null,
    'phone': string|null,
    'tax_id': string|null
  }},
  'invoice_or_receipt_number': string|null,
  'date': string|null,
  'currency': string|null,
  'subtotal': number|null,
  'tax': number|null,
  'shipping': number|null,
  'tip': number|null,
  'total': number|null,
  'payment_method': string|null,
  'line_items': [{{
    'description': string,
    'quantity': number|null,
    'unit_price': number|null,
    'amount': number|null
  }}],
  'notes': string|null,
  'confidence': {{
    'overall': number,
    'fields': {{
      'vendor.name': number,
      'date': number,
      'total': number
    }}
  }}
}}".

Definition JSON_REPAIR_PROMPT : string :=
  "The previous response was not valid JSON. Return ONLY valid JSON that conforms to the requested schema. Do not include explanations or markdown.".

(* ================================================================= *)
(** ** receipt_io.encode_image_to_data_url and app: the extraction protocol *)

(** The two entry points of the client, [chat_markdown] and [chat_json]
    (the latter asks the service for a JSON object). *)
Inductive chat_mode : Type := MarkdownMode | JsonMode.

(** One request to the model service: the text part and the image parts
    of its single user turn. *)
Record request : Type :=
  { mode : chat_mode; prompt : string; images : list string }.

Inductive json_outcome : Type :=
| JsonValue
| JSONDecodeError
| JsonRaises (e : exn).

(** A number of 4301 digits: well-formed JSON that [json.loads] does not
    convert, the limit of the interpreter for integer strings being
    4300 digits. *)
Fixpoint repeat_char (c : ascii) (n : nat) : string :=
  match n with
  | O => EmptyString
  | S m => String c (repeat_char c m)
  end.


Section Extraction.

(** The model service, with a state of its own: it answers a request
    with a text or fails, and moves on. *)
Variable Service : Type.
Variable respond : Service -> request -> result string * Service.

(** [json.loads(s)] returns a value, raises [JSONDecodeError] for a
    text that is no JSON, or raises something else: a plain [ValueError]
    for a number of more digits than [int] converts, a [RecursionError]
    for nesting deeper than the interpreter follows. *)
Variable json_loads : string -> json_outcome.

(** [base64.b64encode(bytes).decode("ascii")] *)
Variable b64encode : string -> string.

(** The client and the requests it has sent so far, oldest first. *)
Record LlamaClient : Type := { service : Service; sent : list request }.

Definition chat (m : chat_mode) (llama : LlamaClient) (prompt : string)
    (images : list string) : result string * LlamaClient :=
  let req := {| mode := m; prompt := prompt; images := images |} in
  let (answer, service') := respond (service llama) req in
  (answer, {| service := service'; sent := sent llama ++ [req] |}).

Definition chat_markdown := chat MarkdownMode.
Definition chat_json := chat JsonMode.

Definition encode_image_to_data_url (fs : node) (path : Path.t)
  : result string :=
  bytes <- FS.read fs path ;;
  Ok ("data:image/png;base64," ++ b64encode bytes)%string.

(** [[encode_image_to_data_url(p) for p in pages]] *)
Fixpoint encode_pages (fs : node) (pages : list Path.t)
  : result (list string) :=
  match pages with
  | [] => Ok []
  | p :: rest =>
      url <- encode_image_to_data_url fs p ;;
      urls <- encode_pages fs rest ;;
      Ok (url :: urls)
  end.

Definition _build_prompt (receipt : ReceiptGroup) (output_format : string)
  : string :=
  let base := if String.eqb output_format "markdown"
              then MARKDOWN_INSTRUCTION else JSON_INSTRUCTION in
  let guidance :=
    ("This is ONE receipt/invoice spanning multiple pages; "
     ++ "preserve reading order; do not hallucinate; if a field is missing, use null or leave blank appropriately. "
     ++ "Document name: " ++ name receipt ++ ".")%string in
  (base ++ LF ++ LF ++ guidance)%string.

(** The result comes with the client after the call. *)
Definition _run_model (fs : node) (llama : LlamaClient)
    (receipt : ReceiptGroup) (output_format : string)
  : result string * LlamaClient :=
  match encode_pages fs (pages receipt) with
  | Err e => (Err e, llama)
  | Ok images =>
      let prompt := _build_prompt receipt output_format in
      if String.eqb output_format "markdown" then
        chat_markdown llama prompt images
      else
        match chat_json llama prompt images with
        | (Err e, llama1) => (Err e, llama1)
        | (Ok response, llama1) =>
            match json_loads response with
            | JsonValue => (Ok response, llama1)
            | JSONDecodeError =>
                let repair_prompt := JSON_REPAIR_PROMPT in
                chat_json llama1 (repair_prompt ++ LF ++ LF ++ response)%string []
            | JsonRaises e => (Err e, llama1)
            end
        end
  end.


Definition repair_request (response : string) : request :=
  {| mode := JsonMode;
     prompt := (JSON_REPAIR_PROMPT ++ LF ++ LF ++ response)%string;
     images := [] |}.

End Extraction.

Arguments service {Service} _.
Arguments sent {Service} _.

(* ================================================================= *)
(** ** Trees that differ in enumeration order only *)

(** The same files and directories under the same names, the entries of
    a directory possibly listed in another order. *)
Inductive same_tree : node -> node -> Prop :=
| SameFile (content : string) : same_tree (File content) (File content)
| SameSpecial : same_tree Special Special
| SameDir (es1 es2 : list (string * node)) :
    NoDup (map fst es1) ->
    NoDup (map fst es2) ->
    (forall k a, FS.assoc k es1 = Some a ->
                 exists b, FS.assoc k es2 = Some b /\ same_tree a b) ->
    (forall k b, FS.assoc k es2 = Some b ->
                 exists a, FS.assoc k es1 = Some a /\ same_tree a b) ->
    same_tree (Dir es1) (Dir es2).

(** One tree answers a path as the other does. *)
Definition same_answer (a b : option node) : Prop :=
  match a, b with
  | Some x, Some y => same_tree x y
  | None, None => True
  | _, _ => False
  end.

(* ================================================================= *)
(** ** llama_client._build_content *)

(** A part of the user turn: [{"type": "text", ...}] or
    [{"type": "image_url", ...}]. *)
Inductive content_part : Type :=
| TextPart (text : string)
| ImageUrlPart (url : string).

Definition _build_content (prompt : string) (images : list string)
  : list content_part :=
  fold_left (fun content image_data_url =>
               content ++ [ImageUrlPart image_data_url])
            images [TextPart prompt].

(** The content of the single message that [chat_markdown] and
    [chat_json] send for a request. *)
Definition request_content (r : request) : list content_part :=
  _build_content (prompt r) (images r).

(* ================================================================= *)
(** ** app: converting the selected receipts *)

(** What a call of the application raises: [gr.Error], or an exception
    of the pipeline that nothing catches. *)
Inductive app_exn : Type :=
| GrError (message : string)
| Uncaught (e : exn).

Inductive app_result (A : Type) : Type :=
| Done (a : A)
| Raised (e : app_exn).

Arguments Done {A} a.
Arguments Raised {A} e.

(** [str(path)] of a path as parsed. A text that starts with exactly two
    slashes, which POSIX keeps apart from one, is not treated: it is read
    as starting with one. *)
Definition path_text (p : Path.pure) : string :=
  match Path.parts p with
  | [] => if Path.anchored p then "/" else "."
  | _ :: _ =>
      ((if Path.anchored p then "/" else "")
       ++ String.concat "/" (Path.parts p))%string
  end.

(** A dictionary from names to groups, in insertion order. *)
Definition receipt_map_t : Type := list (string * ReceiptGroup).

(** [d[k] = v] *)
Fixpoint dict_set (k : string) (v : ReceiptGroup) (d : receipt_map_t)
  : receipt_map_t :=
  match d with
  | [] => [(k, v)]
  | (k', v') :: d' =>
      if String.eqb k k' then (k', v) :: d' else (k', v') :: dict_set k v d'
  end.

(** [d.get(k)] *)
Fixpoint dict_get (k : string) (d : receipt_map_t) : option ReceiptGroup :=
  match d with
  | [] => None
  | (k', v) :: d' => if String.eqb k k' then Some v else dict_get k d'
  end.

(** [{r.name: r for r in receipts}] *)
Definition receipt_dict (receipts : list ReceiptGroup) : receipt_map_t :=
  fold_left (fun d r => dict_set (name r) r d) receipts [].

(** Stand-ins for the instances: an archive encoding that lists the
    names of the entries, and a JSON test that accepts [{}] alone. *)
Definition entry_names (closed : bool) (zf : archive) : string :=
  String.concat "," (map fst zf).

Definition only_braces (s : string) : json_outcome :=
  if String.eqb s "{}" then JsonValue else JSONDecodeError.

Section App.

Variable Service : Type.
Variable respond : Service -> request -> result string * Service.
Variable json_loads : string -> json_outcome.
Variable b64encode : string -> string.
Variable archive_bytes : bool -> archive -> string.

(** The working directory of the process; a path given as text is
    followed from it as [Path.resolve] does. *)
Variable cwd : Path.t.

(** The loop of [convert_selected] over the selected names. On a normal
    end the result is the last preview and the file system; the client,
    with the requests sent, is returned in every case. *)
Fixpoint convert_loop (fs : node) (llama : LlamaClient Service)
    (receipt_map : receipt_map_t) (selected : list string)
    (output_format : string) (output_dir : Path.t) (last_preview : string)
  : app_result (string * node) * LlamaClient Service :=
  match selected with
  | [] => (Done (last_preview, fs), llama)
  | selected_name :: rest =>
      match dict_get selected_name receipt_map with
      | None =>
          convert_loop fs llama receipt_map rest output_format output_dir
            last_preview
      | Some receipt =>
          match _run_model Service respond json_loads b64encode fs llama
                  receipt output_format with
          | (Err e, llama') => (Raised (Uncaught e), llama')
          | (Ok result, llama') =>
              match write_output fs (name receipt) result output_format
                      output_dir with
              | Err e => (Raised (Uncaught e), llama')
              | Ok (fs', output_path) =>
                  convert_loop fs' llama' receipt_map rest output_format
                    output_dir
                    ("# " ++ name receipt ++ LF ++ LF
                     ++ substring 0 5000 result)%string
              end
          end
      end
  end.

(** [service0] is the state of the model service when the client is
    made. A normal result is the preview, the text of the archive's
    path, the file system and the archive written. *)
Definition convert_selected (fs : node) (service0 : Service)
    (tempdir : string) (selected : list string) (output_format : string)
  : app_result (string * string * node * archive) * LlamaClient Service :=
  let llama := {| service := service0; sent := [] |} in
  if String.eqb tempdir EmptyString then
    (Raised (GrError "Upload a ZIP first."), llama)
  else
    match discover_receipts fs (Path.resolve cwd (Path.parse tempdir)) with
    | Err e => (Raised (Uncaught e), llama)
    | Ok receipts =>
        match selected with
        | [] => (Raised (GrError "Select at least one receipt."), llama)
        | _ :: _ =>
            let receipt_map := receipt_dict receipts in
            let output_dir :=
              Path.joinpath (Path.parse tempdir) (Path.parse "outputs") in
            match convert_loop fs llama receipt_map selected output_format
                    (Path.resolve cwd output_dir) EmptyString with
            | (Raised e, llama') => (Raised e, llama')
            | (Done (last_preview, fs'), llama') =>
                let zip_target :=
                  Path.joinpath (Path.parse tempdir)
                    (Path.parse "outputs.zip") in
                match build_outputs_zip archive_bytes fs'
                        (Path.resolve cwd output_dir)
                        (Path.resolve cwd zip_target) with
                | Err e => (Raised (Uncaught e), llama')
                | Ok (fs'', zip_path, zf) =>
                    (Done (last_preview, path_text zip_target, fs'', zf),
                     llama')
                end
            end
        end
    end.

(** [run_conversion] of the interface: the progress text, then the
    result of [convert_selected]. *)
Definition run_conversion (fs : node) (service0 : Service) (tempdir : string)
    (selected_names : list string) (fmt : string)
  : app_result (string * string * string * node * archive)
    * LlamaClient Service :=
  let progress_msg :=
    ("Converting "
     ++ DecimalString.NilZero.string_of_uint
          (Nat.to_uint (List.length selected_names))
     ++ " receipt(s)...")%string in
  match convert_selected fs service0 tempdir selected_names fmt with
  | (Done (prev, zip_out, fs', zf), llama') =>
      (Done (progress_msg, prev, zip_out, fs', zf), llama')
  | (Raised e, llama') => (Raised e, llama')
  end.

(** [run_all] of the interface: every group that discovery finds is
    selected. *)
Definition run_all (fs : node) (service0 : Service) (tempdir : string)
    (fmt : string)
  : app_result (string * string * string * node * archive)
    * LlamaClient Service :=
  if String.eqb tempdir EmptyString then
    (Raised (GrError "Upload a ZIP first."),
     {| service := service0; sent := [] |})
  else
    match discover_receipts fs (Path.resolve cwd (Path.parse tempdir)) with
    | Err e => (Raised (Uncaught e), {| service := service0; sent := [] |})
    | Ok receipts =>
        let names := map name receipts in
        run_conversion fs service0 tempdir names fmt
    end.

End App.

(* ################################################################# *)
(** * Properties *)

(* ================================================================= *)
(** ** Strings *)

Module PyStrFacts.

Lemma prefix_cons a s1 b s2 :
  String.prefix (String a s1) (String b s2)
  = if ascii_dec a b then String.prefix s1 s2 else false.
Proof. reflexivity. Qed.

Lemma chars_app (a b : string) : chars (a ++ b) = chars a ++ chars b.
Proof. induction a as [|x a IH]; simpl; [reflexivity | now rewrite IH]. Qed.

Lemma length_app (a b : string) :
  String.length (a ++ b) = String.length a + String.length b.
Proof. induction a as [|x a IH]; simpl; [reflexivity | now rewrite IH]. Qed.

Lemma chars_map_chars f s : chars (map_chars f s) = map f (chars s).
Proof. induction s as [|c s IH]; simpl; [reflexivity | now rewrite IH]. Qed.

Lemma map_chars_id f s :
  (forall c, In c (chars s) -> f c = c) -> map_chars f s = s.
Proof.
  induction s as [|c s IH]; simpl; intros H; [reflexivity|].
  rewrite (H c (or_introl eq_refl)), IH; [reflexivity|].
  intros d Hd. apply H. now right.
Qed.

(** *** [lstrip], [rstrip], [strip] *)

Lemma lstrip_split s :
  exists l, s = (l ++ lstrip s)%string /\ all_chars isspace l = true.
Proof.
  induction s as [|c s [l [E A]]]; simpl.
  - now exists EmptyString.
  - destruct (isspace c) eqn:Hc.
    + exists (String c l). simpl. split; [now rewrite <- E|].
      unfold all_chars in *. simpl. now rewrite Hc.
    + now exists EmptyString.
Qed.

Lemma lstrip_head s c r : lstrip s = String c r -> isspace c = false.
Proof.
  induction s as [|a s IH]; simpl; [discriminate|].
  destruct (isspace a) eqn:Ha; [exact IH|].
  intros E. injection E as -> _. exact Ha.
Qed.

Lemma lstrip_fixed s :
  (forall c r, s = String c r -> isspace c = false) -> lstrip s = s.
Proof.
  destruct s as [|c s]; simpl; intros H; [reflexivity|].
  now rewrite (H c s eq_refl).
Qed.

Lemma rstrip_split s :
  exists r, s = (rstrip s ++ r)%string /\ all_chars isspace r = true.
Proof.
  induction s as [|c s [r [E A]]]; simpl.
  - now exists EmptyString.
  - destruct (rstrip s) as [|d t] eqn:Hr.
    + destruct (isspace c) eqn:Hc.
      * exists (String c r). simpl in *. split; [now rewrite <- E|].
        unfold all_chars in *. simpl. now rewrite Hc.
      * exists r. simpl in *. split; [congruence | assumption].
    + exists r. simpl in *. split; [congruence | assumption].
Qed.

Lemma rstrip_last s : forall r c,
  rstrip s = (r ++ String c EmptyString)%string -> isspace c = false.
Proof.
  induction s as [|a s IH]; simpl; intros r c E.
  - destruct r; discriminate.
  - destruct (rstrip s) as [|d t] eqn:Hr.
    + destruct (isspace a) eqn:Ha.
      * destruct r; discriminate.
      * destruct r as [|x r]; simpl in E.
        -- now injection E as <-.
        -- injection E as _ E. destruct r; discriminate.
    + destruct r as [|x r]; simpl in E.
      * discriminate.
      * injection E as _ E. now apply (IH r c).
Qed.

Lemma rstrip_head s c r :
  rstrip s = String c r -> exists r', s = String c r'.
Proof.
  destruct s as [|a s]; simpl; [discriminate|].
  destruct (rstrip s); [destruct (isspace a)|]; intros E;
    try discriminate; injection E as -> _; now eexists.
Qed.

Lemma rstrip_fixed s :
  (forall r c, s = (r ++ String c EmptyString)%string -> isspace c = false) ->
  rstrip s = s.
Proof.
  induction s as [|a s IH]; simpl; intros H; [reflexivity|].
  rewrite IH.
  - destruct s as [|b s]; [|reflexivity].
    now rewrite (H EmptyString a eq_refl).
  - intros r c E. apply (H (String a r) c). simpl. now rewrite E.
Qed.

Lemma strip_trimmed s : trimmed (strip s).
Proof.
  unfold strip. split.
  - intros c r E. destruct (rstrip_head _ _ _ E) as [r' E'].
    now apply (lstrip_head s c r').
  - intros r c E. now apply (rstrip_last (lstrip s) r c).
Qed.

Lemma strip_fixed s : trimmed s -> strip s = s.
Proof.
  intros [Hl Hr]. unfold strip.
  rewrite (lstrip_fixed s Hl). now apply rstrip_fixed.
Qed.

Lemma strip_idempotent s : strip (strip s) = strip s.
Proof. apply strip_fixed, strip_trimmed. Qed.

Lemma strip_is_trim s : is_trim_of s (strip s).
Proof.
  destruct (lstrip_split s) as [l [El Al]].
  destruct (rstrip_split (lstrip s)) as [r [Er Ar]].
  exists l, r. repeat split; try assumption.
  - unfold strip. now rewrite <- Er.
  - apply (strip_trimmed s).
  - apply (strip_trimmed s).
Qed.

Lemma strip_chars s c : In c (chars (strip s)) -> In c (chars s).
Proof.
  destruct (strip_is_trim s) as [l [r [E _]]].
  intros H. rewrite E, !chars_app. apply in_or_app. right.
  apply in_or_app. now left.
Qed.

End PyStrFacts.
Import PyStrFacts.

(* ================================================================= *)
(** ** sanitize_filename *)

Lemma replace_both_separators s :
  replace "\" "_" (replace "/" "_" s) = map_chars underscore_sep s.
Proof.
  induction s as [|c s IH]; simpl; [reflexivity|].
  unfold underscore_sep, is_path_sep.
  destruct (Ascii.eqb c "/") eqn:H1; simpl.
  - now rewrite IH.
  - destruct (Ascii.eqb c "\") eqn:H2; simpl; now rewrite IH.
Qed.

Lemma replace_both_separators_swapped s :
  replace "/" "_" (replace "\" "_" s) = map_chars underscore_sep s.
Proof.
  induction s as [|c s IH]; simpl; [reflexivity|].
  unfold underscore_sep, is_path_sep.
  destruct (Ascii.eqb c "\") eqn:H2; simpl.
  - rewrite IH. now rewrite orb_true_r.
  - destruct (Ascii.eqb c "/") eqn:H1; simpl; now rewrite IH.
Qed.

Lemma sanitize_filename_unfold name :
  sanitize_filename name = strip (map_chars underscore_sep name).
Proof.
  unfold sanitize_filename, sanitize_filename_in, unsafe. simpl.
  now rewrite replace_both_separators.
Qed.

Lemma underscore_sep_free c : is_path_sep (underscore_sep c) = false.
Proof.
  unfold underscore_sep. destruct (is_path_sep c) eqn:H; [reflexivity | exact H].
Qed.

Lemma sanitize_filename_separator_free name :
  separator_free (sanitize_filename name).
Proof.
  intros c H. rewrite sanitize_filename_unfold in H.
  apply strip_chars in H. rewrite chars_map_chars in H.
  apply in_map_iff in H. destruct H as [d [<- _]].
  apply underscore_sep_free.
Qed.

Lemma underscore_sep_fixed s :
  separator_free s -> map_chars underscore_sep s = s.
Proof.
  intros H. apply map_chars_id. intros c Hc.
  unfold underscore_sep. now rewrite (H c Hc).
Qed.

(** *** The file name built from a sanitized name is one path component *)

Lemma split_slash_single s :
  (forall c, In c (chars s) -> Ascii.eqb c "/" = false) ->
  Path.split_slash s = [s].
Proof.
  induction s as [|c s IH]; simpl; intros H; [reflexivity|].
  rewrite (H c (or_introl eq_refl)), IH; [reflexivity|].
  intros d Hd. apply H. now right.
Qed.

Lemma output_ext_cases fmt : output_ext fmt = "md" \/ output_ext fmt = "json".
Proof. unfold output_ext. destruct (String.eqb fmt "markdown"); auto. Qed.

Lemma output_ext_no_slash fmt c :
  In c (chars (output_ext fmt)) -> Ascii.eqb c "/" = false.
Proof.
  destruct (output_ext_cases fmt) as [-> | ->]; simpl; intros H;
    repeat (destruct H as [<- | H]; [reflexivity|]); destruct H.
Qed.

Lemma separator_free_no_slash s c :
  separator_free s -> In c (chars s) -> Ascii.eqb c "/" = false.
Proof.
  intros H Hc. specialize (H c Hc). unfold is_path_sep in H.
  now apply orb_false_iff in H.
Qed.

Lemma output_file_name_parts base fmt :
  separator_free base ->
  Path.parse (base ++ "." ++ output_ext fmt)
  = {| Path.anchored := false;
       Path.parts := [(base ++ "." ++ output_ext fmt)%string] |}.
Proof.
  intros Hb. unfold Path.parse.
  assert (Hno : forall c, In c (chars (base ++ "." ++ output_ext fmt)) ->
                          Ascii.eqb c "/" = false).
  { intros c Hc. rewrite !chars_app in Hc.
    apply in_app_or in Hc. destruct Hc as [Hc | Hc].
    - now apply (separator_free_no_slash base).
    - apply in_app_or in Hc. destruct Hc as [[<- | []] | Hc]; [reflexivity|].
      now apply (output_ext_no_slash fmt). }
  rewrite (split_slash_single _ Hno). f_equal.
  - destruct base as [|b base]; [reflexivity|].
    change ((String b base ++ "." ++ output_ext fmt)%string)
      with (String b (base ++ "." ++ output_ext fmt)).
    rewrite prefix_cons.
    destruct (ascii_dec "/" b) as [<- | _]; [|reflexivity].
    specialize (Hno "/"%char (or_introl eq_refl)). discriminate.
  - assert (Hlen : 3 <= String.length (base ++ "." ++ output_ext fmt)).
    { rewrite !length_app.
      destruct (output_ext_cases fmt) as [-> | ->]; simpl; lia. }
    set (s := (base ++ "." ++ output_ext fmt)%string) in *.
    cbn [filter]. unfold Path.keep_part.
    destruct (String.eqb_spec s "") as [E|_];
      [rewrite E in Hlen; simpl in Hlen; lia|].
    destruct (String.eqb_spec s ".") as [E|_];
      [rewrite E in Hlen; simpl in Hlen; lia|].
    reflexivity.
Qed.

Lemma output_file_path base fmt dir :
  separator_free base ->
  Path.join dir (base ++ "." ++ output_ext fmt)
  = dir ++ [(base ++ "." ++ output_ext fmt)%string].
Proof.
  intros Hb. unfold Path.join. now rewrite (output_file_name_parts base fmt Hb).
Qed.

Lemma output_file_name_proper base fmt :
  (base ++ "." ++ output_ext fmt)%string <> ".."
  /\ (base ++ "." ++ output_ext fmt)%string <> "."
  /\ (base ++ "." ++ output_ext fmt)%string <> "".
Proof.
  assert (Hlen : 3 <= String.length (base ++ "." ++ output_ext fmt)).
  { rewrite !length_app.
    destruct (output_ext_cases fmt) as [-> | ->]; simpl; lia. }
  repeat split; intros E; rewrite E in Hlen; simpl in Hlen; lia.
Qed.

Lemma output_name_safe base fmt :
  separator_free base -> safe_component (base ++ "." ++ output_ext fmt).
Proof.
  intros Hb. split.
  - intros c Hc. rewrite !chars_app in Hc.
    apply in_app_or in Hc. destruct Hc as [Hc | Hc]; [now apply Hb|].
    apply in_app_or in Hc. destruct Hc as [[<- | []] | Hc]; [reflexivity|].
    destruct (output_ext_cases fmt) as [E | E]; rewrite E in Hc; simpl in Hc;
      repeat (destruct Hc as [<- | Hc]; [reflexivity|]); destruct Hc.
  - destruct (output_file_name_proper base fmt) as [A [B C]]. auto.
Qed.

(** C6, as amended. For every input string, [sanitize_filename] turns
    each of the two path-separator characters, [/] and [\], into an
    underscore (in either order of going through the set) and trims the
    whitespace around the result.  What comes out holds no separator; it
    can still be empty, [.] or [..].  The file name that [write_output]
    builds from it, with the extension appended, is a safe single
    filename component: joined to the directory it adds a single
    component, which is neither empty nor [.] nor [..].  Sanitizing
    [A/B\C] yields [A_B_C]. *)
Theorem sanitize_filename_replaces_and_trims :
  forall name : string,
    is_trim_of (map_chars underscore_sep name) (sanitize_filename name)
    /\ sanitize_filename_in ["\"%char; "/"%char] name = sanitize_filename name
    /\ separator_free (sanitize_filename name)
    /\ (forall (dir : Path.t) (fmt : string),
          Path.join dir (sanitize_filename name ++ "." ++ output_ext fmt)
          = dir ++ [(sanitize_filename name ++ "." ++ output_ext fmt)%string]
          /\ (sanitize_filename name ++ "." ++ output_ext fmt)%string <> ".."
          /\ (sanitize_filename name ++ "." ++ output_ext fmt)%string <> "."
          /\ (sanitize_filename name ++ "." ++ output_ext fmt)%string <> ""
          /\ safe_component (sanitize_filename name ++ "." ++ output_ext fmt))
    /\ sanitize_filename "A/B\C" = "A_B_C".
Proof.
  intros name.
  split; [rewrite sanitize_filename_unfold; apply strip_is_trim|].
  split.
  { rewrite sanitize_filename_unfold. unfold sanitize_filename_in. simpl.
    now rewrite replace_both_separators_swapped. }
  split; [apply sanitize_filename_separator_free|].
  split; [|reflexivity].
  intros dir fmt. split.
  - apply output_file_path, sanitize_filename_separator_free.
  - destruct (output_file_name_proper (sanitize_filename name) fmt)
      as [A [B C]].
    split; [exact A|]. split; [exact B|]. split; [exact C|].
    apply output_name_safe, sanitize_filename_separator_free.
Qed.

(** C9. [sanitize_filename] is idempotent. *)
Theorem sanitize_filename_idempotent :
  forall s : string,
    sanitize_filename (sanitize_filename s) = sanitize_filename s.
Proof.
  intros s.
  rewrite (sanitize_filename_unfold (sanitize_filename s)).
  rewrite (underscore_sep_fixed _ (sanitize_filename_separator_free s)).
  rewrite sanitize_filename_unfold. apply strip_idempotent.
Qed.

(* ================================================================= *)
(** ** The file system *)

Module FSFacts.
Import FS.

Lemma assoc_app k es es' :
  assoc k (es ++ es')
  = match assoc k es with Some n => Some n | None => assoc k es' end.
Proof.
  induction es as [|[k' n'] es IH]; simpl; [reflexivity|].
  destruct (String.eqb k k'); [reflexivity | exact IH].
Qed.

Lemma assoc_update_eq k n es :
  assoc k (update k n es)
  = match assoc k es with Some _ => Some n | None => None end.
Proof.
  induction es as [|[k' n'] es IH]; simpl; [reflexivity|].
  destruct (String.eqb k k') eqn:E; simpl; rewrite E; [reflexivity | exact IH].
Qed.

Lemma assoc_update_neq k g n es :
  g <> k -> assoc g (update k n es) = assoc g es.
Proof.
  intros Hne. induction es as [|[k' n'] es IH]; simpl; [reflexivity|].
  destruct (String.eqb_spec k k') as [<- | E]; simpl.
  - now destruct (String.eqb_spec g k).
  - destruct (String.eqb g k'); [reflexivity | exact IH].
Qed.

Lemma update_same k n es : assoc k es = Some n -> update k n es = es.
Proof.
  induction es as [|[k' n'] es IH]; simpl; [reflexivity|].
  destruct (String.eqb k k') eqn:E.
  - now intros [= ->].
  - intros H. now rewrite IH.
Qed.

Lemma assoc_some_iff k es : (exists n, assoc k es = Some n) <-> In k (map fst es).
Proof.
  induction es as [|[k' n'] es IH]; simpl.
  - split; [intros [n H]; discriminate | intros []].
  - destruct (String.eqb_spec k k') as [->|Hne].
    + split; [now left | now exists n'].
    + rewrite IH. split; [now right | intros [E | H]; [congruence | exact H]].
Qed.

Lemma lookup_app fs p q :
  lookup fs (p ++ q)
  = match lookup fs p with Some n => lookup n q | None => None end.
Proof.
  revert fs. induction p as [|c p IH]; intros fs; simpl; [reflexivity|].
  destruct fs as [x|es|]; try reflexivity.
  destruct (assoc c es); [apply IH | reflexivity].
Qed.

Lemma lookup_child fs p c :
  lookup fs (p ++ [c])
  = match lookup fs p with
    | Some (Dir es) => assoc c es
    | _ => None
    end.
Proof.
  rewrite lookup_app. destruct (lookup fs p) as [[x|es|]|]; simpl; try reflexivity.
  now destruct (assoc c es).
Qed.

Lemma lookup_fresh_dirs p : lookup (fresh_dirs p) p = Some (Dir []).
Proof.
  induction p as [|c p IH]; simpl; [reflexivity|].
  now rewrite String.eqb_refl.
Qed.

(** *** [mkdir(parents=True, exist_ok=True)] *)

Lemma mkdir_parents_existing fs p :
  is_dir fs p = true -> mkdir_parents fs p = Ok fs.
Proof.
  unfold is_dir. revert fs. induction p as [|c p IH]; intros fs; simpl.
  - now destruct fs.
  - destruct fs as [x|es|]; try discriminate.
    destruct (assoc c es) as [n|] eqn:E; [|discriminate].
    intros H. rewrite (IH n H). simpl. now rewrite (update_same c n es E).
Qed.

(** A successful call leaves an existing directory as it was, or makes
    an empty one where nothing was. *)
Lemma mkdir_parents_result fs p fs1 :
  mkdir_parents fs p = Ok fs1 ->
  (is_dir fs p = true /\ fs1 = fs)
  \/ (lookup fs p = None /\ lookup fs1 p = Some (Dir [])).
Proof.
  unfold is_dir. revert fs fs1. induction p as [|c p IH]; intros fs fs1; simpl.
  - destruct fs; try discriminate. intros [= <-]. now left.
  - destruct fs as [x|es|]; try discriminate.
    destruct (assoc c es) as [n|] eqn:E.
    + destruct (mkdir_parents n p) as [n'|e] eqn:M; simpl; [|discriminate].
      intros [= <-]. destruct (IH n n' M) as [[Hd ->] | [Hn Hn']].
      * left. split; [exact Hd|]. now rewrite (update_same c n es E).
      * right. split; [exact Hn|]. simpl. now rewrite assoc_update_eq, E.
    + intros [= <-]. right. split; [reflexivity|]. simpl.
      rewrite assoc_app, E. simpl. rewrite String.eqb_refl.
      apply lookup_fresh_dirs.
Qed.

Lemma mkdir_parents_creatable fs p :
  creatable fs p = true -> exists fs1, mkdir_parents fs p = Ok fs1.
Proof.
  revert fs. induction p as [|c p IH]; intros fs; simpl.
  - destruct fs; simpl; try discriminate. now eexists.
  - destruct fs as [x|es|]; simpl; try discriminate.
    destruct (assoc c es) as [n|] eqn:E; [|now eexists].
    intros H. destruct (IH n H) as [n' ->]. simpl. now eexists.
Qed.

(** *** [write_text] on an entry of a directory *)

Lemma valid_path_cons c p :
  valid_path (c :: p) = true ->
  has_nul c = false /\ too_long c = false /\ valid_path p = true.
Proof.
  unfold valid_path. cbn [forallb]. unfold valid_name at 1.
  intros H. apply andb_true_iff in H. destruct H as [H Hp].
  apply andb_true_iff in H. destruct H as [Hn Hl].
  apply negb_true_iff in Hn. apply negb_true_iff in Hl. auto.
Qed.

Lemma valid_path_no_nul p : valid_path p = true -> existsb has_nul p = false.
Proof.
  induction p as [|c p IH]; intros H; [reflexivity|].
  destruct (valid_path_cons c p H) as [Hn [_ Hp]].
  cbn [existsb]. now rewrite Hn, (IH Hp).
Qed.

Lemma write_text_valid fs p content :
  valid_path p = true -> write_text fs p content = write_at fs p content.
Proof. intros H. unfold write_text. now rewrite (valid_path_no_nul p H). Qed.

Lemma write_text_ok fs p content fs2 :
  write_text fs p content = Ok fs2 -> write_at fs p content = Ok fs2.
Proof. unfold write_text. now destruct (existsb has_nul p). Qed.

Lemma write_at_child fs dir f content es :
  lookup fs dir = Some (Dir es) ->
  (assoc f es = None \/ exists old, assoc f es = Some (File old)) ->
  valid_path (dir ++ [f]) = true ->
  exists fs2 es2,
    write_at fs (dir ++ [f]) content = Ok fs2
    /\ lookup fs2 dir = Some (Dir es2)
    /\ assoc f es2 = Some (File content)
    /\ (forall g, g <> f -> assoc g es2 = assoc g es).
Proof.
  revert fs. induction dir as [|c dir IH]; intros fs Hl Hf Hv;
    cbn [app] in Hv; destruct (valid_path_cons _ _ Hv) as [_ [Hc Hp]];
    cbn [app write_at lookup] in *.
  - injection Hl as ->. rewrite Hc.
    destruct Hf as [Hf | [old Hf]]; rewrite Hf.
    + exists (Dir (es ++ [(f, File content)])), (es ++ [(f, File content)]).
      repeat split.
      * rewrite assoc_app, Hf. simpl. now rewrite String.eqb_refl.
      * intros g Hg. rewrite assoc_app. destruct (assoc g es); [reflexivity|].
        simpl. now destruct (String.eqb_spec g f).
    + exists (Dir (update f (File content) es)), (update f (File content) es).
      repeat split.
      * now rewrite assoc_update_eq, Hf.
      * intros g Hg. now apply assoc_update_neq.
  - destruct fs as [x|es0|]; try discriminate. rewrite Hc.
    destruct (assoc c es0) as [n|] eqn:E; [|discriminate].
    destruct (IH n Hl Hf Hp) as [n2 [es2 [W [L [A O]]]]].
    destruct (dir ++ [f]) as [|d rest] eqn:Ed;
      [destruct dir; discriminate|].
    rewrite W. cbn [bind].
    exists (Dir (update c n2 es0)), es2. repeat split; try assumption.
    cbn [lookup]. now rewrite assoc_update_eq, E.
Qed.

Lemma write_text_child fs dir f content es :
  lookup fs dir = Some (Dir es) ->
  (assoc f es = None \/ exists old, assoc f es = Some (File old)) ->
  valid_path (dir ++ [f]) = true ->
  exists fs2 es2,
    write_text fs (dir ++ [f]) content = Ok fs2
    /\ lookup fs2 dir = Some (Dir es2)
    /\ assoc f es2 = Some (File content)
    /\ (forall g, g <> f -> assoc g es2 = assoc g es).
Proof.
  intros Hl Hf Hv. rewrite (write_text_valid _ _ _ Hv).
  now apply write_at_child.
Qed.

Lemma write_at_read fs p content fs2 :
  write_at fs p content = Ok fs2 -> read fs2 p = Ok content.
Proof.
  unfold read. revert fs fs2. induction p as [|c q IH]; intros fs fs2;
    cbn [write_at].
  - discriminate.
  - destruct fs as [x|es|]; try discriminate.
    destruct (too_long c); [discriminate|].
    destruct q as [|d q].
    + destruct (assoc c es) as [[old|es'|]|] eqn:E; try discriminate;
        intros [= <-]; cbn [lookup].
      * now rewrite assoc_update_eq, E.
      * rewrite assoc_app, E. simpl. now rewrite String.eqb_refl.
    + destruct (assoc c es) as [n|] eqn:E; [|discriminate].
      destruct (write_at n (d :: q) content) as [n'|e] eqn:W; [|discriminate].
      intros [= <-]. cbn [lookup]. rewrite assoc_update_eq, E.
      exact (IH n n' W).
Qed.

Lemma write_text_read fs p content fs2 :
  write_text fs p content = Ok fs2 -> read fs2 p = Ok content.
Proof. intros W. exact (write_at_read _ _ _ _ (write_text_ok _ _ _ _ W)). Qed.

(** Writing succeeds exactly where a file can be opened. *)
Lemma write_at_openable fs p content :
  openable_at fs p = true <-> exists fs2, write_at fs p content = Ok fs2.
Proof.
  revert fs. induction p as [|c q IH]; intros fs.
  - destruct fs; cbn [openable_at write_at]; split;
      try discriminate; intros [fs2 H]; discriminate.
  - destruct fs as [x|es|]; cbn [openable_at write_at];
      try (split; [discriminate | intros [fs2 H]; discriminate]).
    destruct (too_long c); cbn [negb andb];
      [split; [discriminate | intros [fs2 H]; discriminate]|].
    destruct q as [|d q].
    + destruct (assoc c es) as [[old|es'|]|]; split;
        try discriminate; try (intros [fs2 H]; discriminate); eauto.
    + destruct (assoc c es) as [n|];
        [|split; [discriminate | intros [fs2 H]; discriminate]].
      rewrite (IH n). split.
      * intros [n' W]. rewrite W. cbn [bind]. eauto.
      * intros [fs2 W].
        destruct (write_at n (d :: q) content) as [n'|e]; [eauto | discriminate].
Qed.

Lemma write_text_openable fs p content :
  openable fs p = true <-> exists fs2, write_text fs p content = Ok fs2.
Proof.
  unfold openable, write_text. destruct (existsb has_nul p); cbn [negb andb].
  - split; [discriminate | intros [fs2 H]; discriminate].
  - apply write_at_openable.
Qed.

(** What is written over is nothing or a regular file. *)
Lemma write_at_writable fs p content fs2 :
  write_at fs p content = Ok fs2 -> writable fs p = true.
Proof.
  unfold writable. revert fs fs2.
  induction p as [|c q IH]; intros fs fs2; cbn [write_at].
  - discriminate.
  - destruct fs as [x|es|]; try discriminate.
    destruct (too_long c); [discriminate|].
    destruct q as [|d q]; cbn [lookup].
    + destruct (assoc c es) as [[old|es'|]|]; try discriminate; reflexivity.
    + destruct (assoc c es) as [n|]; [|discriminate].
      destruct (write_at n (d :: q) content) as [n'|e] eqn:W; [|discriminate].
      intros _. exact (IH n n' W).
Qed.

(** Every other path reads as before. *)
Lemma write_at_elsewhere fs p content fs2 :
  write_at fs p content = Ok fs2 ->
  forall q, q <> p -> read fs2 q = read fs q.
Proof.
  unfold read. revert fs fs2.
  induction p as [|c p IH]; intros fs fs2; cbn [write_at].
  - discriminate.
  - destruct fs as [x|es|]; try discriminate.
    destruct (too_long c); [discriminate|].
    destruct p as [|d p].
    + intros W [|c' q] Hq.
      * destruct (assoc c es) as [[old|es'|]|]; try discriminate;
          injection W as <-; reflexivity.
      * cbn [lookup]. destruct (String.eqb_spec c' c) as [->|Hne].
        -- destruct q as [|d q]; [now contradiction Hq|].
           destruct (assoc c es) as [[old|es'|]|] eqn:E; try discriminate;
             injection W as <-.
           ++ now rewrite assoc_update_eq, E.
           ++ rewrite assoc_app, E. cbn [assoc]. now rewrite String.eqb_refl.
        -- destruct (assoc c es) as [[old|es'|]|] eqn:E; try discriminate;
             injection W as <-.
           ++ now rewrite (assoc_update_neq _ _ _ _ Hne).
           ++ rewrite assoc_app. destruct (assoc c' es); [reflexivity|].
              cbn [assoc]. now destruct (String.eqb_spec c' c).
    + destruct (assoc c es) as [n|] eqn:E; [|discriminate].
      destruct (write_at n (d :: p) content) as [n'|e] eqn:W; [|discriminate].
      intros [= <-] [|c' q] Hq; [reflexivity|].
      cbn [lookup]. destruct (String.eqb_spec c' c) as [->|Hne].
      * rewrite assoc_update_eq, E. apply (IH n n' W).
        intros ->. now apply Hq.
      * now rewrite (assoc_update_neq _ _ _ _ Hne).
Qed.

Lemma write_text_elsewhere fs p content fs2 :
  write_text fs p content = Ok fs2 ->
  forall q, q <> p -> read fs2 q = read fs q.
Proof. intros W. exact (write_at_elsewhere _ _ _ _ (write_text_ok _ _ _ _ W)). Qed.

Lemma is_file_of_read fs p :
  is_file fs p = match read fs p with Ok _ => true | Err _ => false end.
Proof. unfold is_file, read. now destruct (lookup fs p) as [[x|es|]|]. Qed.

Lemma is_dir_of_read fs p :
  is_dir fs p
  = match read fs p with Err IsADirectoryError => true | _ => false end.
Proof. unfold is_dir, read. now destruct (lookup fs p) as [[x|es|]|]. Qed.

(** Writing a file makes no directory and removes none. *)
Lemma write_text_same_dirs fs p content fs2 :
  write_text fs p content = Ok fs2 -> forall q, is_dir fs2 q = is_dir fs q.
Proof.
  intros W q. rewrite !is_dir_of_read.
  destruct (list_eq_dec string_dec q p) as [->|Hne].
  - rewrite (write_text_read _ _ _ _ W).
    apply write_text_ok, write_at_writable in W. unfold writable in W.
    unfold read. now destruct (lookup fs p) as [[x|es|]|].
  - now rewrite (write_text_elsewhere _ _ _ _ W q Hne).
Qed.

(** The names in every directory stay when an existing file is written. *)
Lemma write_at_same_names fs p content fs2 :
  write_at fs p content = Ok fs2 -> is_file fs p = true ->
  forall q es2, lookup fs2 q = Some (Dir es2) ->
    exists es, lookup fs q = Some (Dir es) /\ map fst es = map fst es2.
Proof.
  unfold is_file. revert fs fs2.
  induction p as [|c p IH]; intros fs fs2; cbn [write_at].
  - discriminate.
  - destruct fs as [x|es|]; try discriminate.
    destruct (too_long c); [discriminate|]. cbn [lookup].
    assert (N : forall n', map fst (update c n' es) = map fst es).
    { intros n'. clear. induction es as [|[k v] es IHes]; [reflexivity|].
      cbn [update]. destruct (String.eqb c k); cbn [map fst];
        [reflexivity | now rewrite IHes]. }
    destruct p as [|d p].
    + destruct (assoc c es) as [[old|es'|]|] eqn:E; try discriminate.
      intros [= <-] _ [|c' q] es2; cbn [lookup].
      * intros [= <-]. exists es. now rewrite N.
      * destruct (String.eqb_spec c' c) as [->|Hne].
        -- rewrite assoc_update_eq, E. destruct q; discriminate.
        -- rewrite (assoc_update_neq _ _ _ _ Hne). intros H. now exists es2.
    + destruct (assoc c es) as [n|] eqn:E; [|discriminate].
      destruct (write_at n (d :: p) content) as [n'|e] eqn:W; [|discriminate].
      intros [= <-] F [|c' q] es2; cbn [lookup].
      * intros [= <-]. exists es. now rewrite N.
      * destruct (String.eqb_spec c' c) as [->|Hne].
        -- rewrite assoc_update_eq, E. apply (IH n n' W F).
        -- rewrite (assoc_update_neq _ _ _ _ Hne). intros H. now exists es2.
Qed.

(** A path that was written is a valid one. *)
Lemma write_at_fits fs p content fs2 :
  write_at fs p content = Ok fs2 -> existsb too_long p = false.
Proof.
  revert fs fs2. induction p as [|c q IH]; intros fs fs2; cbn [write_at existsb].
  - discriminate.
  - destruct fs as [x|es|]; try discriminate.
    destruct (too_long c); [discriminate|]. cbn [orb].
    destruct q as [|d q]; [reflexivity|].
    destruct (assoc c es) as [n|]; [|discriminate].
    destruct (write_at n (d :: q) content) as [n'|e] eqn:W; [|discriminate].
    intros _. exact (IH n n' W).
Qed.

Lemma write_text_valid_path fs p content fs2 :
  write_text fs p content = Ok fs2 -> valid_path p = true.
Proof.
  unfold write_text. destruct (existsb has_nul p) eqn:N; [discriminate|].
  intros W. apply write_at_fits in W.
  induction p as [|c p IH]; [reflexivity|].
  cbn [existsb] in N, W. apply orb_false_iff in N. apply orb_false_iff in W.
  destruct N as [N1 N2], W as [W1 W2].
  unfold valid_path. cbn [forallb]. unfold valid_name at 1.
  rewrite N1, W1. exact (IH N2 W2).
Qed.

End FSFacts.

(* ================================================================= *)
(** ** write_output *)

Section WriteOutput.
Import FS FSFacts.

Lemma write_output_path receipt_name output_format output_dir :
  Path.join output_dir
    (sanitize_filename receipt_name ++ "." ++ output_ext output_format)
  = output_file receipt_name output_format output_dir.
Proof. apply output_file_path, sanitize_filename_separator_free. Qed.

Lemma write_output_after_mkdir fs fs1 receipt_name content output_format output_dir :
  mkdir_parents fs output_dir = Ok fs1 ->
  writable fs (output_file receipt_name output_format output_dir) = true ->
  valid_path (output_file receipt_name output_format output_dir) = true ->
  exists fs',
    write_output fs receipt_name content output_format output_dir
    = Ok (fs', output_file receipt_name output_format output_dir)
    /\ is_dir fs' output_dir = true
    /\ read fs' (output_file receipt_name output_format output_dir) = Ok content
    /\ (forall g, output_dir ++ [g]
                  <> output_file receipt_name output_format output_dir ->
                  lookup fs' (output_dir ++ [g]) = lookup fs (output_dir ++ [g])).
Proof.
  intros M W V. unfold write_output, ensure_directory. rewrite M.
  cbn [bind fst snd]. rewrite write_output_path. unfold output_file in *.
  set (f := (sanitize_filename receipt_name ++ "." ++ output_ext output_format)%string) in *.
  assert (H1 : exists es, lookup fs1 output_dir = Some (Dir es)
               /\ (forall g, assoc g es = lookup fs (output_dir ++ [g]))).
  { destruct (mkdir_parents_result _ _ _ M) as [[Hd ->] | [Hn Hn']].
    - unfold is_dir in Hd.
      destruct (lookup fs output_dir) as [[x|es|]|] eqn:L; try discriminate.
      exists es. split; [reflexivity|]. intros g.
      now rewrite lookup_child, L.
    - exists []. split; [exact Hn'|]. intros g.
      now rewrite lookup_child, Hn. }
  destruct H1 as [es [L1 A1]].
  assert (Hf : assoc f es = None \/ exists old, assoc f es = Some (File old)).
  { unfold writable in W. rewrite <- A1 in W.
    destruct (assoc f es) as [[old| |]|]; try discriminate; eauto. }
  destruct (write_text_child fs1 output_dir f content es L1 Hf V)
    as [fs2 [es2 [Wt [L2 [A2 O2]]]]].
  exists fs2. rewrite Wt. cbn [bind]. repeat split.
  - unfold is_dir. now rewrite L2.
  - unfold read. now rewrite lookup_child, L2, A2.
  - intros g Hg. rewrite lookup_child, L2, <- A1. apply O2.
    intros ->. now apply Hg.
Qed.

Lemma read_writable fs p c : read fs p = Ok c -> writable fs p = true.
Proof.
  unfold read, writable.
  destruct (lookup fs p) as [[x|es|]|]; try discriminate; reflexivity.
Qed.

End WriteOutput.

(** C8. When nothing but directories lies on the way to the output
    directory, the target is absent or a regular file and the names on
    the path are names the system takes (no NUL, at most [NAME_MAX]
    bytes), [write_output] returns the path [<sanitized name>.<ext>]
    below the output directory
    ([md] for markdown, [json] for the structured format); afterwards the
    output directory exists, whether it did before or not, the file holds
    exactly the content, and every other entry of the directory is as it
    was.  A second write under the same sanitized name and extension goes
    to the same file, which then holds the second content only. *)
Theorem write_output_writes_and_overwrites :
  forall (fs : node) (receipt_name content output_format : string)
         (output_dir : Path.t),
    FS.creatable fs output_dir = true ->
    FS.writable fs (output_file receipt_name output_format output_dir) = true ->
    FS.valid_path (output_file receipt_name output_format output_dir) = true ->
    exists fs',
      write_output fs receipt_name content output_format output_dir
      = Ok (fs', output_file receipt_name output_format output_dir)
      /\ FS.is_dir fs' output_dir = true
      /\ FS.read fs' (output_file receipt_name output_format output_dir)
         = Ok content
      /\ (forall g, output_dir ++ [g]
                    <> output_file receipt_name output_format output_dir ->
                    FS.lookup fs' (output_dir ++ [g])
                    = FS.lookup fs (output_dir ++ [g]))
      /\ output_ext "markdown" = "md" /\ output_ext "json" = "json"
      /\ (forall name2 content2 format2 : string,
            sanitize_filename name2 = sanitize_filename receipt_name ->
            output_ext format2 = output_ext output_format ->
            exists fs'',
              write_output fs' name2 content2 format2 output_dir
              = Ok (fs'', output_file receipt_name output_format output_dir)
              /\ FS.read fs'' (output_file receipt_name output_format output_dir)
                 = Ok content2).
Proof.
  intros fs receipt_name content output_format output_dir Hc Hw Hv.
  destruct (FSFacts.mkdir_parents_creatable fs output_dir Hc) as [fs1 M].
  destruct (write_output_after_mkdir fs fs1 receipt_name content output_format
              output_dir M Hw Hv) as [fs' [W [D [R O]]]].
  exists fs'. repeat split; try assumption.
  intros name2 content2 format2 Hn He.
  assert (P : output_file name2 format2 output_dir
              = output_file receipt_name output_format output_dir).
  { unfold output_file. now rewrite Hn, He. }
  destruct (write_output_after_mkdir fs' fs' name2 content2 format2 output_dir)
    as [fs'' [W2 [_ [R2 _]]]].
  - now apply FSFacts.mkdir_parents_existing.
  - rewrite P. now apply (read_writable fs' _ content).
  - now rewrite P.
  - exists fs''. rewrite <- P. now split.
Qed.

(** C10. For every format other than the string [markdown], recognised
    or not, the extension chosen is [json]: whenever [write_output]
    returns, the file it wrote is [<sanitized name>.json] below the output
    directory, and it returns whenever the directory can be made, the
    target is absent or a regular file and the names on the path are
    names the system takes. *)
Theorem write_output_json_unless_markdown :
  forall (fs : node) (receipt_name content output_format : string)
         (output_dir : Path.t),
    output_format <> "markdown" ->
    (forall fs' path,
        write_output fs receipt_name content output_format output_dir
        = Ok (fs', path) ->
        path = output_dir ++ [(sanitize_filename receipt_name ++ ".json")%string]
        /\ FS.read fs' path = Ok content)
    /\ (FS.creatable fs output_dir = true ->
        FS.writable fs
          (output_dir ++ [(sanitize_filename receipt_name ++ ".json")%string])
        = true ->
        FS.valid_path
          (output_dir ++ [(sanitize_filename receipt_name ++ ".json")%string])
        = true ->
        exists fs',
          write_output fs receipt_name content output_format output_dir
          = Ok (fs', output_dir
                     ++ [(sanitize_filename receipt_name ++ ".json")%string])).
Proof.
  intros fs receipt_name content output_format output_dir Hne.
  assert (E : output_ext output_format = "json").
  { unfold output_ext. now destruct (String.eqb_spec output_format "markdown"). }
  assert (P : output_file receipt_name output_format output_dir
              = output_dir ++ [(sanitize_filename receipt_name ++ ".json")%string]).
  { unfold output_file. now rewrite E. }
  split.
  - intros fs' path W. unfold write_output, ensure_directory in W.
    destruct (FS.mkdir_parents fs output_dir) as [fs1|e]; [|discriminate].
    cbn [bind fst snd] in W. rewrite write_output_path, P in W.
    destruct (FS.write_text fs1 _ content) as [fs2|e] eqn:Wt; [|discriminate].
    cbn [bind] in W. injection W as <- <-. split; [reflexivity|].
    exact (FSFacts.write_text_read _ _ _ _ Wt).
  - intros Hc Hw Hv. rewrite <- P in Hw, Hv.
    destruct (FSFacts.mkdir_parents_creatable fs output_dir Hc) as [fs1 M].
    destruct (write_output_after_mkdir fs fs1 receipt_name content output_format
                output_dir M Hw Hv) as [fs' [W _]].
    exists fs'. now rewrite <- P.
Qed.

(* ================================================================= *)
(** ** Python's [sorted] *)

Section SortedFacts.
Context {A : Type} (lt : A -> A -> bool).

Lemma insert_perm x l : Permutation (insert lt x l) (x :: l).
Proof.
  induction l as [|y l IH]; simpl; [reflexivity|].
  destruct (lt y x); [|reflexivity].
  rewrite IH. apply perm_swap.
Qed.

Lemma py_sorted_perm l : Permutation (py_sorted lt l) l.
Proof.
  induction l as [|x l IH]; simpl; [reflexivity|].
  rewrite insert_perm. now apply perm_skip.
Qed.

Lemma py_sorted_in l x : In x (py_sorted lt l) <-> In x l.
Proof.
  split; apply Permutation_in;
    [apply py_sorted_perm | symmetry; apply py_sorted_perm].
Qed.

Hypothesis lt_asym : forall a b, lt a b = true -> lt b a = false.
Hypothesis le_trans : forall a b c,
    not_after lt a b -> not_after lt b c -> not_after lt a c.

Lemma insert_sorted x l :
  StronglySorted (not_after lt) l -> StronglySorted (not_after lt) (insert lt x l).
Proof.
  induction l as [|y l IH]; simpl; intros S.
  - constructor; constructor.
  - inversion S as [|? ? S' F]; subst.
    destruct (lt y x) eqn:E.
    + constructor; [now apply IH|].
      apply Forall_forall. intros z Hz.
      apply (Permutation_in _ (insert_perm x l)) in Hz.
      destruct Hz as [<- | Hz].
      * now apply lt_asym.
      * now apply (proj1 (Forall_forall _ _) F).
    + constructor; [exact S|]. constructor; [exact E|].
      apply Forall_forall. intros z Hz.
      apply (le_trans x y z E).
      now apply (proj1 (Forall_forall _ _) F).
Qed.

Lemma py_sorted_sorted l : StronglySorted (not_after lt) (py_sorted lt l).
Proof.
  induction l as [|x l IH]; simpl; [constructor | now apply insert_sorted].
Qed.

End SortedFacts.

Lemma py_sorted_map {A B : Type} (f : A -> B) ltA ltB l :
  (forall a b, ltB (f a) (f b) = ltA a b) ->
  py_sorted ltB (map f l) = map f (py_sorted ltA l).
Proof.
  intros H. induction l as [|x l IH]; simpl; [reflexivity|].
  rewrite IH. generalize (py_sorted ltA l). intros s.
  induction s as [|y s IHs]; simpl; [reflexivity|].
  rewrite H. destruct (ltA y x); simpl; [now rewrite IHs | reflexivity].
Qed.

Lemma StronglySorted_filter {A : Type} (R : A -> A -> Prop) f l :
  StronglySorted R l -> StronglySorted R (filter f l).
Proof.
  induction 1 as [|x l S IH F]; simpl; [constructor|].
  destruct (f x); [|exact IH].
  constructor; [exact IH|].
  apply Forall_forall. intros y Hy. apply filter_In in Hy.
  now apply (proj1 (Forall_forall _ _) F).
Qed.

(* ================================================================= *)
(** ** The orders on strings, paths and sort keys *)

Module OrderFacts.

Lemma ascii_compare_refl c : Ascii.compare c c = Eq.
Proof. apply N.compare_refl. Qed.

Lemma string_compare_refl s : String.compare s s = Eq.
Proof.
  induction s as [|c s IH]; simpl; [reflexivity|].
  now rewrite ascii_compare_refl.
Qed.

Lemma string_compare_lt_trans a : forall b c,
  String.compare a b = Lt -> String.compare b c = Lt ->
  String.compare a c = Lt.
Proof.
  induction a as [|x a IH]; intros [|y b] [|z c]; simpl;
    try discriminate; try reflexivity.
  unfold Ascii.compare.
  destruct (N.compare_spec (N_of_ascii x) (N_of_ascii y)) as [E1|L1|G1];
    destruct (N.compare_spec (N_of_ascii y) (N_of_ascii z)) as [E2|L2|G2];
    try discriminate; intros H1 H2.
  - rewrite E1, E2, N.compare_refl. now apply (IH b c).
  - rewrite E1. now apply N.compare_lt_iff in L2 as ->.
  - rewrite <- E2. now apply N.compare_lt_iff in L1 as ->.
  - assert (L : (N_of_ascii x < N_of_ascii z)%N) by lia.
    now apply N.compare_lt_iff in L as ->.
Qed.

Lemma string_ltb_asym a b : String.ltb a b = true -> String.ltb b a = false.
Proof.
  unfold String.ltb. rewrite (String.compare_antisym b a).
  now destruct (String.compare a b).
Qed.

Lemma string_ltb_false_leb a b : String.ltb b a = false <-> String.leb a b = true.
Proof.
  unfold String.ltb, String.leb. rewrite (String.compare_antisym b a).
  destruct (String.compare a b); simpl; split; congruence.
Qed.

Lemma string_le_trans a b c :
  String.ltb b a = false -> String.ltb c b = false -> String.ltb c a = false.
Proof.
  unfold String.ltb. rewrite (String.compare_antisym b a),
    (String.compare_antisym c b), (String.compare_antisym c a).
  destruct (String.compare a b) eqn:E1; try discriminate;
    destruct (String.compare b c) eqn:E2; try discriminate; intros _ _.
  - apply String.compare_eq_iff in E1, E2. subst.
    now rewrite string_compare_refl.
  - apply String.compare_eq_iff in E1. subst. now rewrite E2.
  - apply String.compare_eq_iff in E2. subst. now rewrite E1.
  - now rewrite (string_compare_lt_trans a b c E1 E2).
Qed.

Lemma string_ltb_total a b :
  a <> b -> String.ltb b a = false -> String.ltb a b = true.
Proof.
  unfold String.ltb. rewrite (String.compare_antisym b a).
  destruct (String.compare a b) eqn:E; try discriminate; [|reflexivity].
  apply String.compare_eq_iff in E. congruence.
Qed.

(** Siblings compare as their names do. *)
Lemma path_compare_siblings dir a b :
  Path.compare (dir ++ [a]) (dir ++ [b]) = String.compare a b.
Proof.
  induction dir as [|c dir IH]; simpl.
  - now destruct (String.compare a b).
  - now rewrite string_compare_refl.
Qed.

Lemma path_ltb_siblings dir a b :
  Path.ltb (dir ++ [a]) (dir ++ [b]) = String.ltb a b.
Proof. unfold Path.ltb, String.ltb. now rewrite path_compare_siblings. Qed.

Lemma sorted_siblings dir names :
  py_sorted Path.ltb (map (fun n => dir ++ [n]) names)
  = map (fun n => dir ++ [n]) (py_sorted String.ltb names).
Proof. apply py_sorted_map. intros a b. apply path_ltb_siblings. Qed.

Lemma sorted_names_ascending names :
  StronglySorted (fun a b => String.leb a b = true)
    (py_sorted String.ltb names).
Proof.
  assert (S := py_sorted_sorted String.ltb string_ltb_asym string_le_trans names).
  induction S as [|x l S IH F]; constructor; [exact IH|].
  apply Forall_forall. intros y Hy. apply string_ltb_false_leb.
  now apply (proj1 (Forall_forall _ _) F).
Qed.

End OrderFacts.

(* ================================================================= *)
(** ** build_outputs_zip *)

Section BuildOutputsZip.
Import FS FSFacts OrderFacts.

Lemma name_child dir n : Path.name (dir ++ [n]) = n.
Proof. unfold Path.name. apply last_last. Qed.

Lemma is_file_read fs p :
  is_file fs p = true <-> exists d, read fs p = Ok d.
Proof.
  unfold is_file, read. destruct (lookup fs p) as [[x|es|]|]; split;
    try discriminate; try (intros [d H]; discriminate); eauto.
Qed.

Section PackagingFacts.
Variable archive_bytes : bool -> archive -> string.

Lemma write_text_over_file fs p content :
  p <> [] -> valid_path p = true -> is_file fs p = true ->
  exists fs2, write_text fs p content = Ok fs2.
Proof.
  intros Hp V F. apply write_text_openable. unfold openable.
  rewrite (valid_path_no_nul p V). cbn [negb andb].
  unfold is_file in F. revert fs Hp V F.
  induction p as [|c q IH]; intros fs Hp V F; [now contradiction Hp|].
  destruct (valid_path_cons _ _ V) as [_ [Hc Vq]].
  cbn [lookup] in F. destruct fs as [x|es|]; try discriminate.
  cbn [openable_at]. rewrite Hc. cbn [negb andb].
  destruct (assoc c es) as [n|]; [|discriminate].
  destruct q as [|d q].
  - cbn [lookup] in F. destruct n; try discriminate. reflexivity.
  - apply (IH n); [discriminate | exact Vq | exact F].
Qed.

(** The loop appends one entry for every regular file among the paths,
    in their order, under the file's own name; it changes the archive
    file and nothing else.  The data of an entry is what the file held,
    except for the archive file itself, should it be among the paths. *)
Lemma zip_loop_appends zip_file files : forall fs zf,
  zip_file <> [] ->
  valid_path zip_file = true ->
  is_file fs zip_file = true ->
  exists fs1 added,
    zip_loop archive_bytes fs zip_file files zf = Ok (fs1, zf ++ added)
    /\ map fst added = map Path.name (filter (is_file fs) files)
    /\ is_file fs1 zip_file = true
    /\ (forall q, q <> zip_file -> read fs1 q = read fs q)
    /\ (forall n d, In (n, d) added ->
          exists p, In p files /\ Path.name p = n
                    /\ (p <> zip_file -> read fs p = Ok d))
    /\ (forall p d, In p files -> p <> zip_file -> read fs p = Ok d ->
          In (Path.name p, d) added).
Proof.
  induction files as [|p files IH]; intros fs zf Hz V Z; cbn [zip_loop].
  - exists fs, []. rewrite app_nil_r. repeat split; try assumption.
    + intros n d [].
    + intros p d [].
  - destruct (is_file fs p) eqn:F.
    + destruct (proj1 (is_file_read fs p) F) as [d0 R]. rewrite R. cbn [bind].
      destruct (write_text_over_file fs zip_file
                  (archive_bytes false (zf ++ [(Path.name p, d0)])) Hz V Z)
        as [fs' W].
      rewrite W. cbn [bind].
      assert (Z' : is_file fs' zip_file = true).
      { rewrite is_file_of_read. now rewrite (write_text_read _ _ _ _ W). }
      assert (E : forall q, q <> zip_file -> read fs' q = read fs q)
        by exact (write_text_elsewhere _ _ _ _ W).
      assert (EF : forall q, is_file fs' q = is_file fs q).
      { intros q. destruct (list_eq_dec string_dec q zip_file) as [->|Hne];
          [congruence|].
        rewrite !is_file_of_read. now rewrite (E q Hne). }
      destruct (IH fs' (zf ++ [(Path.name p, d0)]) Hz V Z')
        as [fs1 [added [L [N [Z1 [E1 [I1 I2]]]]]]].
      exists fs1, ((Path.name p, d0) :: added). rewrite L, <- app_assoc.
      split; [reflexivity|]. split.
      { cbn [filter]. rewrite F. cbn [map fst]. rewrite N.
        f_equal. f_equal. apply filter_ext. exact EF. }
      split; [exact Z1|]. split.
      { intros q Hq. now rewrite (E1 q Hq), (E q Hq). }
      split.
      * intros n d [[= <- <-] | H].
        -- exists p. split; [now left|]. split; [reflexivity|]. now intros _.
        -- destruct (I1 n d H) as [q [Hq [Hn Hr]]]. exists q.
           split; [now right|]. split; [exact Hn|].
           intros Hne. rewrite <- (E q Hne). now apply Hr.
      * intros q d [<- | Hq] Hne Hr.
        -- left. rewrite R in Hr. now injection Hr as <-.
        -- right. apply I2; [exact Hq | exact Hne |]. now rewrite (E q Hne).
    + destruct (IH fs zf Hz V Z) as [fs1 [added [L [N [Z1 [E1 [I1 I2]]]]]]].
      exists fs1, added. split; [exact L|]. split.
      { cbn [filter]. now rewrite F. }
      split; [exact Z1|]. split; [exact E1|]. split.
      * intros n d H. destruct (I1 n d H) as [q [Hq H']]. exists q.
        split; [now right | exact H'].
      * intros q d [<- | Hq] Hne Hr.
        -- assert (F' : is_file fs p = true) by (apply is_file_read; eauto).
           congruence.
        -- now apply I2.
Qed.

(** The names of the directories do not change in the loop. *)
Lemma zip_loop_same_names zip_file files : forall fs zf fs1 zf1,
  is_file fs zip_file = true ->
  zip_loop archive_bytes fs zip_file files zf = Ok (fs1, zf1) ->
  forall q es1, lookup fs1 q = Some (Dir es1) ->
    exists es, lookup fs q = Some (Dir es) /\ map fst es = map fst es1.
Proof.
  induction files as [|p files IH]; intros fs zf fs1 zf1 Z; cbn [zip_loop].
  - intros [= <- <-] q es1 H. now exists es1.
  - destruct (is_file fs p); [|now apply IH].
    destruct (read fs p) as [d0|e]; [|discriminate]. cbn [bind].
    destruct (write_text fs zip_file _) as [fs'|e] eqn:W; [|discriminate].
    cbn [bind]. intros L q es1 H.
    assert (Z' : is_file fs' zip_file = true).
    { rewrite is_file_of_read. now rewrite (write_text_read _ _ _ _ W). }
    destruct (IH fs' _ fs1 zf1 Z' L q es1 H) as [es' [H' N']].
    destruct (write_at_same_names _ _ _ _ (write_text_ok _ _ _ _ W) Z q es' H')
      as [es [H0 N0]].
    exists es. split; [exact H0 | congruence].
Qed.

Lemma filter_siblings (f : Path.t -> bool) dir names :
  map Path.name (filter f (map (fun n => dir ++ [n]) names))
  = filter (fun n => f (dir ++ [n])) names.
Proof.
  induction names as [|n names IH]; simpl; [reflexivity|].
  destruct (f (dir ++ [n])); simpl; [now rewrite name_child, IH | exact IH].
Qed.

Lemma glob_star_siblings fs dir es :
  lookup fs dir = Some (Dir es) ->
  glob_star fs dir = map (fun n => dir ++ [n]) (map fst es).
Proof. unfold glob_star. intros ->. now rewrite map_map. Qed.

Lemma mkdir_parents_is_dir fs p fs1 :
  mkdir_parents fs p = Ok fs1 -> is_dir fs1 p = true.
Proof.
  intros M. destruct (mkdir_parents_result _ _ _ M) as [[H ->] | [_ H]];
    [exact H | unfold is_dir; now rewrite H].
Qed.

(** Packaging, once the directory is there and the archive is open. *)
Lemma build_outputs_zip_opened fs fs1 fs2 output_dir zip_path :
  mkdir_parents fs output_dir = Ok fs1 ->
  write_text fs1 zip_path EmptyString = Ok fs2 ->
  exists fs' zf,
    build_outputs_zip archive_bytes fs output_dir zip_path
    = Ok (fs', zip_path, zf)
    /\ is_dir fs' output_dir = true
    /\ read fs' zip_path = Ok (archive_bytes true zf)
    /\ (forall q, q <> zip_path -> read fs' q = read fs1 q)
    /\ (forall n, In n (map fst zf) <-> is_file fs' (output_dir ++ [n]) = true)
    /\ (forall n d, output_dir ++ [n] <> zip_path ->
          (In (n, d) zf <-> read fs' (output_dir ++ [n]) = Ok d))
    /\ StronglySorted (fun a b => String.leb a b = true) (map fst zf)
    /\ (distinct_names fs' output_dir -> NoDup (map fst zf)).
Proof.
  intros M O. assert (D := mkdir_parents_is_dir _ _ _ M).
  unfold build_outputs_zip, ensure_directory. rewrite M. cbn [bind fst snd].
  rewrite O. cbn [bind].
  assert (V := write_text_valid_path _ _ _ _ O).
  assert (Hz : zip_path <> []).
  { intros ->. unfold write_text in O. cbn in O. discriminate. }
  assert (Z : is_file fs2 zip_path = true).
  { rewrite is_file_of_read. now rewrite (write_text_read _ _ _ _ O). }
  assert (D2 : is_dir fs2 output_dir = true)
    by now rewrite (write_text_same_dirs _ _ _ _ O).
  unfold is_dir in D2.
  destruct (lookup fs2 output_dir) as [[x|es|]|] eqn:L; try discriminate.
  rewrite (glob_star_siblings fs2 output_dir es L), sorted_siblings.
  set (names := py_sorted String.ltb (map fst es)).
  destruct (zip_loop_appends zip_path (map (fun n => output_dir ++ [n]) names)
              fs2 [] Hz V Z)
    as [fs3 [zf [ZL [N [Z3 [E3 [I1 I2]]]]]]].
  cbn [app] in ZL. rewrite ZL. cbn [bind fst snd].
  destruct (write_text_over_file fs3 zip_path (archive_bytes true zf) Hz V Z3)
    as [fs' C].
  rewrite C. cbn [bind]. exists fs', zf.
  rewrite filter_siblings in N.
  assert (E : forall q, q <> zip_path -> read fs' q = read fs2 q).
  { intros q Hq. now rewrite (write_text_elsewhere _ _ _ _ C q Hq), (E3 q Hq). }
  assert (EF : forall q, is_file fs' q = is_file fs2 q).
  { intros q. destruct (list_eq_dec string_dec q zip_path) as [->|Hne].
    - rewrite Z, is_file_of_read. now rewrite (write_text_read _ _ _ _ C).
    - rewrite !is_file_of_read. now rewrite (E q Hne). }
  assert (Hnames : forall n, is_file fs2 (output_dir ++ [n]) = true ->
                             In n names).
  { intros n F. apply py_sorted_in. apply assoc_some_iff.
    unfold is_file in F. rewrite lookup_child, L in F.
    destruct (assoc n es) as [k|]; [now exists k | discriminate]. }
  assert (Hne : output_dir <> zip_path).
  { intros ->. unfold is_file in Z. rewrite L in Z. discriminate. }
  assert (D' : is_dir fs' output_dir = true).
  { rewrite (write_text_same_dirs _ _ _ _ C), is_dir_of_read, (E3 _ Hne).
    unfold read. now rewrite L. }
  split; [reflexivity|]. split; [exact D'|].
  split; [exact (write_text_read _ _ _ _ C)|]. split.
  { intros q Hq. now rewrite (E q Hq), (write_text_elsewhere _ _ _ _ O q Hq). }
  split.
  { intros n. rewrite N, EF. rewrite filter_In. split; [now intros [_ H]|].
    intros F. split; [now apply Hnames | exact F]. }
  split.
  { intros n d Hn0. rewrite (E _ Hn0). split.
    - intros H. destruct (I1 n d H) as [p [Hp [Hn Hr]]].
      apply in_map_iff in Hp. destruct Hp as [m [<- _]].
      rewrite name_child in Hn. subst m. now apply Hr.
    - intros R. rewrite <- (name_child output_dir n).
      apply I2; [|exact Hn0 | exact R].
      apply (in_map (fun m => output_dir ++ [m])). apply Hnames.
      apply is_file_read. eauto. }
  split.
  { rewrite N. apply StronglySorted_filter, sorted_names_ascending. }
  intros Hd. rewrite N. apply NoDup_filter.
  apply (Permutation_NoDup (l := map fst es)).
  - symmetry. apply py_sorted_perm.
  - unfold is_dir in D'.
    destruct (lookup fs' output_dir) as [[x|es'|]|] eqn:L'; try discriminate.
    destruct (write_at_same_names _ _ _ _ (write_text_ok _ _ _ _ C) Z3
                output_dir es' L') as [es3 [L3 N3]].
    destruct (zip_loop_same_names _ _ _ _ _ _ Z ZL output_dir es3 L3)
      as [es0 [L0 N0]].
    rewrite L in L0. injection L0 as <-.
    rewrite N0, N3. exact (Hd es' L').
Qed.

(** What stops the call before anything is packed. *)
Lemma build_outputs_zip_needs_archive fs fs1 output_dir zip_path :
  mkdir_parents fs output_dir = Ok fs1 ->
  openable fs1 zip_path = false ->
  exists e, build_outputs_zip archive_bytes fs output_dir zip_path = Err e.
Proof.
  intros M O. unfold build_outputs_zip, ensure_directory. rewrite M.
  cbn [bind fst snd].
  destruct (write_text fs1 zip_path EmptyString) as [fs2|e] eqn:W.
  - assert (H : openable fs1 zip_path = true)
      by (apply (write_text_openable fs1 zip_path EmptyString); eauto).
    congruence.
  - cbn [bind]. now exists e.
Qed.

End PackagingFacts.

End BuildOutputsZip.

(** C7. For every output directory that exists or can be made and every
    archive path at which a file can then be opened for writing,
    packaging returns an archive whose entries are exactly the regular
    files directly inside that directory, each under the file's own
    name, in ascending order of name and (names in a directory being
    distinct) each once.  The archive file is created before the
    directory is listed: placed inside the directory it is one of its
    regular files and is listed as well; placed elsewhere, as the
    application places it, the entries are the files the directory held,
    each with its data.  Nothing but the archive file changes.  A
    directory holding [x.md] and [a.json], enumerated in either order,
    gives the two entries [a.json], [x.md]. *)
Theorem build_outputs_zip_entries :
  (forall (archive_bytes : bool -> archive -> string)
          (fs fs1 : node) (output_dir zip_path : Path.t),
      ensure_directory fs output_dir = Ok (fs1, output_dir) ->
      FS.openable fs1 zip_path = true ->
      exists fs' zf,
        build_outputs_zip archive_bytes fs output_dir zip_path
        = Ok (fs', zip_path, zf)
        /\ FS.is_dir fs' output_dir = true
        /\ (FS.is_dir fs output_dir = true -> fs1 = fs)
        /\ FS.read fs' zip_path = Ok (archive_bytes true zf)
        /\ (forall q, q <> zip_path -> FS.read fs' q = FS.read fs1 q)
        /\ (forall n,
              In n (map fst zf) <-> FS.is_file fs' (output_dir ++ [n]) = true)
        /\ ((forall n, output_dir ++ [n] <> zip_path) ->
            forall n d,
              In (n, d) zf <-> FS.read fs1 (output_dir ++ [n]) = Ok d)
        /\ StronglySorted (fun a b => String.leb a b = true) (map fst zf)
        /\ (FS.distinct_names fs' output_dir -> NoDup (map fst zf)))
  /\ (forall (archive_bytes : bool -> archive -> string) (x a : string),
        build_outputs_zip archive_bytes
          (Dir [("outputs", Dir [("x.md", File x); ("a.json", File a)])])
          ["outputs"] ["outputs.zip"]
        = Ok (Dir [("outputs", Dir [("x.md", File x); ("a.json", File a)]);
                   ("outputs.zip",
                    File (archive_bytes true [("a.json", a); ("x.md", x)]))],
              ["outputs.zip"], [("a.json", a); ("x.md", x)])
        /\ build_outputs_zip archive_bytes
             (Dir [("outputs", Dir [("a.json", File a); ("x.md", File x)])])
             ["outputs"] ["outputs.zip"]
           = Ok (Dir [("outputs", Dir [("a.json", File a); ("x.md", File x)]);
                      ("outputs.zip",
                       File (archive_bytes true [("a.json", a); ("x.md", x)]))],
                 ["outputs.zip"], [("a.json", a); ("x.md", x)])).
Proof.
  split.
  - intros archive_bytes fs fs1 output_dir zip_path Hm Ho.
    unfold ensure_directory in Hm.
    destruct (FS.mkdir_parents fs output_dir) as [fs1'|e] eqn:M;
      [|discriminate].
    cbn [bind] in Hm. injection Hm as ->.
    destruct (proj1 (FSFacts.write_text_openable fs1 zip_path EmptyString) Ho)
      as [fs2 O].
    destruct (build_outputs_zip_opened archive_bytes fs fs1 fs2 output_dir
                zip_path M O)
      as [fs' [zf [B [D [R [E [Nm [I [S N]]]]]]]]].
    exists fs', zf.
    split; [exact B|]. split; [exact D|]. split.
    { intros Hd. rewrite (FSFacts.mkdir_parents_existing fs output_dir Hd) in M.
      now injection M. }
    split; [exact R|]. split; [exact E|]. split; [exact Nm|]. split.
    { intros Hout n d. rewrite <- (E _ (Hout n)). apply I, Hout. }
    split; [exact S | exact N].
  - intros archive_bytes x a. split; reflexivity.
Qed.

(* ================================================================= *)
(** ** discover_receipts *)

Section Discover.
Import FS FSFacts OrderFacts.

Lemma iterdir_glob_star fs p :
  is_dir fs p = true -> iterdir fs p = Ok (glob_star fs p).
Proof.
  unfold is_dir, iterdir, glob_star.
  destruct (lookup fs p) as [[x|es|]|]; try discriminate; reflexivity.
Qed.

Lemma discover_loop_cons fs entry rest receipts :
  discover_loop fs (entry :: rest) receipts
  = if is_dir fs entry then
      listing <- iterdir fs entry ;;
      match collect_pages fs listing with
      | [] => discover_loop fs rest receipts
      | _ :: _ =>
          discover_loop fs rest
            (receipts ++ [{| name := Path.name entry;
                             pages := collect_pages fs listing |}])
      end
    else discover_loop fs rest receipts.
Proof. reflexivity. Qed.

Lemma discover_loop_contributions fs entries : forall receipts,
  discover_loop fs entries receipts
  = Ok (receipts ++ flat_map (contribution fs) entries).
Proof.
  induction entries as [|entry rest IH]; intros receipts.
  - simpl. now rewrite app_nil_r.
  - rewrite discover_loop_cons. cbn [flat_map].
    unfold contribution at 1. destruct (is_dir fs entry) eqn:D.
    + rewrite (iterdir_glob_star fs entry D). cbn [bind].
      destruct (collect_pages fs (glob_star fs entry)) as [|p ps].
      * apply IH.
      * rewrite IH, <- app_assoc. reflexivity.
    + apply IH.
Qed.

Lemma discover_receipts_unfold fs root es :
  lookup fs root = Some (Dir es) ->
  discover_receipts fs root
  = Ok (flat_map (contribution fs)
          (map (fun n => root ++ [n]) (py_sorted String.ltb (map fst es)))).
Proof.
  intros L. unfold discover_receipts, iterdir. rewrite L. cbn [bind].
  rewrite discover_loop_contributions. simpl.
  now rewrite <- sorted_siblings, map_map.
Qed.

Lemma contribution_group fs entry g :
  In g (contribution fs entry) ->
  is_dir fs entry = true
  /\ name g = Path.name entry
  /\ pages g = collect_pages fs (glob_star fs entry)
  /\ pages g <> [].
Proof.
  unfold contribution. destruct (is_dir fs entry); [|intros []].
  destruct (collect_pages fs (glob_star fs entry)) as [|p ps] eqn:C;
    [intros []|].
  intros [<- | []]. simpl. repeat split; congruence.
Qed.

Lemma contribution_made fs entry :
  is_dir fs entry = true ->
  collect_pages fs (glob_star fs entry) <> [] ->
  In {| name := Path.name entry;
        pages := collect_pages fs (glob_star fs entry) |}
     (contribution fs entry).
Proof.
  unfold contribution. intros -> H.
  destruct (collect_pages fs (glob_star fs entry)); [congruence | now left].
Qed.

Lemma collect_pages_in fs listing p :
  In p (collect_pages fs listing) <-> In p listing /\ qualifies fs p = true.
Proof.
  unfold collect_pages, py_sorted_key.
  rewrite filter_In, py_sorted_in. reflexivity.
Qed.

Lemma in_glob_star fs dir f :
  In (dir ++ [f]) (glob_star fs dir)
  <-> is_dir fs dir = true /\ exists n, lookup fs (dir ++ [f]) = Some n.
Proof.
  unfold glob_star, is_dir. rewrite lookup_child.
  destruct (lookup fs dir) as [[x|es|]|].
  1,3,4: split; [intros [] | intros [? _]; discriminate].
  rewrite assoc_some_iff, in_map_iff. split.
  - intros [[k n] [E H]]. apply app_inv_head in E. injection E as <-.
    split; [reflexivity|]. apply in_map_iff. now exists (k, n).
  - intros [_ H]. apply in_map_iff in H. destruct H as [[k n] [<- H]].
    now exists (k, n).
Qed.

Lemma glob_star_children fs dir p :
  In p (glob_star fs dir) -> exists f, p = dir ++ [f].
Proof.
  unfold glob_star. destruct (lookup fs dir) as [[x|es|]|]; try intros [].
  intros H. apply in_map_iff in H. destruct H as [e [<- _]]. now eexists.
Qed.

(** The names of the groups: the sorted names of the root's entries,
    those kept that are directories with at least one page. *)
Lemma contribution_names fs root names :
  map name (flat_map (contribution fs) (map (fun n => root ++ [n]) names))
  = filter (fun n => is_dir fs (root ++ [n])
                     && negb (Nat.eqb (List.length
                          (collect_pages fs (glob_star fs (root ++ [n])))) 0))
           names.
Proof.
  induction names as [|n names IH]; simpl; [reflexivity|].
  rewrite map_app, IH. unfold contribution at 1.
  destruct (is_dir fs (root ++ [n])); simpl; [|reflexivity].
  destruct (collect_pages fs (glob_star fs (root ++ [n]))); simpl;
    [reflexivity|].
  now rewrite name_child.
Qed.

Lemma is_dir_child_parent fs dir d :
  is_dir fs (dir ++ [d]) = true ->
  exists es, lookup fs dir = Some (Dir es) /\ In d (map fst es).
Proof.
  unfold is_dir. rewrite lookup_child.
  destruct (lookup fs dir) as [[x|es|]|]; try discriminate.
  intros H. exists es. split; [reflexivity|]. apply assoc_some_iff.
  destruct (assoc d es) as [n|]; [now exists n | discriminate].
Qed.

(** A file is listed as a page exactly when it qualifies. *)
Lemma included_iff_qualifies fs root d f :
  is_dir fs (root ++ [d]) = true ->
  is_file fs (root ++ [d; f]) = true ->
  (included_as_page fs root d f <-> qualifies fs (root ++ [d; f]) = true).
Proof.
  intros Hd Hf.
  destruct (is_dir_child_parent fs root d Hd) as [es [L Hin]].
  assert (P : root ++ [d; f] = (root ++ [d]) ++ [f])
    by (now rewrite <- app_assoc).
  unfold included_as_page. rewrite (discover_receipts_unfold fs root es L).
  split.
  - intros [groups [g [[= <-] [Hg [Hn Hp]]]]].
    apply in_flat_map in Hg. destruct Hg as [entry [_ Hg]].
    apply contribution_group in Hg. destruct Hg as [_ [_ [Pg _]]].
    rewrite Pg in Hp. now apply collect_pages_in in Hp.
  - intros Q. eexists.
    exists {| name := Path.name (root ++ [d]);
              pages := collect_pages fs (glob_star fs (root ++ [d])) |}.
    split; [reflexivity|].
    assert (I : In (root ++ [d; f]) (collect_pages fs (glob_star fs (root ++ [d])))).
    { apply collect_pages_in. split; [|exact Q]. rewrite P.
      apply in_glob_star. split; [exact Hd|]. rewrite <- P.
      unfold is_file in Hf. destruct (lookup fs (root ++ [d; f])); [eauto | discriminate]. }
    split; [|split; [|exact I]].
    + apply in_flat_map. exists (root ++ [d]). split.
      * apply (in_map (fun n => root ++ [n])). now apply py_sorted_in.
      * apply contribution_made; [exact Hd|]. intros E. now rewrite E in I.
    + simpl. apply name_child.
Qed.

End Discover.

Lemma in_png_extensions x :
  in_set x PNG_EXTENSIONS = true <-> x = ".png" \/ x = ".PNG".
Proof.
  unfold in_set, PNG_EXTENSIONS. simpl. rewrite orb_false_r, orb_true_iff.
  now rewrite !String.eqb_eq.
Qed.

Lemma suffix_grandchild root d f : Path.suffix (root ++ [d; f]) = Path.suffix_of f.
Proof.
  unfold Path.suffix. f_equal.
  replace (root ++ [d; f]) with ((root ++ [d]) ++ [f]) by (now rewrite <- app_assoc).
  apply name_child.
Qed.

Lemma strictly_ascending names :
  StronglySorted (fun a b => String.leb a b = true) names ->
  NoDup names ->
  StronglySorted (fun a b => String.ltb a b = true) names.
Proof.
  induction 1 as [|x l S IH F]; intros N; constructor.
  - apply IH. now inversion N.
  - apply Forall_forall. intros y Hy.
    apply OrderFacts.string_ltb_total.
    + intros ->. now inversion N.
    + apply OrderFacts.string_ltb_false_leb.
      now apply (proj1 (Forall_forall _ _) F).
Qed.

(** C3, as the code has it. A regular file [f] in an immediate
    subdirectory [d] of the root is listed as a page of the group [d] if
    and only if its suffix is exactly [.png] or exactly [.PNG]. *)
Theorem discover_receipts_page_iff_png_suffix :
  forall (fs : node) (root_dir : Path.t) (d f : string),
    FS.is_dir fs (root_dir ++ [d]) = true ->
    FS.is_file fs (root_dir ++ [d; f]) = true ->
    (included_as_page fs root_dir d f
     <-> Path.suffix_of f = ".png" \/ Path.suffix_of f = ".PNG").
Proof.
  intros fs root_dir d f Hd Hf.
  rewrite (included_iff_qualifies fs root_dir d f Hd Hf).
  unfold qualifies. rewrite Hf, suffix_grandchild. simpl.
  apply in_png_extensions.
Qed.

(** C4. For every root directory, discovery returns; every group has at
    least one page; the groups are the subdirectories that hold at least
    one qualifying file, subdirectories without one being left out; and
    the group names ascend in the code-point order of strings, strictly
    and without repetition since the names in the root are distinct. *)
Theorem discover_receipts_groups :
  forall (fs : node) (root_dir : Path.t),
    FS.is_dir fs root_dir = true ->
    exists groups,
      discover_receipts fs root_dir = Ok groups
      /\ (forall g, In g groups -> pages g <> [] /\ 0 < page_count g)
      /\ (forall d, In d (map name groups) <->
                    FS.is_dir fs (root_dir ++ [d]) = true
                    /\ exists f, qualifies fs (root_dir ++ [d; f]) = true)
      /\ StronglySorted (fun a b => String.leb a b = true) (map name groups)
      /\ (FS.distinct_names fs root_dir ->
          NoDup (map name groups)
          /\ StronglySorted (fun a b => String.ltb a b = true)
               (map name groups)).
Proof.
  intros fs root_dir Hr. unfold FS.is_dir in Hr.
  destruct (FS.lookup fs root_dir) as [[x|es|]|] eqn:L; try discriminate.
  rewrite (discover_receipts_unfold fs root_dir es L).
  eexists. split; [reflexivity|].
  assert (S : StronglySorted (fun a b => String.leb a b = true)
                (map name (flat_map (contribution fs)
                   (map (fun n => root_dir ++ [n])
                      (py_sorted String.ltb (map fst es)))))).
  { rewrite contribution_names.
    apply StronglySorted_filter, OrderFacts.sorted_names_ascending. }
  split; [|split; [|split; [exact S|]]].
  - intros g Hg. apply in_flat_map in Hg. destruct Hg as [entry [_ Hg]].
    apply contribution_group in Hg. destruct Hg as [_ [_ [_ Hp]]].
    split; [exact Hp|]. unfold page_count.
    destruct (pages g); [congruence | simpl; lia].
  - intros d. rewrite contribution_names, filter_In, py_sorted_in, andb_true_iff.
    split.
    + intros [_ [Hd Hn]]. split; [exact Hd|].
      destruct (collect_pages fs (FS.glob_star fs (root_dir ++ [d])))
        as [|p ps] eqn:C; [discriminate|].
      assert (Hp : In p (collect_pages fs (FS.glob_star fs (root_dir ++ [d]))))
        by (rewrite C; now left).
      apply collect_pages_in in Hp. destruct Hp as [Hg Hq].
      destruct (glob_star_children _ _ _ Hg) as [f ->].
      exists f. now rewrite <- app_assoc in Hq.
    + intros [Hd [f Hq]].
      destruct (is_dir_child_parent fs root_dir d Hd) as [es' [L' Hin]].
      rewrite L in L'. injection L' as <-.
      split; [exact Hin|]. split; [exact Hd|].
      assert (Hp : In ((root_dir ++ [d]) ++ [f])
                      (collect_pages fs (FS.glob_star fs (root_dir ++ [d])))).
      { apply collect_pages_in. rewrite <- app_assoc. split; [|exact Hq].
        replace (root_dir ++ [d] ++ [f]) with ((root_dir ++ [d]) ++ [f])
          by (now rewrite <- app_assoc).
        apply in_glob_star. split; [exact Hd|].
        rewrite <- app_assoc. unfold qualifies, FS.is_file in Hq. simpl.
        destruct (FS.lookup fs (root_dir ++ [d; f])); [eauto | discriminate]. }
      destruct (collect_pages fs (FS.glob_star fs (root_dir ++ [d])));
        [destruct Hp | reflexivity].
  - intros Hd.
    assert (N : NoDup (map name (flat_map (contribution fs)
                   (map (fun n => root_dir ++ [n])
                      (py_sorted String.ltb (map fst es)))))).
    { rewrite contribution_names. apply NoDup_filter.
      apply (Permutation_NoDup (l := map fst es)).
      - symmetry. apply py_sorted_perm.
      - now apply Hd. }
    split; [exact N | now apply strictly_ascending].
Qed.

(* ================================================================= *)
(** ** _page_sort_key *)

Section PageSortKey.

(** *** Digit runs *)

Lemma take_digits_split s :
  exists rest, s = (take_digits s ++ rest)%string
               /\ (forall c r, rest = String c r -> isdigit c = false).
Proof.
  induction s as [|c s [rest [E H]]]; simpl.
  - exists EmptyString. split; [reflexivity | discriminate].
  - destruct (isdigit c) eqn:D.
    + exists rest. simpl. split; [now rewrite <- E | exact H].
    + exists (String c s). split; [reflexivity|].
      intros c' r [= <- _]. exact D.
Qed.

Lemma take_digits_all s : all_chars isdigit (take_digits s) = true.
Proof.
  unfold all_chars. induction s as [|c s IH]; simpl; [reflexivity|].
  destruct (isdigit c) eqn:D; simpl; [now rewrite D | reflexivity].
Qed.

Lemma take_digits_run s :
  take_digits s <> EmptyString -> digit_run (take_digits s).
Proof. intros H. split; [exact H | apply take_digits_all]. Qed.

(** A greedy [\d+] takes at least every digit prefix. *)
Lemma take_digits_longest ds rest :
  all_chars isdigit ds = true ->
  String.length ds <= String.length (take_digits (ds ++ rest)).
Proof.
  unfold all_chars. induction ds as [|c ds IH]; simpl; intros H; [lia|].
  apply andb_true_iff in H. destruct H as [D H]. rewrite D. simpl.
  specialize (IH H). lia.
Qed.

Lemma digit_run_head ds :
  digit_run ds -> exists c r, ds = String c r /\ isdigit c = true.
Proof.
  intros [Hn Ha]. destruct ds as [|c r]; [congruence|].
  exists c, r. split; [reflexivity|].
  unfold all_chars in Ha. simpl in Ha. now apply andb_true_iff in Ha.
Qed.

Lemma is_page_sep_not_digit c : is_page_sep c = true -> isdigit c = false.
Proof.
  unfold is_page_sep. intros H. apply orb_true_iff in H.
  destruct H as [H | H]; apply Ascii.eqb_eq in H; now subst.
Qed.

Lemma length_zero s : String.length s = 0 -> s = EmptyString.
Proof. destruct s; [reflexivity | discriminate]. Qed.

(** *** The pattern at the start of a string *)

Lemma page_keyword kw :
  lower_str kw = "page" ->
  exists c1 c2 c3 c4,
    kw = String c1 (String c2 (String c3 (String c4 EmptyString)))
    /\ lower c1 = "p"%char /\ lower c2 = "a"%char
    /\ lower c3 = "g"%char /\ lower c4 = "e"%char.
Proof.
  destruct kw as [|c1 [|c2 [|c3 [|c4 [|c5 kw]]]]]; simpl; try discriminate.
  intros [= H1 H2 H3 H4]. exists c1, c2, c3, c4. auto.
Qed.

Lemma match_page_here_unfold c1 c2 c3 c4 rest :
  lower c1 = "p"%char -> lower c2 = "a"%char ->
  lower c3 = "g"%char -> lower c4 = "e"%char ->
  match_page_here (String c1 (String c2 (String c3 (String c4 rest))))
  = match take_digits
            match rest with
            | String c r => if is_page_sep c then r else rest
            | EmptyString => rest
            end
    with
    | EmptyString =>
        match take_digits rest with
        | EmptyString => None
        | ds => Some ds
        end
    | ds => Some ds
    end.
Proof.
  intros H1 H2 H3 H4. unfold match_page_here. now rewrite H1, H2, H3, H4.
Qed.

(** A match at the start is found, and the digits found are at least
    as many. *)
Lemma match_page_here_complete s ds' :
  page_match s EmptyString ds' ->
  exists ds, match_page_here s = Some ds
             /\ String.length ds' <= String.length ds.
Proof.
  intros [kw sep rest E K S R]. simpl in E.
  destruct (page_keyword kw K) as [c1 [c2 [c3 [c4 [-> [H1 [H2 [H3 H4]]]]]]]].
  simpl in E. subst s. rewrite (match_page_here_unfold _ _ _ _ _ H1 H2 H3 H4).
  destruct (digit_run_head ds' R) as [d [r [-> Hd]]].
  assert (L := take_digits_longest (String d r) rest (proj2 R)).
  assert (T : take_digits (String d r ++ rest)
              = String d (take_digits (r ++ rest)))
    by (simpl; now rewrite Hd).
  rewrite T in L.
  assert (Hs : is_page_sep d = false).
  { destruct (is_page_sep d) eqn:Hs; [|reflexivity].
    apply is_page_sep_not_digit in Hs. congruence. }
  destruct S as [-> | [-> | ->]]; simpl; rewrite ?Hs; simpl; rewrite Hd;
    (eexists; split; [reflexivity | exact L]).
Qed.

Lemma match_page_here_sound s ds :
  match_page_here s = Some ds -> page_match s EmptyString ds.
Proof.
  unfold match_page_here.
  destruct s as [|c1 [|c2 [|c3 [|c4 rest]]]]; try discriminate.
  destruct (Ascii.eqb_spec (lower c1) "p") as [H1|]; [|discriminate].
  destruct (Ascii.eqb_spec (lower c2) "a") as [H2|]; [|discriminate].
  destruct (Ascii.eqb_spec (lower c3) "g") as [H3|]; [|discriminate].
  destruct (Ascii.eqb_spec (lower c4) "e") as [H4|]; [|discriminate].
  cbn [andb].
  assert (K : lower_str (String c1 (String c2 (String c3 (String c4 EmptyString))))
              = "page") by (simpl; now rewrite H1, H2, H3, H4).
  assert (Plain : forall ds0, take_digits rest = ds0 -> ds0 <> EmptyString ->
            page_match (String c1 (String c2 (String c3 (String c4 rest))))
              EmptyString ds0).
  { intros ds0 T N. destruct (take_digits_split rest) as [tl [E _]].
    rewrite T in E.
    apply (PageMatch _ _ _
             (String c1 (String c2 (String c3 (String c4 EmptyString))))
             EmptyString tl); auto.
    - simpl. now rewrite <- E.
    - rewrite <- T. apply take_digits_run. now rewrite T. }
  destruct rest as [|c r].
  - simpl. discriminate.
  - destruct (is_page_sep c) eqn:Hs.
    + destruct (take_digits r) as [|x xs] eqn:T.
      * destruct (take_digits (String c r)) as [|y ys] eqn:T';
          [discriminate|].
        intros [= <-]. apply Plain; [reflexivity | discriminate].
      * intros [= <-]. destruct (take_digits_split r) as [tl [E _]].
        rewrite T in E.
        apply (PageMatch _ _ _
                 (String c1 (String c2 (String c3 (String c4 EmptyString))))
                 (String c EmptyString) tl).
        -- rewrite E at 1. reflexivity.
        -- exact K.
        -- unfold is_page_sep in Hs. apply orb_true_iff in Hs.
           destruct Hs as [Hs | Hs]; apply Ascii.eqb_eq in Hs; subst; auto.
        -- rewrite <- T. apply take_digits_run. now rewrite T.
    + destruct (take_digits (String c r)) as [|y ys] eqn:T';
        [discriminate|].
      intros [= <-]. apply Plain; [reflexivity | discriminate].
Qed.

(** *** [re.search]: the first position wins *)

Lemma page_match_shift c s pre ds :
  page_match s pre ds -> page_match (String c s) (String c pre) ds.
Proof.
  intros [kw sep rest E K S R].
  apply (PageMatch _ _ _ kw sep rest); auto. simpl. now rewrite E.
Qed.

Lemma page_match_unshift c s c' pre ds :
  page_match (String c s) (String c' pre) ds -> page_match s pre ds.
Proof.
  intros [kw sep rest E K S R]. simpl in E. injection E as _ E.
  now apply (PageMatch _ _ _ kw sep rest).
Qed.

Lemma page_match_empty pre ds : ~ page_match EmptyString pre ds.
Proof.
  intros [kw sep rest E K S R].
  destruct (page_keyword kw K) as [c1 [c2 [c3 [c4 [-> _]]]]].
  destruct pre; discriminate.
Qed.

Lemma re_search_page_unfold s :
  re_search_page s
  = match match_page_here s with
    | Some ds => Some ds
    | None =>
        match s with
        | EmptyString => None
        | String _ r => re_search_page r
        end
    end.
Proof. destruct s; reflexivity. Qed.

Lemma re_search_page_none s :
  re_search_page s = None -> forall pre ds, ~ page_match s pre ds.
Proof.
  induction s as [|c s IH]; intros H pre ds M.
  - now apply (page_match_empty pre ds).
  - rewrite re_search_page_unfold in H.
    destruct (match_page_here (String c s)) as [x|] eqn:Here; [discriminate|].
    destruct pre as [|c' pre].
    + destruct (match_page_here_complete _ _ M) as [y [Hy _]]. congruence.
    + apply page_match_unshift in M. now apply (IH H pre ds).
Qed.

Lemma re_search_page_first s : forall ds,
  re_search_page s = Some ds ->
  exists pre,
    page_match s pre ds
    /\ (forall pre' ds', page_match s pre' ds' ->
          String.length pre <= String.length pre'
          /\ (String.length pre' = String.length pre ->
              String.length ds' <= String.length ds)).
Proof.
  induction s as [|c s IH]; intros ds H; rewrite re_search_page_unfold in H.
  - discriminate.
  - destruct (match_page_here (String c s)) as [x|] eqn:Here.
    + injection H as ->. exists EmptyString. split.
      * now apply match_page_here_sound.
      * intros pre' ds' M. split; [simpl; lia|]. intros L.
        apply length_zero in L. subst pre'.
        destruct (match_page_here_complete _ _ M) as [y [Hy Hl]]. congruence.
    + destruct (IH ds H) as [pre [M Hmin]]. exists (String c pre). split.
      * now apply page_match_shift.
      * intros pre' ds' M'. destruct pre' as [|c' pre'].
        -- destruct (match_page_here_complete _ _ M') as [y [Hy _]]. congruence.
        -- apply page_match_unshift in M'.
           destruct (Hmin pre' ds' M') as [L1 L2]. simpl. split; [lia|].
           intros L. apply L2. lia.
Qed.

(** *** [re.findall]: the last run *)

Lemma no_digit_cons c s :
  isdigit c = false -> no_digit s -> no_digit (String c s).
Proof. intros Hc Hs d [<- | Hd]; [exact Hc | now apply Hs]. Qed.

Lemma no_digit_at_end_cons c pre :
  (pre = EmptyString -> isdigit c = false) ->
  no_digit_at_end pre -> no_digit_at_end (String c pre).
Proof.
  intros Hc Hp r d E. destruct r as [|x r]; simpl in E.
  - injection E as -> ->. now apply Hc.
  - injection E as _ E. now apply (Hp r d).
Qed.

Lemma findall_from_none s : forall in_run,
  findall_from in_run s = [] ->
  exists rest, s = (take_digits s ++ rest)%string /\ no_digit rest
               /\ (in_run = false -> no_digit s).
Proof.
  induction s as [|c s IH]; intros in_run; simpl.
  - intros _. exists EmptyString.
    split; [reflexivity|]. split; [intros c [] | intros _ c []].
  - destruct (isdigit c) eqn:D.
    + destruct in_run; [|discriminate]. intros H.
      destruct (IH true H) as [rest [E [N _]]].
      exists rest. simpl. split; [now rewrite <- E|].
      split; [exact N | discriminate].
    + intros H. destruct (IH false H) as [rest [E [N F]]].
      exists (String c s). split; [reflexivity|].
      assert (Ns : no_digit (String c s)) by (apply no_digit_cons; auto).
      split; [exact Ns | intros _; exact Ns].
Qed.

Lemma findall_from_last s : forall in_run last others,
  rev (findall_from in_run s) = last :: others ->
  exists pre rest,
    s = (pre ++ last ++ rest)%string
    /\ digit_run last /\ no_digit_at_end pre /\ no_digit rest
    /\ (in_run = true -> pre <> EmptyString).
Proof.
  induction s as [|c s IH]; intros in_run last others; simpl.
  - discriminate.
  - destruct (isdigit c) eqn:D.
    + destruct in_run.
      * intros H. destruct (IH true last others H)
          as [pre [rest [E [R [P [N Hne]]]]]].
        exists (String c pre), rest. simpl. split; [now rewrite E|].
        split; [exact R|]. split; [|split; [exact N | discriminate]].
        apply no_digit_at_end_cons; [|exact P].
        intros Hp. now elim (Hne eq_refl).
      * simpl. destruct (rev (findall_from true s)) as [|l ls] eqn:Rv.
        -- simpl. intros [= <- <-].
           assert (Hnil : findall_from true s = []).
           { destruct (findall_from true s) as [|x xs]; [reflexivity|].
             simpl in Rv. destruct (rev xs); discriminate. }
           destruct (findall_from_none s true Hnil) as [rest [E [N _]]].
           exists EmptyString, rest. simpl. split; [now rewrite <- E|].
           split; [|split; [|split; [exact N | discriminate]]].
           ++ split; [discriminate|]. unfold all_chars. simpl. rewrite D.
              apply take_digits_all.
           ++ intros r d Er. destruct r; discriminate.
        -- simpl. intros [= <- <-].
           destruct (IH true l ls Rv) as [pre [rest [E [R [P [N Hne]]]]]].
           exists (String c pre), rest. simpl. split; [now rewrite E|].
           split; [exact R|]. split; [|split; [exact N | discriminate]].
           apply no_digit_at_end_cons; [|exact P].
           intros Hp. now elim (Hne eq_refl).
    + intros H. destruct (IH false last others H)
        as [pre [rest [E [R [P [N _]]]]]].
      exists (String c pre), rest. simpl. split; [now rewrite E|].
      split; [exact R|]. split; [|split; [exact N | discriminate]].
      apply no_digit_at_end_cons; [intros _; exact D | exact P].
Qed.

(** *** The key follows the specification *)

Lemma page_number_follows_spec (path : Path.t) :
  spec_page_number (Path.stem path) (fst (_page_sort_key path))
  /\ snd (_page_sort_key path) = Path.name path.
Proof.
  unfold _page_sort_key.
  destruct (re_search_page (Path.stem path)) as [ds|] eqn:S.
  - split; [|reflexivity]. simpl.
    destruct (re_search_page_first _ _ S) as [pre [M Hmin]].
    now apply (KeyPage _ pre ds).
  - assert (No := re_search_page_none _ S).
    destruct (rev (re_findall_digits (Path.stem path))) as [|last others] eqn:F.
    + split; [|reflexivity]. simpl. apply KeyNoDigits.
      unfold re_findall_digits in F.
      assert (Hnil : findall_from false (Path.stem path) = []).
      { destruct (findall_from false (Path.stem path)) as [|x xs]; [reflexivity|].
        simpl in F. destruct (rev xs); discriminate. }
      destruct (findall_from_none _ false Hnil) as [_ [_ [_ H]]]. now apply H.
    + split; [|reflexivity]. simpl.
      destruct (findall_from_last _ false last others F)
        as [pre [rest [E [R [P [N _]]]]]].
      now apply (KeyLastRun _ pre last rest).
Qed.

End PageSortKey.

Module KeyOrder.
Import OrderFacts.

Lemma num_eqb_refl x : num_eqb x x = true.
Proof. destruct x; simpl; [apply N.eqb_refl | reflexivity]. Qed.

Ltac compare_numbers :=
  repeat match goal with
         | H : context [N.eqb ?a ?b] |- _ => destruct (N.eqb_spec a b); subst
         | |- context [N.eqb ?a ?b] => destruct (N.eqb_spec a b); subst
         end;
  rewrite ?N.ltb_ge, ?N.ltb_lt in *.

Lemma key_ltb_asym a b : key_ltb a b = true -> key_ltb b a = false.
Proof.
  destruct a as [[n|] s], b as [[m|] t]; unfold key_ltb; simpl;
    try congruence; try apply string_ltb_asym.
  compare_numbers; try congruence; try lia.
  apply string_ltb_asym.
Qed.

Lemma key_le_trans a b c :
  key_ltb b a = false -> key_ltb c b = false -> key_ltb c a = false.
Proof.
  destruct a as [[n|] s], b as [[m|] t], c as [[k|] u];
    unfold key_ltb; simpl; try congruence; try apply string_le_trans.
  intros H1 H2. compare_numbers; try congruence; try lia.
  now apply (string_le_trans s t u).
Qed.

(** Pages come out of [sorted(..., key=_page_sort_key)] with their keys
    never descending. *)
Lemma sorted_by_key_ascending (listing : list Path.t) :
  StronglySorted
    (fun p q => key_ltb (_page_sort_key q) (_page_sort_key p) = false)
    (py_sorted_key _page_sort_key key_ltb listing).
Proof.
  unfold py_sorted_key.
  apply (py_sorted_sorted
           (fun a b => key_ltb (_page_sort_key a) (_page_sort_key b))).
  - intros a b. apply key_ltb_asym.
  - intros a b c. unfold not_after. apply key_le_trans.
Qed.

End KeyOrder.

(** C2. For every path the ordering key is the pair of a number and the
    file name, the number being the one the specification describes: the
    number after the first [page] pattern of the stem (any case, an
    optional [_] or [-], the digit run in full); failing that the number
    of the stem's last digit run; failing that infinity.  A key with
    infinity is greater than every key with a number, and keys with the
    same number compare as their file names; the pages of a group are in
    the order of their keys.  The folder with [a_page2.png],
    [a_page1.png], [a_page10.png], enumerated in any order, has the pages
    [a_page1.png], [a_page2.png], [a_page10.png]. *)
Theorem page_sort_key_orders_pages :
  (forall path : Path.t,
      spec_page_number (Path.stem path) (fst (_page_sort_key path))
      /\ snd (_page_sort_key path) = Path.name path)
  /\ (forall (n : N) (a b : string),
         key_ltb (Finite n, a) (Infinity, b) = true
         /\ key_ltb (Infinity, b) (Finite n, a) = false)
  /\ (forall (x : page_number) (a b : string),
         key_ltb (x, a) (x, b) = String.ltb a b)
  /\ (forall (fs : node) (listing : list Path.t),
         StronglySorted
           (fun p q => key_ltb (_page_sort_key q) (_page_sort_key p) = false)
           (collect_pages fs listing))
  /\ Forall
       (fun folder =>
          discover_receipts (Dir [("r", Dir folder)]) []
          = Ok [{| name := "r";
                   pages := [["r"; "a_page1.png"]; ["r"; "a_page2.png"];
                             ["r"; "a_page10.png"]] |}])
       [ [("a_page2.png", File "2"); ("a_page1.png", File "1"); ("a_page10.png", File "10")];
         [("a_page2.png", File "2"); ("a_page10.png", File "10"); ("a_page1.png", File "1")];
         [("a_page1.png", File "1"); ("a_page2.png", File "2"); ("a_page10.png", File "10")];
         [("a_page1.png", File "1"); ("a_page10.png", File "10"); ("a_page2.png", File "2")];
         [("a_page10.png", File "10"); ("a_page1.png", File "1"); ("a_page2.png", File "2")];
         [("a_page10.png", File "10"); ("a_page2.png", File "2"); ("a_page1.png", File "1")] ].
Proof.
  split; [exact page_number_follows_spec|].
  split; [intros n a b; split; reflexivity|].
  split; [intros x a b; unfold key_ltb; simpl; now rewrite KeyOrder.num_eqb_refl|].
  split.
  - intros fs listing. unfold collect_pages.
    apply StronglySorted_filter, KeyOrder.sorted_by_key_ascending.
  - repeat constructor.
Qed.

(* ================================================================= *)
(** ** _run_model *)

Section RunModel.
Variable Service : Type.
Variable respond : Service -> request -> result string * Service.
Variable json_loads : string -> json_outcome.
Variable b64encode : string -> string.

Lemma chat_sends m (llama : LlamaClient Service) prompt images :
  chat Service respond m llama prompt images
  = (fst (respond (service llama)
            {| mode := m; prompt := prompt; images := images |}),
     {| service := snd (respond (service llama)
                          {| mode := m; prompt := prompt; images := images |});
        sent := sent llama
                ++ [{| mode := m; prompt := prompt; images := images |}] |}).
Proof.
  unfold chat.
  now destruct (respond (service llama)
                  {| mode := m; prompt := prompt; images := images |}).
Qed.



End RunModel.


(* ================================================================= *)
(** ** safe_extract_zip *)

(** The members are all checked before [extractall] is called: one
    member that fails the check makes the call raise with nothing
    extracted. *)
Lemma safe_extract_zip_checks_before_extracting :
  forall (cwd : Path.t) (zf : list ZipInfo) (dest_dir : string) (member : ZipInfo),
    In member zf ->
    startswith (Path.str (entry_target cwd dest_dir member))
               (Path.str (dest_root cwd dest_dir)) = false ->
    (exists msg, safe_extract_zip cwd zf dest_dir = Err (ValueError msg))
    /\ extracted (safe_extract_zip cwd zf dest_dir) = [].
Proof.
  intros cwd zf dest_dir member Hin Hbad.
  assert (H : exists msg, check_members cwd dest_dir zf = Err (ValueError msg)).
  { induction zf as [|m zf IH]; [destruct Hin|]. simpl.
    fold (entry_target cwd dest_dir m). fold (dest_root cwd dest_dir).
    destruct (startswith (Path.str (entry_target cwd dest_dir m))
                (Path.str (dest_root cwd dest_dir))) eqn:E; simpl.
    - destruct Hin as [-> | Hin]; [congruence | now apply IH].
    - now eexists. }
  destruct H as [msg H]. unfold safe_extract_zip. rewrite H. simpl.
  split; [now exists msg | reflexivity].
Qed.

(** When every member passes the check, every member is extracted. *)
Lemma safe_extract_zip_extracts_all :
  forall (cwd : Path.t) (zf : list ZipInfo) (dest_dir : string),
    (forall member, In member zf ->
       startswith (Path.str (entry_target cwd dest_dir member))
                  (Path.str (dest_root cwd dest_dir)) = true) ->
    safe_extract_zip cwd zf dest_dir = Ok (ExtractAll dest_dir zf).
Proof.
  intros cwd zf dest_dir H.
  assert (C : check_members cwd dest_dir zf = Ok tt).
  { induction zf as [|m zf IH]; [reflexivity|]. simpl.
    fold (entry_target cwd dest_dir m). fold (dest_root cwd dest_dir).
    rewrite (H m (or_introl eq_refl)). simpl.
    apply IH. intros m' Hm'. apply H. now right. }
  unfold safe_extract_zip. now rewrite C.
Qed.

(** The text of a path is the text of its components, each after a
    slash. *)
Lemma str_components (p : Path.t) :
  p <> [] ->
  Path.str p = fold_right (fun c acc => ("/" ++ c ++ acc)%string) EmptyString p.
Proof.
  intros Hp. unfold Path.str. destruct p as [|a p]; [congruence|]. clear Hp.
  revert a. induction p as [|b p IH]; intros a.
  - simpl. f_equal. induction a as [|x a IHa]; simpl; [reflexivity | now rewrite <- IHa].
  - change (String.concat "" (map (fun c => ("/" ++ c)%string) (a :: b :: p)))
      with (("/" ++ a) ++ "" ++ String.concat ""
              (map (fun c => ("/" ++ c)%string) (b :: p)))%string.
    rewrite (IH b). reflexivity.
Qed.

Lemma prefix_app (x y z : string) :
  String.prefix y z = true -> String.prefix (x ++ y) (x ++ z) = true.
Proof.
  intros H. induction x as [|c x IH]; simpl; [exact H|].
  destruct (ascii_dec c c) as [_|N]; [exact IH | congruence].
Qed.

Lemma prefix_nil (s : string) : String.prefix EmptyString s = true.
Proof. now destruct s. Qed.

(** An entry that does resolve inside the root passes the check: the
    check errs on one side only. *)
Lemma inside_passes_check (root p : Path.t) :
  inside root p = true -> startswith (Path.str p) (Path.str root) = true.
Proof.
  unfold startswith. destruct root as [|a root].
  - intros _. destruct p as [|b p]; [reflexivity|].
    rewrite (str_components (b :: p)) by discriminate.
    exact (prefix_app "/" EmptyString _ (prefix_nil _)).
  - destruct p as [|b p]; [discriminate|].
    rewrite (str_components (a :: root)), (str_components (b :: p))
      by discriminate.
    revert a b p. induction root as [|a' root IH]; intros a b p; simpl.
    + destruct (String.eqb_spec a b) as [<-|]; [|discriminate]. intros _.
      destruct (ascii_dec "/" "/") as [_|N]; [|congruence].
      apply (prefix_app a EmptyString). apply prefix_nil.
    + destruct (String.eqb_spec a b) as [<-|]; [|discriminate].
      destruct p as [|b' p]; [discriminate|]. intros H.
      destruct (ascii_dec "/" "/") as [_|N]; [|congruence].
      apply (prefix_app a). apply (IH a' b' p). exact H.
Qed.

(** C1, where the code departs from it. The destination is
    [/tmp/receipts_ab] and the archive has the one member
    [../receipts_abc/x.png]. The member resolves to
    [/tmp/receipts_abc/x.png], outside the destination root, but that
    text starts with the text of the root: no error is raised and the
    member is handed to [extractall]. *)
Theorem safe_extract_zip_accepts_sibling_sharing_prefix :
  let cwd : Path.t := [] in
  let dest_dir := "/tmp/receipts_ab" in
  let member := {| filename := "../receipts_abc/x.png"; data := "png" |} in
  dest_root cwd dest_dir = ["tmp"; "receipts_ab"]
  /\ entry_target cwd dest_dir member = ["tmp"; "receipts_abc"; "x.png"]
  /\ inside (dest_root cwd dest_dir) (entry_target cwd dest_dir member) = false
  /\ safe_extract_zip cwd [member] dest_dir = Ok (ExtractAll dest_dir [member])
  /\ extracted (safe_extract_zip cwd [member] dest_dir) = [member].
Proof. repeat split; reflexivity. Qed.

(* ================================================================= *)
(** ** Instances *)

(** C3 as the specification words it fails: [a.Png] is a regular file of
    the subdirectory [r] and its extension equals [.png] but for case,
    yet discovery does not list it. *)
Lemma discover_receipts_skips_mixed_case_extension :
  let fs := Dir [("r", Dir [("a.Png", File "png")])] in
  FS.is_dir fs ["r"] = true
  /\ FS.is_file fs ["r"; "a.Png"] = true
  /\ lower_str (Path.suffix_of "a.Png") = ".png"
  /\ discover_receipts fs [] = Ok []
  /\ ~ (included_as_page fs [] "r" "a.Png"
        <-> lower_str (Path.suffix_of "a.Png") = ".png").
Proof.
  repeat split; try reflexivity.
  intros [_ H]. destruct (H eq_refl) as [groups [g [D [Hg _]]]].
  vm_compute in D. injection D as <-. destruct Hg.
Qed.


(** C6 as the specification words it fails: the name [..] holds no
    separator and no whitespace, so it comes back as it is, and joined
    to a directory it names the parent of that directory, not an entry
    of it; a name of whitespace only comes back empty. *)
Lemma sanitize_filename_keeps_dot_dot :
  sanitize_filename ".." = ".."
  /\ ~ safe_component (sanitize_filename "..")
  /\ Path.resolve []
       (Path.joinpath (Path.parse "/tmp/out")
          (Path.parse (sanitize_filename "..")))
     = ["tmp"]
  /\ sanitize_filename "  " = EmptyString
  /\ ~ safe_component (sanitize_filename "  ").
Proof.
  split; [reflexivity|]. split.
  { intros [_ [_ [_ H]]]. now apply H. }
  split; [reflexivity|]. split; [reflexivity|].
  intros [_ [H _]]. now apply H.
Qed.

Lemma discover_receipts_page_iff_png_suffix_witness :
  let fs := Dir [("r", Dir [("a.png", File "png"); ("b.PNG", File "png")])] in
  FS.is_dir fs ([] ++ ["r"]) = true
  /\ FS.is_file fs ([] ++ ["r"; "b.PNG"]) = true
  /\ (included_as_page fs [] "r" "b.PNG"
      <-> Path.suffix_of "b.PNG" = ".png" \/ Path.suffix_of "b.PNG" = ".PNG").
Proof.
  split; [reflexivity|]. split; [reflexivity|].
  apply (discover_receipts_page_iff_png_suffix
           (Dir [("r", Dir [("a.png", File "png"); ("b.PNG", File "png")])])
           [] "r" "b.PNG"); reflexivity.
Defined.

Lemma discover_receipts_groups_witness :
  let fs := Dir [("b", Dir [("2.png", File "png"); ("1.png", File "png")]);
                 ("empty", Dir [("notes.txt", File "")]);
                 ("B", Dir [("cover.PNG", File "png")])] in
  FS.is_dir fs [] = true
  /\ exists groups,
       discover_receipts fs [] = Ok groups
       /\ map name groups = ["B"; "b"]
       /\ (forall g, In g groups -> pages g <> [] /\ 0 < page_count g)
       /\ StronglySorted (fun a b => String.leb a b = true) (map name groups).
Proof.
  split; [reflexivity|].
  destruct (discover_receipts_groups
              (Dir [("b", Dir [("2.png", File "png"); ("1.png", File "png")]);
                    ("empty", Dir [("notes.txt", File "")]);
                    ("B", Dir [("cover.PNG", File "png")])])
              [] eq_refl) as [groups [D [P [_ [S _]]]]].
  exists groups. split; [exact D|]. split; [|split; [exact P | exact S]].
  vm_compute in D. injection D as <-. reflexivity.
Defined.

Lemma build_outputs_zip_entries_witness :
  let fs := Dir [("outputs", Dir [("x.md", File "X");
                                  ("sub", Dir [("deep.txt", File "")]);
                                  ("a.json", File "A")])] in
  let bytes := entry_names in
  ensure_directory fs ["outputs"] = Ok (fs, ["outputs"])
  /\ FS.openable fs ["outputs.zip"] = true
  /\ exists fs' zf,
       build_outputs_zip bytes fs ["outputs"] ["outputs.zip"]
       = Ok (fs', ["outputs.zip"], zf)
       /\ zf = [("a.json", "A"); ("x.md", "X")]
       /\ FS.read fs' ["outputs.zip"] = Ok "a.json,x.md"
       /\ (forall n d, In (n, d) zf <-> FS.read fs (["outputs"] ++ [n]) = Ok d)
       /\ StronglySorted (fun a b => String.leb a b = true) (map fst zf).
Proof.
  intros fs bytes.
  split; [reflexivity|]. split; [reflexivity|].
  destruct (proj1 build_outputs_zip_entries bytes fs fs
              ["outputs"] ["outputs.zip"] eq_refl eq_refl)
    as [fs' [zf [B [_ [_ [R [_ [_ [I [S _]]]]]]]]]].
  exists fs', zf. split; [exact B|].
  assert (Z : zf = [("a.json", "A"); ("x.md", "X")]).
  { vm_compute in B. now injection B as _ <-. }
  split; [exact Z|]. split; [now rewrite R, Z|].
  split; [apply I; discriminate | exact S].
Defined.

(** Where the archive is placed matters.  Inside the output directory
    it is listed itself, with what it held when its turn came (nothing,
    as it sorts first here); an existing file at its path is replaced;
    a directory at its path makes the call raise. *)
Lemma build_outputs_zip_archive_placement :
  forall archive_bytes : bool -> archive -> string,
    build_outputs_zip archive_bytes
      (Dir [("outputs", Dir [("x.md", File "X")])])
      ["outputs"] ["outputs"; "all.zip"]
    = Ok (Dir [("outputs",
                Dir [("x.md", File "X");
                     ("all.zip",
                      File (archive_bytes true
                              [("all.zip", EmptyString); ("x.md", "X")]))])],
          ["outputs"; "all.zip"],
          [("all.zip", EmptyString); ("x.md", "X")])
    /\ build_outputs_zip archive_bytes
         (Dir [("outputs", Dir []); ("outputs.zip", File "kept?")])
         ["outputs"] ["outputs.zip"]
       = Ok (Dir [("outputs", Dir []);
                  ("outputs.zip", File (archive_bytes true []))],
             ["outputs.zip"], [])
    /\ build_outputs_zip archive_bytes
         (Dir [("outputs", Dir []); ("outputs.zip", Dir [])])
         ["outputs"] ["outputs.zip"]
       = Err IsADirectoryError.
Proof. intros archive_bytes. repeat split; reflexivity. Qed.

(** Names the system refuses make [write_output] raise, after the output
    directory is made: a name with a NUL character, and a name of 253
    bytes, which is a valid folder name but too long once the extension
    is added. *)
Lemma write_output_refuses_names :
  write_output (Dir []) (String (ascii_of_nat 0) "a") "text" "json" ["out"]
  = Err (ValueError "embedded null byte")
  /\ FS.valid_name (repeat_char "a" 253) = true
  /\ write_output (Dir []) (repeat_char "a" 253) "text" "json" ["out"]
     = Err OSError.
Proof. repeat split; vm_compute; reflexivity. Qed.

Lemma write_output_writes_and_overwrites_witness :
  let fs := Dir [("tmp", Dir [])] in
  FS.creatable fs ["tmp"; "outputs"] = true
  /\ FS.writable fs (output_file "A/B" "json" ["tmp"; "outputs"]) = true
  /\ FS.valid_path (output_file "A/B" "json" ["tmp"; "outputs"]) = true
  /\ exists fs',
       write_output fs "A/B" "first" "json" ["tmp"; "outputs"]
       = Ok (fs', ["tmp"; "outputs"; "A_B.json"])
       /\ FS.read fs' ["tmp"; "outputs"; "A_B.json"] = Ok "first"
       /\ exists fs'',
            write_output fs' "A_B" "second" "json" ["tmp"; "outputs"]
            = Ok (fs'', ["tmp"; "outputs"; "A_B.json"])
            /\ FS.read fs'' ["tmp"; "outputs"; "A_B.json"] = Ok "second".
Proof.
  split; [reflexivity|]. split; [reflexivity|]. split; [reflexivity|].
  destruct (write_output_writes_and_overwrites
              (Dir [("tmp", Dir [])]) "A/B" "first" "json" ["tmp"; "outputs"]
              eq_refl eq_refl eq_refl)
    as [fs' [W [_ [R [_ [_ [_ Again]]]]]]].
  exists fs'. split; [exact W|]. split; [exact R|].
  destruct (Again "A_B" "second" "json" eq_refl eq_refl) as [fs'' [W2 R2]].
  exists fs''. split; [exact W2 | exact R2].
Defined.

Lemma write_output_json_unless_markdown_witness :
  "yaml" <> "markdown"
  /\ FS.creatable (Dir []) ["out"] = true
  /\ FS.writable (Dir []) (["out"] ++ [(sanitize_filename "doc" ++ ".json")%string])
     = true
  /\ FS.valid_path (["out"] ++ [(sanitize_filename "doc" ++ ".json")%string])
     = true
  /\ exists fs',
       write_output (Dir []) "doc" "text" "yaml" ["out"]
       = Ok (fs', ["out"] ++ [(sanitize_filename "doc" ++ ".json")%string]).
Proof.
  split; [discriminate|]. split; [reflexivity|]. split; [reflexivity|].
  split; [reflexivity|].
  apply (proj2 (write_output_json_unless_markdown
                  (Dir []) "doc" "text" "yaml" ["out"]
                  ltac:(discriminate))); reflexivity.
Defined.


(* ################################################################# *)
(** * Further properties *)

(* ================================================================= *)
(** ** safe_extract_zip: which archives pass *)

Lemma check_members_app cwd dest_dir good rest :
  check_members cwd dest_dir good = Ok tt ->
  check_members cwd dest_dir (good ++ rest) = check_members cwd dest_dir rest.
Proof.
  induction good as [|m good IH]; simpl; [reflexivity|].
  destruct (negb _); [discriminate | exact IH].
Qed.

Lemma check_members_pass cwd dest_dir zf :
  (forall member, In member zf ->
     startswith (Path.str (entry_target cwd dest_dir member))
                (Path.str (dest_root cwd dest_dir)) = true) ->
  check_members cwd dest_dir zf = Ok tt.
Proof.
  induction zf as [|m zf IH]; intros H; [reflexivity|]. simpl.
  fold (entry_target cwd dest_dir m). fold (dest_root cwd dest_dir).
  rewrite (H m (or_introl eq_refl)). simpl.
  apply IH. intros m' Hm'. apply H. now right.
Qed.

(** The first member that fails the check decides the call: the error
    names it, and no member is extracted, neither the ones before it,
    which passed, nor any after. *)
Theorem safe_extract_zip_reports_first_unsafe_member :
  forall (cwd : Path.t) (dest_dir : string) (good rest : list ZipInfo)
         (bad : ZipInfo),
    (forall member, In member good ->
       startswith (Path.str (entry_target cwd dest_dir member))
                  (Path.str (dest_root cwd dest_dir)) = true) ->
    startswith (Path.str (entry_target cwd dest_dir bad))
               (Path.str (dest_root cwd dest_dir)) = false ->
    safe_extract_zip cwd (good ++ bad :: rest) dest_dir
    = Err (ValueError ("Unsafe path detected in zip: " ++ filename bad))
    /\ extracted (safe_extract_zip cwd (good ++ bad :: rest) dest_dir) = [].
Proof.
  intros cwd dest_dir good rest bad Hgood Hbad.
  assert (E : safe_extract_zip cwd (good ++ bad :: rest) dest_dir
              = Err (ValueError ("Unsafe path detected in zip: " ++ filename bad))).
  { unfold safe_extract_zip.
    rewrite (check_members_app _ _ _ _ (check_members_pass _ _ _ Hgood)).
    simpl. fold (entry_target cwd dest_dir bad). fold (dest_root cwd dest_dir).
    now rewrite Hbad. }
  split; [exact E | now rewrite E].
Qed.

Lemma safe_extract_zip_reports_first_unsafe_member_witness :
  safe_extract_zip ["home"; "u"]
    ([{| filename := "r1/page1.png"; data := "a" |}]
     ++ {| filename := "../../etc/passwd"; data := "b" |}
        :: [{| filename := "r2/page1.png"; data := "c" |}])
    "work"
  = Err (ValueError ("Unsafe path detected in zip: " ++ "../../etc/passwd"))
  /\ extracted
       (safe_extract_zip ["home"; "u"]
          ([{| filename := "r1/page1.png"; data := "a" |}]
           ++ {| filename := "../../etc/passwd"; data := "b" |}
              :: [{| filename := "r2/page1.png"; data := "c" |}])
          "work") = [].
Proof.
  apply (safe_extract_zip_reports_first_unsafe_member ["home"; "u"] "work"
           [{| filename := "r1/page1.png"; data := "a" |}]
           [{| filename := "r2/page1.png"; data := "c" |}]
           {| filename := "../../etc/passwd"; data := "b" |}).
  - intros member [<- | []]. reflexivity.
  - reflexivity.
Defined.

(** An archive whose members all resolve inside the destination root is
    never refused: [extractall] is called with every member. *)
Theorem safe_extract_zip_accepts_members_inside_root :
  forall (cwd : Path.t) (zf : list ZipInfo) (dest_dir : string),
    (forall member, In member zf ->
       inside (dest_root cwd dest_dir) (entry_target cwd dest_dir member)
       = true) ->
    safe_extract_zip cwd zf dest_dir = Ok (ExtractAll dest_dir zf)
    /\ extracted (safe_extract_zip cwd zf dest_dir) = zf.
Proof.
  intros cwd zf dest_dir H.
  assert (E : safe_extract_zip cwd zf dest_dir = Ok (ExtractAll dest_dir zf)).
  { unfold safe_extract_zip. rewrite check_members_pass; [reflexivity|].
    intros member Hm. apply inside_passes_check. now apply H. }
  split; [exact E | now rewrite E].
Qed.

Lemma safe_extract_zip_accepts_members_inside_root_witness :
  safe_extract_zip ["home"; "u"]
    [{| filename := "r1/page1.png"; data := "a" |};
     {| filename := "r1/../r2/./page2.png"; data := "b" |}]
    "/tmp/work"
  = Ok (ExtractAll "/tmp/work"
          [{| filename := "r1/page1.png"; data := "a" |};
           {| filename := "r1/../r2/./page2.png"; data := "b" |}])
  /\ extracted
       (safe_extract_zip ["home"; "u"]
          [{| filename := "r1/page1.png"; data := "a" |};
           {| filename := "r1/../r2/./page2.png"; data := "b" |}]
          "/tmp/work")
     = [{| filename := "r1/page1.png"; data := "a" |};
        {| filename := "r1/../r2/./page2.png"; data := "b" |}].
Proof.
  apply (safe_extract_zip_accepts_members_inside_root ["home"; "u"]
           [{| filename := "r1/page1.png"; data := "a" |};
            {| filename := "r1/../r2/./page2.png"; data := "b" |}]
           "/tmp/work").
  intros member [<- | [<- | []]]; reflexivity.
Defined.

(* ================================================================= *)
(** ** sanitize_filename: the names it leaves alone *)

Lemma length_map_chars f s : String.length (map_chars f s) = String.length s.
Proof. induction s as [|c s IH]; simpl; [reflexivity | now rewrite IH]. Qed.

Lemma strip_not_longer s : String.length (strip s) <= String.length s.
Proof.
  destruct (strip_is_trim s) as [l [r [E _]]].
  rewrite E at 2. rewrite !length_app. lia.
Qed.

(** A name comes back unchanged exactly when it holds no separator and
    no whitespace at either end; and the result is never longer than
    the name. *)
Theorem sanitize_filename_fixed_points :
  forall s : string,
    (sanitize_filename s = s <-> separator_free s /\ trimmed s)
    /\ String.length (sanitize_filename s) <= String.length s.
Proof.
  intros s. split; [split|].
  - intros E. split.
    + rewrite <- E. apply sanitize_filename_separator_free.
    + rewrite <- E, sanitize_filename_unfold. apply strip_trimmed.
  - intros [Hs Ht]. rewrite sanitize_filename_unfold.
    rewrite (underscore_sep_fixed s Hs). now apply strip_fixed.
  - rewrite sanitize_filename_unfold.
    rewrite <- (length_map_chars underscore_sep s). apply strip_not_longer.
Qed.

(* ================================================================= *)
(** ** What making a directory and writing a file leave alone *)

Module FrameFacts.
Import FS FSFacts.

Lemma read_file fs p c : read fs p = Ok c <-> lookup fs p = Some (File c).
Proof.
  unfold read. destruct (lookup fs p) as [[x|es|]|]; split; congruence.
Qed.


(** Whatever a path led to before, file or other, it still leads to a
    node of the same kind, a file with the same content. *)
Lemma mkdir_parents_keeps_files fs p fs1 :
  mkdir_parents fs p = Ok fs1 ->
  forall q c, lookup fs q = Some (File c) -> lookup fs1 q = Some (File c).
Proof.
  revert fs fs1. induction p as [|c p IH]; intros fs fs1; simpl.
  - destruct fs; try discriminate. now intros [= <-].
  - destruct fs as [x|es|]; try discriminate.
    destruct (assoc c es) as [n|] eqn:E.
    + destruct (mkdir_parents n p) as [n'|e] eqn:M; [|discriminate].
      simpl. intros [= <-] q d. destruct q as [|k q]; simpl; [discriminate|].
      destruct (String.eqb_spec k c) as [->|Hne].
      * rewrite E, assoc_update_eq, E. now apply (IH n n' M).
      * now rewrite (assoc_update_neq c k n' es Hne).
    + intros [= <-] q d. destruct q as [|k q]; simpl; [discriminate|].
      rewrite assoc_app. destruct (assoc k es); [auto | discriminate].
Qed.

Lemma mkdir_parents_keeps_dirs fs p fs1 :
  mkdir_parents fs p = Ok fs1 ->
  forall q, is_dir fs q = true -> is_dir fs1 q = true.
Proof.
  unfold is_dir. revert fs fs1. induction p as [|c p IH]; intros fs fs1; simpl.
  - destruct fs; try discriminate. now intros [= <-].
  - destruct fs as [x|es|]; try discriminate.
    destruct (assoc c es) as [n|] eqn:E.
    + destruct (mkdir_parents n p) as [n'|e] eqn:M; [|discriminate].
      simpl. intros [= <-] q. destruct q as [|k q]; simpl; [reflexivity|].
      destruct (String.eqb_spec k c) as [->|Hne].
      * rewrite E, assoc_update_eq, E. now apply (IH n n' M).
      * now rewrite (assoc_update_neq c k n' es Hne).
    + intros [= <-] q. destruct q as [|k q]; simpl; [reflexivity|].
      rewrite assoc_app. destruct (assoc k es); [auto | discriminate].
Qed.

Lemma write_text_keeps_files fs p content fs2 :
  write_text fs p content = Ok fs2 ->
  forall q c, q <> p -> lookup fs q = Some (File c) ->
              lookup fs2 q = Some (File c).
Proof.
  intros W q c Hq L. apply read_file.
  rewrite (write_text_elsewhere _ _ _ _ W q Hq). now apply read_file.
Qed.

Lemma write_text_keeps_dirs fs p content fs2 :
  write_text fs p content = Ok fs2 ->
  forall q, is_dir fs q = true -> is_dir fs2 q = true.
Proof. intros W q D. now rewrite (write_text_same_dirs _ _ _ _ W). Qed.

(** What [write_output] did when it returns. *)
Lemma write_output_ok fs receipt_name content output_format output_dir fs' path :
  write_output fs receipt_name content output_format output_dir = Ok (fs', path) ->
  path = output_file receipt_name output_format output_dir
  /\ read fs' path = Ok content
  /\ (forall q c, q <> path -> read fs q = Ok c -> read fs' q = Ok c)
  /\ (forall q, is_dir fs q = true -> is_dir fs' q = true)
  /\ is_dir fs' output_dir = true.
Proof.
  unfold write_output, ensure_directory.
  destruct (mkdir_parents fs output_dir) as [fs1|e] eqn:M; [|discriminate].
  cbn [bind fst snd]. rewrite write_output_path.
  destruct (write_text fs1 _ content) as [fs2|e] eqn:W; [|discriminate].
  cbn [bind]. intros [= <- <-]. split; [reflexivity|].
  split; [exact (write_text_read _ _ _ _ W)|]. split; [|split].
  - intros q c Hq R. apply read_file. apply read_file in R.
    apply (write_text_keeps_files _ _ _ _ W q c Hq).
    now apply (mkdir_parents_keeps_files _ _ _ M).
  - intros q D. apply (write_text_keeps_dirs _ _ _ _ W).
    now apply (mkdir_parents_keeps_dirs _ _ _ M).
  - apply (write_text_keeps_dirs _ _ _ _ W).
    now apply (mkdir_parents_is_dir fs).
Qed.

End FrameFacts.





(* ================================================================= *)
(** ** The order in which a directory is enumerated does not matter *)

Section SortedUnique.
Context {A : Type} (lt : A -> A -> bool).
Hypothesis lt_asym : forall a b, lt a b = true -> lt b a = false.
Hypothesis le_trans : forall a b c,
    not_after lt a b -> not_after lt b c -> not_after lt a c.

(** Two sorted lists with the same elements are the same list, when no
    two different elements are equivalent for the order. *)
Lemma sorted_perm_unique (s1 : list A) : forall s2,
  StronglySorted (not_after lt) s1 ->
  StronglySorted (not_after lt) s2 ->
  Permutation s1 s2 ->
  (forall a b, In a s1 -> In b s1 ->
               not_after lt a b -> not_after lt b a -> a = b) ->
  s1 = s2.
Proof.
  induction s1 as [|x t1 IH]; intros s2 S1 S2 P Anti.
  - apply Permutation_nil in P. now subst.
  - destruct s2 as [|y t2];
      [apply Permutation_sym, Permutation_nil in P; discriminate|].
    inversion S1 as [|? ? S1' F1]; subst.
    inversion S2 as [|? ? S2' F2]; subst.
    assert (Hy : In y (x :: t1)).
    { apply (Permutation_in _ (Permutation_sym P)). now left. }
    assert (E : x = y).
    { assert (Hx : In x (y :: t2)) by (apply (Permutation_in _ P); now left).
      destruct Hx as [-> | Hx]; [reflexivity|].
      destruct Hy as [-> | Hy']; [reflexivity|].
      apply Anti; [now left | now right | |].
      - now apply (proj1 (Forall_forall _ _) F1).
      - now apply (proj1 (Forall_forall _ _) F2). }
    subst y. f_equal. apply IH; try assumption.
    + now apply Permutation_cons_inv in P.
    + intros a b Ha Hb. apply Anti; now right.
Qed.

Lemma py_sorted_perm_invariant (l1 l2 : list A) :
  Permutation l1 l2 ->
  (forall a b, In a l1 -> In b l1 ->
               not_after lt a b -> not_after lt b a -> a = b) ->
  py_sorted lt l1 = py_sorted lt l2.
Proof.
  intros P Anti. apply sorted_perm_unique.
  - now apply py_sorted_sorted.
  - now apply py_sorted_sorted.
  - rewrite (py_sorted_perm lt l1), (py_sorted_perm lt l2). exact P.
  - intros a b Ha Hb. apply Anti; now apply (py_sorted_in lt l1).
Qed.

End SortedUnique.

Lemma string_ltb_antisym a b :
  String.ltb a b = false -> String.ltb b a = false -> a = b.
Proof.
  unfold String.ltb. rewrite (String.compare_antisym b a).
  destruct (String.compare a b) eqn:E; try discriminate.
  intros _ _. now apply String.compare_eq_iff.
Qed.

Lemma key_ltb_antisym (a b : sort_key) :
  key_ltb a b = false -> key_ltb b a = false -> a = b.
Proof.
  destruct a as [[n|] s], b as [[m|] t]; unfold key_ltb; simpl;
    try discriminate.
  - destruct (N.eqb_spec n m) as [->|Hne].
    + rewrite N.eqb_refl. intros H1 H2. f_equal. now apply string_ltb_antisym.
    + destruct (N.eqb_spec m n) as [->|_]; [congruence|].
      rewrite !N.ltb_ge. lia.
  - intros H1 H2. f_equal. now apply string_ltb_antisym.
Qed.

Lemma sorted_names_perm_invariant names1 names2 :
  Permutation names1 names2 ->
  py_sorted String.ltb names1 = py_sorted String.ltb names2.
Proof.
  intros P. apply py_sorted_perm_invariant; try assumption.
  - apply OrderFacts.string_ltb_asym.
  - intros a b c. apply OrderFacts.string_le_trans.
  - intros a b _ _ H1 H2. unfold not_after in *. now apply string_ltb_antisym.
Qed.

Lemma NoDup_map_injective {A B : Type} (f : A -> B) l a b :
  NoDup (map f l) -> In a l -> In b l -> f a = f b -> a = b.
Proof.
  induction l as [|x l IH]; simpl; intros N Ha Hb E; [destruct Ha|].
  inversion N as [|? ? Hx N']; subst.
  destruct Ha as [-> | Ha], Hb as [-> | Hb]; try reflexivity.
  - elim Hx. rewrite E. now apply in_map.
  - elim Hx. rewrite <- E. now apply in_map.
  - now apply IH.
Qed.

Lemma sorted_pages_perm_invariant listing1 listing2 :
  Permutation listing1 listing2 ->
  NoDup (map Path.name listing1) ->
  py_sorted_key _page_sort_key key_ltb listing1
  = py_sorted_key _page_sort_key key_ltb listing2.
Proof.
  intros P N. unfold py_sorted_key. apply py_sorted_perm_invariant.
  - intros a b. apply KeyOrder.key_ltb_asym.
  - intros a b c. unfold not_after. apply KeyOrder.key_le_trans.
  - exact P.
  - intros a b Ha Hb H1 H2. unfold not_after in *.
    apply (NoDup_map_injective Path.name listing1); try assumption.
    assert (E := key_ltb_antisym _ _ H2 H1).
    unfold _page_sort_key in E.
    destruct (re_search_page (Path.stem a)), (re_search_page (Path.stem b));
      try destruct (rev (re_findall_digits (Path.stem a)));
      try destruct (rev (re_findall_digits (Path.stem b)));
      now inversion E.
Qed.

(** The pages of a folder come out in the same order however the folder
    is enumerated: two listings of the same distinctly named entries
    give the same sorted sequence and the same pages. *)
Theorem page_order_ignores_enumeration_order :
  forall (fs : node) (listing1 listing2 : list Path.t),
    Permutation listing1 listing2 ->
    NoDup (map Path.name listing1) ->
    py_sorted_key _page_sort_key key_ltb listing1
    = py_sorted_key _page_sort_key key_ltb listing2
    /\ collect_pages fs listing1 = collect_pages fs listing2.
Proof.
  intros fs listing1 listing2 P N.
  assert (E := sorted_pages_perm_invariant listing1 listing2 P N).
  split; [exact E|]. unfold collect_pages. now rewrite E.
Qed.

Lemma page_order_ignores_enumeration_order_witness :
  py_sorted_key _page_sort_key key_ltb
    [["r"; "b.png"]; ["r"; "page_10.png"]; ["r"; "page_9.png"]; ["r"; "a.png"]]
  = py_sorted_key _page_sort_key key_ltb
      [["r"; "a.png"]; ["r"; "page_9.png"]; ["r"; "b.png"]; ["r"; "page_10.png"]].
Proof.
  apply (proj1 (page_order_ignores_enumeration_order (Dir [])
      [["r"; "b.png"]; ["r"; "page_10.png"]; ["r"; "page_9.png"]; ["r"; "a.png"]]
      [["r"; "a.png"]; ["r"; "page_9.png"]; ["r"; "b.png"]; ["r"; "page_10.png"]]
      ltac:(apply (Permutation_trans (l' :=
               [["r"; "a.png"]; ["r"; "b.png"]; ["r"; "page_10.png"]; ["r"; "page_9.png"]]));
            [ apply Permutation_sym, (Permutation_cons_app [_; _; _] []); reflexivity
            | apply perm_skip;
              apply (Permutation_trans (l' := [["r"; "page_9.png"]; ["r"; "b.png"]; ["r"; "page_10.png"]]));
              [ apply Permutation_sym, (Permutation_cons_app [_; _] []); reflexivity
              | reflexivity ] ])
      ltac:(simpl; repeat constructor; simpl; intuition discriminate))).
Defined.

Module SameTreeFacts.
Import FS FSFacts.

Lemma same_tree_lookup p : forall fs1 fs2,
  same_tree fs1 fs2 -> same_answer (lookup fs1 p) (lookup fs2 p).
Proof.
  induction p as [|c p IH]; intros fs1 fs2 S; simpl; [exact S|].
  inversion S as [x| |es1 es2 N1 N2 F B]; subst; simpl; try exact I.
  destruct (assoc c es1) as [a|] eqn:E1.
  - destruct (F c a E1) as [b [E2 Sab]]. rewrite E2. now apply IH.
  - destruct (assoc c es2) as [b|] eqn:E2; [|exact I].
    destruct (B c b E2) as [a [E1' _]]. congruence.
Qed.

Lemma same_tree_is_dir fs1 fs2 p :
  same_tree fs1 fs2 -> is_dir fs1 p = is_dir fs2 p.
Proof.
  intros S. assert (H := same_tree_lookup p fs1 fs2 S). unfold is_dir.
  destruct (lookup fs1 p) as [a|], (lookup fs2 p) as [b|]; simpl in H;
    try contradiction; [|reflexivity].
  now inversion H.
Qed.

Lemma same_tree_lookup_file fs1 fs2 p :
  same_tree fs1 fs2 ->
  forall c, lookup fs1 p = Some (File c) <-> lookup fs2 p = Some (File c).
Proof.
  intros S c. assert (H := same_tree_lookup p fs1 fs2 S).
  destruct (lookup fs1 p) as [a|], (lookup fs2 p) as [b|]; simpl in H;
    try contradiction; [|split; discriminate].
  inversion H; subst; split; congruence.
Qed.

Lemma same_tree_is_file fs1 fs2 p :
  same_tree fs1 fs2 -> is_file fs1 p = is_file fs2 p.
Proof.
  intros S. assert (H := same_tree_lookup p fs1 fs2 S). unfold is_file.
  destruct (lookup fs1 p) as [a|], (lookup fs2 p) as [b|]; simpl in H;
    try contradiction; [|reflexivity].
  now inversion H.
Qed.

Lemma same_tree_read fs1 fs2 p :
  same_tree fs1 fs2 -> read fs1 p = read fs2 p.
Proof.
  intros S. assert (H := same_tree_lookup p fs1 fs2 S). unfold read.
  destruct (lookup fs1 p) as [a|], (lookup fs2 p) as [b|]; simpl in H;
    try contradiction; [|reflexivity].
  now inversion H.
Qed.

Lemma same_tree_names es1 es2 :
  same_tree (Dir es1) (Dir es2) -> Permutation (map fst es1) (map fst es2).
Proof.
  intros S. inversion S as [| |? ? N1 N2 F B]; subst.
  apply NoDup_Permutation; try assumption.
  intros k. rewrite <- !assoc_some_iff. split.
  - intros [a Ha]. destruct (F k a Ha) as [b [Hb _]]. now exists b.
  - intros [b Hb]. destruct (B k b Hb) as [a [Ha _]]. now exists a.
Qed.

Lemma same_tree_names_distinct es1 es2 :
  same_tree (Dir es1) (Dir es2) -> NoDup (map fst es1).
Proof. intros S. now inversion S. Qed.

Lemma names_of_siblings dir names :
  map Path.name (map (fun n => dir ++ [n]) names) = names.
Proof.
  induction names as [|n names IH]; simpl; [reflexivity|].
  now rewrite name_child, IH.
Qed.

Lemma same_tree_qualifies fs1 fs2 p :
  same_tree fs1 fs2 -> qualifies fs1 p = qualifies fs2 p.
Proof. intros S. unfold qualifies. now rewrite (same_tree_is_file fs1 fs2 p S). Qed.

Lemma same_tree_collect_pages fs1 fs2 dir :
  same_tree fs1 fs2 ->
  collect_pages fs1 (glob_star fs1 dir) = collect_pages fs2 (glob_star fs2 dir).
Proof.
  intros S. assert (H := same_tree_lookup dir fs1 fs2 S). unfold glob_star.
  destruct (lookup fs1 dir) as [a|], (lookup fs2 dir) as [b|]; simpl in H;
    try contradiction; [|reflexivity].
  inversion H as [x| |es1 es2 N1 N2 F B]; subst; try reflexivity.
  rewrite <- !(map_map fst (fun n => dir ++ [n])).
  unfold collect_pages.
  rewrite (sorted_pages_perm_invariant
             (map (fun n => dir ++ [n]) (map fst es1))
             (map (fun n => dir ++ [n]) (map fst es2))).
  - apply filter_ext. intros p. now apply same_tree_qualifies.
  - apply Permutation_map. now apply same_tree_names.
  - now rewrite names_of_siblings.
Qed.

Lemma same_tree_contribution fs1 fs2 entry :
  same_tree fs1 fs2 -> contribution fs1 entry = contribution fs2 entry.
Proof.
  intros S. unfold contribution.
  rewrite (same_tree_is_dir fs1 fs2 entry S).
  now rewrite (same_tree_collect_pages fs1 fs2 entry S).
Qed.

End SameTreeFacts.

(** Discovery does not depend on the order in which the operating
    system enumerates directories: on two trees with the same content it
    returns the same groups with the same pages in the same order, or
    raises the same error. *)
Theorem discover_receipts_ignores_enumeration_order :
  forall (fs1 fs2 : node) (root_dir : Path.t),
    same_tree fs1 fs2 ->
    discover_receipts fs1 root_dir = discover_receipts fs2 root_dir.
Proof.
  intros fs1 fs2 root_dir S.
  assert (H := SameTreeFacts.same_tree_lookup root_dir fs1 fs2 S).
  destruct (FS.lookup fs1 root_dir) as [a|] eqn:L1,
           (FS.lookup fs2 root_dir) as [b|] eqn:L2; simpl in H; try contradiction.
  - inversion H as [x| |es1 es2 N1 N2 F B]; subst.
    + unfold discover_receipts, FS.iterdir. now rewrite L1, L2.
    + unfold discover_receipts, FS.iterdir. now rewrite L1, L2.
    + rewrite (discover_receipts_unfold fs1 root_dir es1 L1),
              (discover_receipts_unfold fs2 root_dir es2 L2).
      rewrite (sorted_names_perm_invariant (map fst es1) (map fst es2))
        by now apply SameTreeFacts.same_tree_names.
      f_equal. apply flat_map_ext. intros entry.
      now apply SameTreeFacts.same_tree_contribution.
  - unfold discover_receipts, FS.iterdir. now rewrite L1, L2.
Qed.

(** Proves [same_tree] of two trees written out. *)
Ltac assoc_entry H :=
  simpl in H;
  repeat match type of H with
         | (if String.eqb ?k ?s then _ else _) = _ =>
             destruct (String.eqb_spec k s) as [->|?]
         end;
  try discriminate;
  injection H as <-; eexists; (split; [reflexivity|]).

Ltac same_tree_written_out :=
  repeat first
    [ apply SameFile
    | apply SameSpecial
    | apply SameDir;
      [ simpl; repeat constructor; simpl; intuition discriminate
      | simpl; repeat constructor; simpl; intuition discriminate
      | let k := fresh "k" in let a := fresh "a" in let H := fresh "H" in
        intros k a H; assoc_entry H
      | let k := fresh "k" in let a := fresh "a" in let H := fresh "H" in
        intros k a H; assoc_entry H ] ].

Lemma discover_receipts_ignores_enumeration_order_witness :
  discover_receipts
    (Dir [("b", Dir [("2.png", File "x"); ("1.png", File "y")]);
          ("a", Dir [("p.PNG", File "z")])]) []
  = discover_receipts
      (Dir [("a", Dir [("p.PNG", File "z")]);
            ("b", Dir [("1.png", File "y"); ("2.png", File "x")])]) [].
Proof.
  apply discover_receipts_ignores_enumeration_order.
  same_tree_written_out.
Defined.

Module SameTreeUpdates.
Import FS FSFacts SameTreeFacts.

Lemma update_names k n es : map fst (update k n es) = map fst es.
Proof.
  induction es as [|[k' n'] es IH]; simpl; [reflexivity|].
  destruct (String.eqb k k'); simpl; [reflexivity | now rewrite IH].
Qed.

Lemma NoDup_snoc (l : list string) c :
  NoDup l -> ~ In c l -> NoDup (l ++ [c]).
Proof.
  intros N H. apply (Permutation_NoDup (l := c :: l)).
  - apply Permutation_cons_append.
  - now constructor.
Qed.

Lemma assoc_none_not_in k es : assoc k es = None -> ~ In k (map fst es).
Proof.
  intros E H. apply assoc_some_iff in H. destruct H as [n Hn]. congruence.
Qed.

Lemma same_tree_fresh_dirs p : same_tree (fresh_dirs p) (fresh_dirs p).
Proof.
  induction p as [|c p IH]; simpl.
  - apply SameDir; try constructor; intros k a H; discriminate.
  - apply SameDir.
    + simpl. repeat constructor. intros [].
    + simpl. repeat constructor. intros [].
    + intros k a H. simpl in *. destruct (String.eqb k c); [|discriminate].
      injection H as <-. eauto.
    + intros k a H. simpl in *. destruct (String.eqb k c); [|discriminate].
      injection H as <-. eauto.
Qed.

Lemma same_tree_update c a' b' es1 es2 :
  same_tree (Dir es1) (Dir es2) ->
  same_tree a' b' ->
  (exists a, assoc c es1 = Some a) ->
  (exists b, assoc c es2 = Some b) ->
  same_tree (Dir (update c a' es1)) (Dir (update c b' es2)).
Proof.
  intros S Sab [a Ha] [b Hb]. inversion S as [| |? ? N1 N2 F B]; subst.
  apply SameDir.
  - now rewrite update_names.
  - now rewrite update_names.
  - intros k x H. destruct (String.eqb_spec k c) as [->|Hne].
    + rewrite assoc_update_eq, Ha in H. injection H as <-.
      exists b'. split; [now rewrite assoc_update_eq, Hb | exact Sab].
    + rewrite (assoc_update_neq c k a' es1 Hne) in H.
      destruct (F k x H) as [y [Hy Sxy]]. exists y.
      split; [now rewrite (assoc_update_neq c k b' es2 Hne) | exact Sxy].
  - intros k y H. destruct (String.eqb_spec k c) as [->|Hne].
    + rewrite assoc_update_eq, Hb in H. injection H as <-.
      exists a'. split; [now rewrite assoc_update_eq, Ha | exact Sab].
    + rewrite (assoc_update_neq c k b' es2 Hne) in H.
      destruct (B k y H) as [x [Hx Sxy]]. exists x.
      split; [now rewrite (assoc_update_neq c k a' es1 Hne) | exact Sxy].
Qed.

Lemma same_tree_snoc c n1 n2 es1 es2 :
  same_tree (Dir es1) (Dir es2) ->
  same_tree n1 n2 ->
  assoc c es1 = None -> assoc c es2 = None ->
  same_tree (Dir (es1 ++ [(c, n1)])) (Dir (es2 ++ [(c, n2)])).
Proof.
  intros S Sn H1 H2. inversion S as [| |? ? N1 N2 F B]; subst.
  apply SameDir.
  - rewrite map_app. simpl. apply NoDup_snoc; [exact N1|].
    now apply assoc_none_not_in.
  - rewrite map_app. simpl. apply NoDup_snoc; [exact N2|].
    now apply assoc_none_not_in.
  - intros k x H. rewrite assoc_app in H. rewrite assoc_app.
    destruct (assoc k es1) as [x'|] eqn:E.
    + injection H as <-. destruct (F k x' E) as [y [Hy Sxy]].
      rewrite Hy. now exists y.
    + simpl in H. destruct (String.eqb_spec k c) as [->|Hne]; [|discriminate].
      injection H as <-. rewrite H2. simpl. rewrite String.eqb_refl.
      now exists n2.
  - intros k y H. rewrite assoc_app in H. rewrite assoc_app.
    destruct (assoc k es2) as [y'|] eqn:E.
    + injection H as <-. destruct (B k y' E) as [x [Hx Sxy]].
      rewrite Hx. now exists x.
    + simpl in H. destruct (String.eqb_spec k c) as [->|Hne]; [|discriminate].
      injection H as <-. rewrite H1. simpl. rewrite String.eqb_refl.
      now exists n1.
Qed.

(** Making a directory succeeds on both trees or fails on both with the
    same error, and the trees made have the same content again. *)
Lemma same_tree_mkdir_parents p : forall fs1 fs2,
  same_tree fs1 fs2 ->
  match mkdir_parents fs1 p, mkdir_parents fs2 p with
  | Ok a, Ok b => same_tree a b
  | Err e1, Err e2 => e1 = e2
  | _, _ => False
  end.
Proof.
  induction p as [|c p IH]; intros fs1 fs2 S.
  - inversion S; subst; simpl; try reflexivity. exact S.
  - inversion S as [x| |es1 es2 N1 N2 F B]; subst; simpl; try reflexivity.
    destruct (assoc c es1) as [a|] eqn:E1.
    + destruct (F c a E1) as [b [E2 Sab]]. rewrite E2.
      specialize (IH a b Sab).
      destruct (mkdir_parents a p) as [a'|e1], (mkdir_parents b p) as [b'|e2];
        simpl; try contradiction; [|exact IH].
      apply same_tree_update; eauto.
    + destruct (assoc c es2) as [b|] eqn:E2.
      * destruct (B c b E2) as [a [E1' _]]. congruence.
      * apply same_tree_snoc; try assumption. apply same_tree_fresh_dirs.
Qed.

(** Writing a file succeeds on both trees or fails on both with the
    same error, and the trees written have the same content again. *)
Lemma same_tree_write_at content p : forall fs1 fs2,
  same_tree fs1 fs2 ->
  match write_at fs1 p content, write_at fs2 p content with
  | Ok a, Ok b => same_tree a b
  | Err e1, Err e2 => e1 = e2
  | _, _ => False
  end.
Proof.
  induction p as [|c p IH]; intros fs1 fs2 S; [reflexivity|].
  inversion S as [x| |es1 es2 N1 N2 F B]; subst; cbn [write_at];
    try reflexivity.
  destruct (too_long c); [reflexivity|].
  destruct (assoc c es1) as [a|] eqn:E1.
  - destruct (F c a E1) as [b [E2 Sab]]. rewrite E2.
    destruct p as [|d p].
    + inversion Sab; subst; try reflexivity.
      apply same_tree_update; eauto. constructor.
    + specialize (IH a b Sab).
      destruct (write_at a (d :: p) content) as [a'|e1],
               (write_at b (d :: p) content) as [b'|e2];
        cbn [bind]; try contradiction; [|exact IH].
      apply same_tree_update; eauto.
  - destruct (assoc c es2) as [b|] eqn:E2.
    + destruct (B c b E2) as [a [E1' _]]. congruence.
    + destruct p as [|d p]; [|reflexivity].
      apply same_tree_snoc; try assumption. constructor.
Qed.

Lemma same_tree_write_text content p fs1 fs2 :
  same_tree fs1 fs2 ->
  match write_text fs1 p content, write_text fs2 p content with
  | Ok a, Ok b => same_tree a b
  | Err e1, Err e2 => e1 = e2
  | _, _ => False
  end.
Proof.
  intros S. unfold write_text. destruct (existsb has_nul p); [reflexivity|].
  now apply same_tree_write_at.
Qed.

Lemma same_tree_zip_loop archive_bytes zip_file files : forall fs1 fs2 zf,
  same_tree fs1 fs2 ->
  match zip_loop archive_bytes fs1 zip_file files zf,
        zip_loop archive_bytes fs2 zip_file files zf with
  | Ok (a, zf1), Ok (b, zf2) => zf1 = zf2 /\ same_tree a b
  | Err e1, Err e2 => e1 = e2
  | _, _ => False
  end.
Proof.
  induction files as [|p files IH]; intros fs1 fs2 zf S; cbn [zip_loop].
  - now split.
  - rewrite (same_tree_is_file fs1 fs2 p S), (same_tree_read fs1 fs2 p S).
    destruct (is_file fs2 p); [|now apply IH].
    destruct (read fs2 p) as [data|e]; cbn [bind]; [|reflexivity].
    assert (W := same_tree_write_text
                   (archive_bytes false (zf ++ [(Path.name p, data)]))
                   zip_file fs1 fs2 S).
    destruct (write_text fs1 zip_file _) as [a|e1],
             (write_text fs2 zip_file _) as [b|e2];
      cbn [bind]; try contradiction; [|exact W].
    now apply IH.
Qed.

Lemma same_tree_glob_sorted fs1 fs2 dir :
  same_tree fs1 fs2 ->
  py_sorted Path.ltb (glob_star fs1 dir) = py_sorted Path.ltb (glob_star fs2 dir).
Proof.
  intros S. assert (H := same_tree_lookup dir fs1 fs2 S). unfold glob_star.
  destruct (lookup fs1 dir) as [a|], (lookup fs2 dir) as [b|]; simpl in H;
    try contradiction; [|reflexivity].
  inversion H as [x| |es1 es2 N1 N2 F B]; subst; try reflexivity.
  rewrite <- !(map_map fst (fun n => dir ++ [n])).
  rewrite !OrderFacts.sorted_siblings.
  now rewrite (sorted_names_perm_invariant (map fst es1) (map fst es2))
    by now apply same_tree_names.
Qed.

End SameTreeUpdates.

(** Packaging does not depend on the enumeration order either: on two
    trees with the same content it writes the same archive, entry for
    entry, or raises the same error. *)
Theorem build_outputs_zip_ignores_enumeration_order :
  forall (archive_bytes : bool -> archive -> string)
         (fs1 fs2 : node) (output_dir zip_path : Path.t),
    same_tree fs1 fs2 ->
    match build_outputs_zip archive_bytes fs1 output_dir zip_path,
          build_outputs_zip archive_bytes fs2 output_dir zip_path with
    | Ok (fs1', zip1, zf1), Ok (fs2', zip2, zf2) =>
        zf1 = zf2 /\ zip1 = zip2 /\ same_tree fs1' fs2'
    | Err e1, Err e2 => e1 = e2
    | _, _ => False
    end.
Proof.
  intros archive_bytes fs1 fs2 output_dir zip_path S.
  unfold build_outputs_zip, ensure_directory.
  assert (M := SameTreeUpdates.same_tree_mkdir_parents output_dir fs1 fs2 S).
  destruct (FS.mkdir_parents fs1 output_dir) as [a|e1],
           (FS.mkdir_parents fs2 output_dir) as [b|e2];
    try contradiction; cbn [bind fst snd]; [|exact M].
  assert (O := SameTreeUpdates.same_tree_write_text EmptyString zip_path a b M).
  destruct (FS.write_text a zip_path EmptyString) as [a1|e1],
           (FS.write_text b zip_path EmptyString) as [b1|e2];
    try contradiction; cbn [bind]; [|exact O].
  rewrite (SameTreeUpdates.same_tree_glob_sorted a1 b1 output_dir O).
  assert (L := SameTreeUpdates.same_tree_zip_loop archive_bytes zip_path
                 (py_sorted Path.ltb (FS.glob_star b1 output_dir)) a1 b1 [] O).
  destruct (zip_loop archive_bytes a1 zip_path _ []) as [[a2 zf1]|e1],
           (zip_loop archive_bytes b1 zip_path _ []) as [[b2 zf2]|e2];
    try contradiction; cbn [bind fst snd]; [|exact L].
  destruct L as [<- L].
  assert (C := SameTreeUpdates.same_tree_write_text
                 (archive_bytes true zf1) zip_path a2 b2 L).
  destruct (FS.write_text a2 zip_path _) as [a3|e1],
           (FS.write_text b2 zip_path _) as [b3|e2];
    try contradiction; cbn [bind]; [|exact C].
  repeat split. exact C.
Qed.

Lemma build_outputs_zip_ignores_enumeration_order_witness :
  match build_outputs_zip entry_names
          (Dir [("w", Dir [("outputs", Dir [("b.md", File "B"); ("a.json", File "A")])])])
          ["w"; "outputs"] ["w"; "outputs.zip"],
        build_outputs_zip entry_names
          (Dir [("w", Dir [("outputs", Dir [("a.json", File "A"); ("b.md", File "B")])])])
          ["w"; "outputs"] ["w"; "outputs.zip"] with
  | Ok (fs1', zip1, zf1), Ok (fs2', zip2, zf2) =>
      zf1 = zf2 /\ zip1 = zip2 /\ same_tree fs1' fs2'
  | Err e1, Err e2 => e1 = e2
  | _, _ => False
  end.
Proof.
  apply build_outputs_zip_ignores_enumeration_order.
  same_tree_written_out.
Defined.

(** Packaging a directory that does not exist yet, with the archive
    placed where a file can be opened and not inside that directory,
    makes the directory, leaves it empty and writes an archive without
    entries; no regular file of the tree changes but the archive file. *)
Theorem build_outputs_zip_of_missing_directory :
  forall (archive_bytes : bool -> archive -> string)
         (fs fs1 : node) (output_dir zip_path : Path.t),
    FS.lookup fs output_dir = None ->
    ensure_directory fs output_dir = Ok (fs1, output_dir) ->
    FS.openable fs1 zip_path = true ->
    (forall n, output_dir ++ [n] <> zip_path) ->
    exists fs',
      build_outputs_zip archive_bytes fs output_dir zip_path
      = Ok (fs', zip_path, [])
      /\ FS.is_dir fs' output_dir = true
      /\ (forall n, FS.read fs' (output_dir ++ [n]) = Err FileNotFoundError)
      /\ FS.read fs' zip_path = Ok (archive_bytes true [])
      /\ (forall q c, q <> zip_path ->
            FS.read fs q = Ok c -> FS.read fs' q = Ok c).
Proof.
  intros archive_bytes fs fs1 output_dir zip_path Hn Hm Ho Hout.
  unfold ensure_directory in Hm.
  destruct (FS.mkdir_parents fs output_dir) as [fs1'|e] eqn:M; [|discriminate].
  cbn [bind] in Hm. injection Hm as ->.
  destruct (proj1 (FSFacts.write_text_openable fs1 zip_path EmptyString) Ho)
    as [fs2 O].
  destruct (build_outputs_zip_opened archive_bytes fs fs1 fs2 output_dir
              zip_path M O)
    as [fs' [zf [B [D [R [E [Nm [I _]]]]]]]].
  assert (L : FS.lookup fs1 output_dir = Some (Dir [])).
  { destruct (FSFacts.mkdir_parents_result _ _ _ M) as [[D1 _] | [_ L]];
      [|exact L].
    unfold FS.is_dir in D1. rewrite Hn in D1. discriminate. }
  assert (Empty : forall n, FS.read fs' (output_dir ++ [n])
                            = Err FileNotFoundError).
  { intros n. rewrite (E _ (Hout n)). unfold FS.read.
    now rewrite FSFacts.lookup_child, L. }
  assert (Z : zf = []).
  { destruct zf as [|[n d] zf]; [reflexivity|].
    assert (H : In (n, d) ((n, d) :: zf)) by now left.
    apply (I n d (Hout n)) in H. rewrite Empty in H. discriminate. }
  subst zf. exists fs'. split; [exact B|]. split; [exact D|].
  split; [exact Empty|]. split; [exact R|].
  intros q c Hq Rq. rewrite (E q Hq).
  apply FrameFacts.read_file. apply FrameFacts.read_file in Rq.
  exact (FrameFacts.mkdir_parents_keeps_files _ _ _ M q c Rq).
Qed.

Lemma build_outputs_zip_of_missing_directory_witness :
  exists fs',
    build_outputs_zip entry_names
      (Dir [("w", Dir [("r", Dir [("1.png", File "png")])])])
      ["w"; "outputs"] ["w"; "outputs.zip"]
    = Ok (fs', ["w"; "outputs.zip"], [])
    /\ FS.is_dir fs' ["w"; "outputs"] = true
    /\ FS.read fs' ["w"; "outputs.zip"] = Ok EmptyString
    /\ FS.read fs' ["w"; "r"; "1.png"] = Ok "png".
Proof.
  destruct (build_outputs_zip_of_missing_directory
              entry_names
              (Dir [("w", Dir [("r", Dir [("1.png", File "png")])])])
              (Dir [("w", Dir [("r", Dir [("1.png", File "png")]);
                               ("outputs", Dir [])])])
              ["w"; "outputs"] ["w"; "outputs.zip"]
              eq_refl eq_refl eq_refl)
    as [fs' [B [D [_ [R K]]]]].
  - intros n. discriminate.
  - exists fs'. split; [exact B|]. split; [exact D|]. split; [exact R|].
    apply K; [discriminate | reflexivity].
Defined.

(* ================================================================= *)
(** ** _run_model: what is sent for a group *)

Lemma build_content_parts prompt images :
  _build_content prompt images = TextPart prompt :: map ImageUrlPart images.
Proof.
  unfold _build_content.
  assert (G : forall acc,
             fold_left (fun content image_data_url =>
                          content ++ [ImageUrlPart image_data_url]) images acc
             = acc ++ map ImageUrlPart images).
  { induction images as [|i images IH]; intros acc; simpl.
    - now rewrite app_nil_r.
    - rewrite IH, <- app_assoc. reflexivity. }
  apply (G [TextPart prompt]).
Qed.

Lemma prefix_of_append (x y : string) : String.prefix x (x ++ y) = true.
Proof.
  induction x as [|c x IH]; simpl; [now destruct y|].
  destruct (ascii_dec c c) as [_|N]; [exact IH | congruence].
Qed.

Section RunModelFacts.
Variable Service : Type.
Variable respond : Service -> request -> result string * Service.
Variable json_loads : string -> json_outcome.
Variable b64encode : string -> string.

(** The data URL of a page that is a regular file. *)
Lemma encode_pages_of_files fs pages :
  (forall p, In p pages -> FS.is_file fs p = true) ->
  exists urls,
    encode_pages b64encode fs pages = Ok urls
    /\ Forall2 (fun p url =>
                  exists bytes, FS.read fs p = Ok bytes
                    /\ url = ("data:image/png;base64," ++ b64encode bytes)%string)
               pages urls.
Proof.
  induction pages as [|p pages IH]; intros H; simpl.
  - exists []. split; [reflexivity | constructor].
  - destruct (proj1 (is_file_read fs p) (H p (or_introl eq_refl))) as [bytes R].
    destruct IH as [urls [E F]]; [intros q Hq; apply H; now right|].
    unfold encode_image_to_data_url. rewrite R. cbn [bind]. rewrite E. cbn [bind].
    eexists. split; [reflexivity|]. constructor; [|exact F].
    exists bytes. now split.
Qed.

Lemma encode_pages_unreadable fs pages p :
  In p pages -> FS.is_file fs p = false ->
  exists e, encode_pages b64encode fs pages = Err e.
Proof.
  induction pages as [|q pages IH]; intros Hin Hf; [destruct Hin|]. simpl.
  unfold encode_image_to_data_url.
  destruct (FS.read fs q) as [bytes|e] eqn:R; cbn [bind]; [|now exists e].
  destruct Hin as [-> | Hin].
  - assert (F : FS.is_file fs p = true) by (apply is_file_read; eauto).
    congruence.
  - destruct (IH Hin Hf) as [e E]. rewrite E. now exists e.
Qed.

(** The requests of a call whose pages could all be read: the opening
    one, in the mode of the format, then nothing or one repair
    request. *)
Lemma run_model_opening fs (llama : LlamaClient Service) receipt output_format urls :
  encode_pages b64encode fs (pages receipt) = Ok urls ->
  exists rest,
    sent (snd (_run_model Service respond json_loads b64encode fs llama
                 receipt output_format))
    = sent llama
      ++ {| mode := if String.eqb output_format "markdown"
                    then MarkdownMode else JsonMode;
            prompt := _build_prompt receipt output_format;
            images := urls |} :: rest
    /\ (rest = []
        \/ exists malformed,
             output_format <> "markdown"
             /\ json_loads malformed = JSONDecodeError
             /\ rest = [repair_request malformed]).
Proof.
  intros E. unfold _run_model. rewrite E.
  destruct (String.eqb_spec output_format "markdown") as [Hm|Hm].
  - unfold chat_markdown. rewrite chat_sends. exists []. split; [reflexivity | now left].
  - unfold chat_json. rewrite chat_sends.
    destruct (fst (respond (service llama) _)) as [response|e].
    2: { exists []. split; [reflexivity | now left]. }
    destruct (json_loads response) eqn:J.
    + exists []. split; [reflexivity | now left].
    + rewrite chat_sends. cbn [snd sent]. rewrite <- app_assoc.
      exists [repair_request response]. split; [reflexivity|].
      right. exists response. auto.
    + exists []. split; [reflexivity | now left].
Qed.

End RunModelFacts.

Lemma discover_receipts_ok_root fs root_dir groups :
  discover_receipts fs root_dir = Ok groups ->
  exists es, FS.lookup fs root_dir = Some (Dir es).
Proof.
  unfold discover_receipts, FS.iterdir.
  destruct (FS.lookup fs root_dir) as [[x|es|]|]; try discriminate. eauto.
Qed.

(** Every page of a discovered group qualifies: a regular file below the
    group's folder, with one of the two suffixes. *)
Lemma discovered_pages_qualify fs root_dir groups g p :
  discover_receipts fs root_dir = Ok groups ->
  In g groups -> In p (pages g) ->
  qualifies fs p = true
  /\ exists f, p = root_dir ++ [name g; f].
Proof.
  intros D Hg Hp. destruct (discover_receipts_ok_root _ _ _ D) as [es L].
  rewrite (discover_receipts_unfold fs root_dir es L) in D. injection D as <-.
  apply in_flat_map in Hg. destruct Hg as [entry [He Hg]].
  apply in_map_iff in He. destruct He as [d [<- _]].
  apply contribution_group in Hg. destruct Hg as [_ [Hn [Pg _]]].
  rewrite Pg in Hp. apply collect_pages_in in Hp. destruct Hp as [Hl Hq].
  split; [exact Hq|].
  destruct (glob_star_children _ _ _ Hl) as [f ->].
  exists f. rewrite Hn, name_child, <- app_assoc. reflexivity.
Qed.

(** A group that discovery returned can always be sent. Its opening
    request carries the prompt as the one text part, then one image
    part for each page, in page order, each the data URL of that page's
    file; a repair request, when there is one, carries text only. *)
Theorem run_model_sends_every_page_of_a_discovered_group :
  forall (Service : Type)
         (respond : Service -> request -> result string * Service)
         (json_loads : string -> json_outcome) (b64encode : string -> string)
         (fs : node) (root_dir : Path.t) (groups : list ReceiptGroup)
         (g : ReceiptGroup) (llama : LlamaClient Service)
         (output_format : string),
    discover_receipts fs root_dir = Ok groups ->
    In g groups ->
    exists urls opening rest,
      sent (snd (_run_model Service respond json_loads b64encode fs llama
                   g output_format))
      = sent llama ++ opening :: rest
      /\ request_content opening
         = TextPart (_build_prompt g output_format) :: map ImageUrlPart urls
      /\ List.length urls = page_count g
      /\ Forall2 (fun p url =>
                    exists bytes, FS.read fs p = Ok bytes
                      /\ url = ("data:image/png;base64,"
                                ++ b64encode bytes)%string)
                 (pages g) urls
      /\ (rest = []
          \/ exists malformed,
               rest = [repair_request malformed]
               /\ request_content (repair_request malformed)
                  = [TextPart (JSON_REPAIR_PROMPT ++ LF ++ LF ++ malformed)]).
Proof.
  intros Service respond json_loads b64encode fs root_dir groups g llama
         output_format D Hg.
  destruct (encode_pages_of_files b64encode fs (pages g)) as [urls [E F]].
  { intros p Hp. destruct (discovered_pages_qualify _ _ _ _ _ D Hg Hp) as [Q _].
    unfold qualifies in Q. now apply andb_true_iff in Q. }
  destruct (run_model_opening Service respond json_loads b64encode fs llama g
              output_format urls E) as [rest [S R]].
  eexists urls, _, rest. split; [exact S|].
  split; [apply build_content_parts|]. split; [|split; [exact F|]].
  - unfold page_count. symmetry. exact (Forall2_length F).
  - destruct R as [-> | [malformed [_ [_ ->]]]]; [now left|].
    right. exists malformed. split; [reflexivity | apply build_content_parts].
Qed.

Lemma run_model_sends_every_page_of_a_discovered_group_witness :
  exists urls opening rest,
    sent (snd (_run_model nat
                 (fun n _ => (Ok (if Nat.eqb n 0 then "not json" else "{}"), S n))
                 only_braces (fun s => s)
                 (Dir [("r", Dir [("2.png", File "two"); ("1.png", File "one")])])
                 {| service := 0; sent := [] |}
                 {| name := "r"; pages := [["r"; "1.png"]; ["r"; "2.png"]] |}
                 "json"))
    = [] ++ opening :: rest
    /\ request_content opening
       = TextPart (_build_prompt
                     {| name := "r"; pages := [["r"; "1.png"]; ["r"; "2.png"]] |}
                     "json")
         :: map ImageUrlPart urls
    /\ List.length urls = 2.
Proof.
  destruct (run_model_sends_every_page_of_a_discovered_group nat
              (fun n _ => (Ok (if Nat.eqb n 0 then "not json" else "{}"), S n))
              only_braces (fun s => s)
              (Dir [("r", Dir [("2.png", File "two"); ("1.png", File "one")])])
              []
              [{| name := "r"; pages := [["r"; "1.png"]; ["r"; "2.png"]] |}]
              {| name := "r"; pages := [["r"; "1.png"]; ["r"; "2.png"]] |}
              {| service := 0; sent := [] |} "json"
              eq_refl (or_introl eq_refl))
    as [urls [opening [rest [S [C [L _]]]]]].
  exists urls, opening, rest. split; [exact S|]. split; [exact C | exact L].
Defined.

(** When a page of the group is not a regular file that can be read, the
    call raises before anything is sent: the client and the service are
    as they were. *)
Theorem run_model_raises_before_sending_on_unreadable_page :
  forall (Service : Type)
         (respond : Service -> request -> result string * Service)
         (json_loads : string -> json_outcome) (b64encode : string -> string)
         (fs : node) (llama : LlamaClient Service) (receipt : ReceiptGroup)
         (output_format : string) (p : Path.t),
    In p (pages receipt) ->
    FS.is_file fs p = false ->
    exists e,
      _run_model Service respond json_loads b64encode fs llama receipt
        output_format = (Err e, llama).
Proof.
  intros Service respond json_loads b64encode fs llama receipt output_format
         p Hin Hf.
  destruct (encode_pages_unreadable b64encode fs (pages receipt) p Hin Hf)
    as [e E].
  exists e. unfold _run_model. now rewrite E.
Qed.

Lemma run_model_raises_before_sending_on_unreadable_page_witness :
  exists e,
    _run_model nat (fun n _ => (Ok "{}", S n)) only_braces (fun s => s)
      (Dir [("r", Dir [("1.png", File "one")])])
      {| service := 0; sent := [] |}
      {| name := "r"; pages := [["r"; "1.png"]; ["r"; "gone.png"]] |}
      "json"
    = (Err e, {| service := 0; sent := [] |}).
Proof.
  apply (run_model_raises_before_sending_on_unreadable_page nat
           (fun n _ => (Ok "{}", S n)) only_braces (fun s => s)
           (Dir [("r", Dir [("1.png", File "one")])])
           {| service := 0; sent := [] |}
           {| name := "r"; pages := [["r"; "1.png"]; ["r"; "gone.png"]] |}
           "json" ["r"; "gone.png"]).
  - right. now left.
  - reflexivity.
Defined.

(** In the markdown format one request is sent, with every page, and
    what the service answers is the result as it is: the JSON validity
    test plays no part, and there is no second request even when the
    answer is empty or the service fails. *)
Theorem run_model_markdown_single_request :
  forall (Service : Type)
         (respond : Service -> request -> result string * Service)
         (json_loads : string -> json_outcome) (b64encode : string -> string)
         (fs : node) (llama : LlamaClient Service) (receipt : ReceiptGroup)
         (urls : list string),
    encode_pages b64encode fs (pages receipt) = Ok urls ->
    let req := {| mode := MarkdownMode;
                  prompt := _build_prompt receipt "markdown";
                  images := urls |} in
    _run_model Service respond json_loads b64encode fs llama receipt "markdown"
    = (fst (respond (service llama) req),
       {| service := snd (respond (service llama) req);
          sent := sent llama ++ [req] |})
    /\ String.prefix MARKDOWN_INSTRUCTION (prompt req) = true.
Proof.
  intros Service respond json_loads b64encode fs llama receipt urls E req.
  split.
  - unfold _run_model. rewrite E. simpl String.eqb. cbv iota.
    unfold chat_markdown. now rewrite chat_sends.
  - unfold req, _build_prompt. cbn [prompt]. simpl String.eqb. cbv iota.
    apply prefix_of_append.
Qed.

Lemma run_model_markdown_single_request_witness :
  _run_model nat (fun n _ => (Ok "# r", S n)) (fun _ => JSONDecodeError) (fun s => s)
    (Dir [("r", Dir [("1.png", File "one")])])
    {| service := 0; sent := [] |}
    {| name := "r"; pages := [["r"; "1.png"]] |} "markdown"
  = (Ok "# r",
     {| service := 1;
        sent := [{| mode := MarkdownMode;
                    prompt := _build_prompt
                                {| name := "r"; pages := [["r"; "1.png"]] |}
                                "markdown";
                    images := ["data:image/png;base64,one"] |}] |}).
Proof.
  exact (proj1 (run_model_markdown_single_request nat
                  (fun n _ => (Ok "# r", S n)) (fun _ => JSONDecodeError) (fun s => s)
                  (Dir [("r", Dir [("1.png", File "one")])])
                  {| service := 0; sent := [] |}
                  {| name := "r"; pages := [["r"; "1.png"]] |}
                  ["data:image/png;base64,one"] eq_refl)).
Defined.

(* ================================================================= *)
(** ** list_receipt_table and the formats *)

Lemma Permutation_filter_same {A : Type} (f : A -> bool) l l' :
  Permutation l l' -> Permutation (filter f l) (filter f l').
Proof.
  induction 1 as [|x l l' P IH|x y l|l l' l'' P1 IH1 P2 IH2]; simpl.
  - constructor.
  - destruct (f x); [now constructor | exact IH].
  - destruct (f x), (f y); try reflexivity. apply perm_swap.
  - now transitivity (filter f l').
Qed.

Lemma collect_pages_count fs listing :
  List.length (collect_pages fs listing)
  = List.length (filter (qualifies fs) listing).
Proof.
  unfold collect_pages, py_sorted_key. apply Permutation_length.
  apply Permutation_filter_same. apply py_sorted_perm.
Qed.

(** The table shown for a discovered root has one row for each group, in
    the groups' order, ascending by name; the count of a row is
    positive and is the number of qualifying files in the folder of
    that name. *)
Theorem list_receipt_table_of_discovery :
  forall (fs : node) (root_dir : Path.t) (groups : list ReceiptGroup),
    discover_receipts fs root_dir = Ok groups ->
    map fst (list_receipt_table groups) = map name groups
    /\ StronglySorted (fun a b => String.leb a b = true)
         (map fst (list_receipt_table groups))
    /\ (forall row, In row (list_receipt_table groups) ->
          FS.is_dir fs (root_dir ++ [fst row]) = true
          /\ 0 < snd row
          /\ snd row
             = List.length
                 (filter (qualifies fs)
                    (FS.glob_star fs (root_dir ++ [fst row])))).
Proof.
  intros fs root_dir groups D.
  assert (T : map fst (list_receipt_table groups) = map name groups).
  { unfold list_receipt_table. rewrite map_map. reflexivity. }
  destruct (discover_receipts_ok_root _ _ _ D) as [es L].
  rewrite (discover_receipts_unfold fs root_dir es L) in D. injection D as <-.
  split; [exact T|]. split.
  - rewrite T, contribution_names.
    apply StronglySorted_filter, OrderFacts.sorted_names_ascending.
  - intros row Hrow. unfold list_receipt_table in Hrow.
    apply in_map_iff in Hrow. destruct Hrow as [g [<- Hg]]. simpl.
    apply in_flat_map in Hg. destruct Hg as [entry [He Hg]].
    apply in_map_iff in He. destruct He as [d [<- _]].
    apply contribution_group in Hg. destruct Hg as [Hd [Hn [Pg Hne]]].
    rewrite name_child in Hn. rewrite Hn.
    split; [exact Hd|]. unfold page_count. rewrite Pg at 2.
    rewrite collect_pages_count. split; [|reflexivity].
    destruct (pages g); [congruence | simpl; lia].
Qed.

Lemma list_receipt_table_of_discovery_witness :
  map fst
    (list_receipt_table
       [{| name := "B"; pages := [["B"; "cover.PNG"]] |};
        {| name := "b"; pages := [["b"; "1.png"]; ["b"; "2.png"]] |}])
  = ["B"; "b"]
  /\ forall row,
       In row
         (list_receipt_table
            [{| name := "B"; pages := [["B"; "cover.PNG"]] |};
             {| name := "b"; pages := [["b"; "1.png"]; ["b"; "2.png"]] |}]) ->
       0 < snd row.
Proof.
  destruct (list_receipt_table_of_discovery
              (Dir [("b", Dir [("2.png", File "png"); ("1.png", File "png");
                               ("notes.txt", File "")]);
                    ("empty", Dir [("notes.txt", File "")]);
                    ("B", Dir [("cover.PNG", File "png")])])
              []
              [{| name := "B"; pages := [["B"; "cover.PNG"]] |};
               {| name := "b"; pages := [["b"; "1.png"]; ["b"; "2.png"]] |}]
              eq_refl) as [T [_ R]].
  split; [exact T|]. intros row Hrow. now apply R.
Defined.

(** The format string decides the instruction, the way the service is
    asked and the file extension together: all three are the markdown
    ones for the string [markdown] and the JSON ones for every other
    string. *)
Theorem output_format_is_markdown_or_json_throughout :
  forall (Service : Type)
         (respond : Service -> request -> result string * Service)
         (json_loads : string -> json_outcome) (b64encode : string -> string)
         (fs : node) (llama : LlamaClient Service) (receipt : ReceiptGroup)
         (output_format : string),
    exists new,
      sent (snd (_run_model Service respond json_loads b64encode fs llama
                   receipt output_format))
      = sent llama ++ new
      /\ ((output_format = "markdown"
           /\ String.prefix MARKDOWN_INSTRUCTION
                (_build_prompt receipt output_format) = true
           /\ Forall (fun r => mode r = MarkdownMode) new
           /\ output_ext output_format = "md")
          \/ (output_format <> "markdown"
              /\ String.prefix JSON_INSTRUCTION
                   (_build_prompt receipt output_format) = true
              /\ Forall (fun r => mode r = JsonMode) new
              /\ output_ext output_format = "json")).
Proof.
  intros Service respond json_loads b64encode fs llama receipt output_format.
  assert (N : exists new,
             sent (snd (_run_model Service respond json_loads b64encode fs
                          llama receipt output_format)) = sent llama ++ new
             /\ Forall (fun r => mode r
                                 = if String.eqb output_format "markdown"
                                   then MarkdownMode else JsonMode) new).
  { destruct (encode_pages b64encode fs (pages receipt)) as [urls|e] eqn:E.
    - destruct (run_model_opening Service respond json_loads b64encode fs
                  llama receipt output_format urls E) as [rest [S R]].
      eexists. split; [exact S|]. constructor; [reflexivity|].
      destruct R as [-> | [malformed [Hm [_ ->]]]]; [constructor|].
      constructor; [|constructor].
      now destruct (String.eqb_spec output_format "markdown").
    - exists []. unfold _run_model. rewrite E. simpl.
      split; [now rewrite app_nil_r | constructor]. }
  destruct N as [new [S F]]. exists new. split; [exact S|].
  unfold _build_prompt, output_ext.
  destruct (String.eqb_spec output_format "markdown") as [Hm|Hm].
  - left. split; [exact Hm|]. split; [apply prefix_of_append|].
    split; [exact F | reflexivity].
  - right. split; [exact Hm|]. split; [apply prefix_of_append|].
    split; [exact F | reflexivity].
Qed.

(* ================================================================= *)
(** ** convert_selected *)

Module DictFacts.

Lemma dict_get_set_eq k v d : dict_get k (dict_set k v d) = Some v.
Proof.
  induction d as [|[k' v'] d IH]; simpl.
  - now rewrite String.eqb_refl.
  - destruct (String.eqb k k') eqn:E; simpl; rewrite E; [reflexivity | exact IH].
Qed.

Lemma dict_get_set_neq k k' v d :
  k' <> k -> dict_get k' (dict_set k v d) = dict_get k' d.
Proof.
  intros Hne. induction d as [|[k0 v0] d IH]; simpl.
  - now destruct (String.eqb_spec k' k).
  - destruct (String.eqb_spec k k0) as [<-|E]; simpl.
    + now destruct (String.eqb_spec k' k).
    + destruct (String.eqb k' k0); [reflexivity | exact IH].
Qed.

Lemma fold_dict_get receipts : forall d n r,
  dict_get n (fold_left (fun d r => dict_set (name r) r d) receipts d) = Some r ->
  (In r receipts /\ name r = n) \/ dict_get n d = Some r.
Proof.
  induction receipts as [|x receipts IH]; intros d n r H; simpl in *; [now right|].
  destruct (IH _ _ _ H) as [[Hin Hn] | Hd]; [left; auto|].
  destruct (String.eqb_spec n (name x)) as [->|Hne].
  - rewrite dict_get_set_eq in Hd. injection Hd as <-. left. auto.
  - rewrite (dict_get_set_neq _ _ _ _ Hne) in Hd. now right.
Qed.

Lemma fold_dict_known receipts : forall d n,
  In n (map name receipts) \/ (exists r, dict_get n d = Some r) ->
  exists r, dict_get n (fold_left (fun d r => dict_set (name r) r d) receipts d)
            = Some r.
Proof.
  induction receipts as [|x receipts IH]; intros d n H; simpl in *.
  - destruct H as [[] | H]; exact H.
  - apply IH. destruct H as [[<- | Hin] | [r Hr]].
    + right. exists x. apply dict_get_set_eq.
    + now left.
    + right. destruct (String.eqb_spec n (name x)) as [->|Hne].
      * exists x. apply dict_get_set_eq.
      * exists r. now rewrite (dict_get_set_neq _ _ _ _ Hne).
Qed.

(** The dictionary answers a name with a group of that name, and it
    knows exactly the names of the groups. *)
Lemma receipt_dict_get receipts n r :
  dict_get n (receipt_dict receipts) = Some r -> In r receipts /\ name r = n.
Proof.
  intros H. destruct (fold_dict_get receipts [] n r H) as [H' | H'];
    [exact H' | discriminate].
Qed.

Lemma receipt_dict_known receipts n :
  in_set n (map name receipts)
  = match dict_get n (receipt_dict receipts) with
    | Some _ => true
    | None => false
    end.
Proof.
  destruct (dict_get n (receipt_dict receipts)) as [r|] eqn:E.
  - apply receipt_dict_get in E. destruct E as [Hin <-].
    unfold in_set. apply existsb_exists. exists (name r).
    split; [now apply in_map | apply String.eqb_refl].
  - unfold in_set. destruct (existsb (String.eqb n) (map name receipts)) eqn:X;
      [|reflexivity].
    apply existsb_exists in X. destruct X as [m [Hm Em]].
    apply String.eqb_eq in Em. subst m.
    destruct (fold_dict_known receipts [] n (or_introl Hm)) as [r Hr].
    unfold receipt_dict in E. congruence.
Qed.

End DictFacts.

Section ConvertFacts.
Variable Service : Type.
Variable respond : Service -> request -> result string * Service.
Variable json_loads : string -> json_outcome.
Variable b64encode : string -> string.

(** Names the dictionary does not know are passed over. *)
Lemma convert_loop_skips fs llama receipt_map selected fmt dir preview :
  convert_loop Service respond json_loads b64encode fs llama receipt_map selected fmt dir preview
  = convert_loop Service respond json_loads b64encode fs llama receipt_map
      (filter (fun n => match dict_get n receipt_map with
                        | Some _ => true
                        | None => false
                        end) selected)
      fmt dir preview.
Proof.
  revert fs llama preview.
  induction selected as [|n rest IH]; intros fs llama preview; [reflexivity|].
  cbn [filter]. destruct (dict_get n receipt_map) as [r|] eqn:E.
  - cbn [convert_loop]. rewrite E.
    destruct (_run_model Service respond json_loads b64encode fs llama r fmt) as [[result|e] llama']; [|reflexivity].
    destruct (write_output fs (name r) result fmt dir) as [[fs' path]|e];
      [apply IH | reflexivity].
  - cbn [convert_loop]. rewrite E. apply IH.
Qed.

(** The loop over a list is the loop over its first part, then, if that
    ended normally, over the rest. *)
Lemma convert_loop_app fs llama receipt_map before after fmt dir preview :
  convert_loop Service respond json_loads b64encode fs llama receipt_map (before ++ after) fmt dir preview
  = match convert_loop Service respond json_loads b64encode fs llama receipt_map before fmt dir preview with
    | (Done (preview', fs'), llama') =>
        convert_loop Service respond json_loads b64encode fs' llama' receipt_map after fmt dir preview'
    | (Raised e, llama') => (Raised e, llama')
    end.
Proof.
  revert fs llama preview.
  induction before as [|n rest IH]; intros fs llama preview; [reflexivity|].
  cbn [app convert_loop]. destruct (dict_get n receipt_map) as [r|]; [|apply IH].
  destruct (_run_model Service respond json_loads b64encode fs llama r fmt) as [[result|e] llama']; [|reflexivity].
  destruct (write_output fs (name r) result fmt dir) as [[fs' path]|e];
    [apply IH | reflexivity].
Qed.

Lemma run_model_new_requests fs (llama : LlamaClient Service) receipt fmt :
  exists new,
    sent (snd (_run_model Service respond json_loads b64encode fs llama receipt fmt)) = sent llama ++ new
    /\ List.length new <= 2
    /\ (fmt = "markdown" -> List.length new <= 1).
Proof.
  destruct (encode_pages b64encode fs (pages receipt)) as [urls|e] eqn:E.
  - destruct (run_model_opening Service respond json_loads b64encode fs llama
                receipt fmt urls E) as [rest [S R]].
    eexists. split; [exact S|].
    destruct R as [-> | [malformed [Hm [_ ->]]]]; simpl.
    + split; [lia | intros _; lia].
    + split; [lia | intros Hf; contradiction].
  - exists []. unfold _run_model. rewrite E. simpl.
    split; [now rewrite app_nil_r|]. split; [lia | intros _; lia].
Qed.

Lemma convert_loop_requests fs llama receipt_map selected fmt dir preview :
  exists new,
    sent (snd (convert_loop Service respond json_loads b64encode fs llama receipt_map selected fmt dir preview))
    = sent llama ++ new
    /\ List.length new <= 2 * List.length selected
    /\ (fmt = "markdown" -> List.length new <= List.length selected).
Proof.
  revert fs llama preview.
  induction selected as [|n rest IH]; intros fs llama preview.
  - exists []. simpl. split; [now rewrite app_nil_r|]. split; [lia | intros _; lia].
  - cbn [convert_loop]. destruct (dict_get n receipt_map) as [r|].
    + destruct (run_model_new_requests fs llama r fmt) as [new1 [S1 [L1 M1]]].
      destruct (_run_model Service respond json_loads b64encode fs llama r fmt) as [[result|e] llama'] eqn:R; simpl in S1.
      * destruct (write_output fs (name r) result fmt dir) as [[fs' path]|e].
        -- destruct (IH fs' llama'
                       ("# " ++ name r ++ LF ++ LF ++ substring 0 5000 result)%string)
             as [new2 [S2 [L2 M2]]].
           exists (new1 ++ new2). rewrite S2, S1, <- app_assoc.
           split; [reflexivity|]. rewrite List.length_app. simpl.
           split; [lia|]. intros Hf. specialize (M1 Hf). specialize (M2 Hf). lia.
        -- exists new1. simpl. split; [exact S1|].
           split; [lia|]. intros Hf. specialize (M1 Hf). lia.
      * exists new1. simpl. split; [exact S1|].
        split; [lia|]. intros Hf. specialize (M1 Hf). lia.
    + destruct (IH fs llama preview) as [new [S [L M]]].
      exists new. split; [exact S|]. simpl.
      split; [lia|]. intros Hf. specialize (M Hf). lia.
Qed.

(** A loop that ended normally changed no regular file but the files
    of the known names it went through; directories stayed. *)
Lemma convert_loop_frame fs llama receipt_map selected fmt dir preview
      preview' fs' llama' :
  (forall n r, dict_get n receipt_map = Some r -> name r = n) ->
  convert_loop Service respond json_loads b64encode fs llama receipt_map selected fmt dir preview
  = (Done (preview', fs'), llama') ->
  (forall q c,
      FS.read fs q = Ok c ->
      (forall n, In n selected -> q <> output_file n fmt dir) ->
      FS.read fs' q = Ok c)
  /\ (forall q, FS.is_dir fs q = true -> FS.is_dir fs' q = true).
Proof.
  intros Hkey. revert fs llama preview.
  induction selected as [|n rest IH]; intros fs llama preview H.
  - simpl in H. injection H as _ <- _. auto.
  - cbn [convert_loop] in H. destruct (dict_get n receipt_map) as [r|] eqn:E.
    + destruct (_run_model Service respond json_loads b64encode fs llama r fmt) as [[result|e] llama1]; [|discriminate].
      destruct (write_output fs (name r) result fmt dir) as [[fs1 path]|e] eqn:W;
        [|discriminate].
      destruct (FrameFacts.write_output_ok _ _ _ _ _ _ _ W) as [P [_ [K [D _]]]].
      destruct (IH _ _ _ H) as [K' D']. split.
      * intros q c R Hq. apply K'; [|intros m Hm; apply Hq; now right].
        apply K; [|exact R]. rewrite P.
        rewrite (Hkey n r E). apply Hq. now left.
      * intros q Hd. apply D'. now apply D.
    + destruct (IH _ _ _ H) as [K' D']. split.
      * intros q c R Hq. apply K'; [exact R|]. intros m Hm. apply Hq. now right.
      * exact D'.
Qed.

End ConvertFacts.

(** *** Output files are never page files *)

Lemma rfind_dot_before_ext s fmt :
  Path.rfind "." (s ++ "." ++ output_ext fmt) = Some (String.length s).
Proof.
  induction s as [|a s IH].
  - destruct (output_ext_cases fmt) as [-> | ->]; reflexivity.
  - change ((String a s ++ "." ++ output_ext fmt)%string)
      with (String a (s ++ "." ++ output_ext fmt)).
    cbn [Path.rfind]. now rewrite IH.
Qed.

Lemma substring_after_prefix s t n :
  substring (String.length s) n (s ++ t) = substring 0 n t.
Proof. induction s as [|a s IH]; simpl; [reflexivity | exact IH]. Qed.

Lemma output_name_suffix s fmt :
  Path.suffix_of (s ++ "." ++ output_ext fmt) = EmptyString
  \/ Path.suffix_of (s ++ "." ++ output_ext fmt)
     = ("." ++ output_ext fmt)%string.
Proof.
  unfold Path.suffix_of. rewrite rfind_dot_before_ext.
  destruct ((0 <? String.length s)
            && (String.length s <? String.length (s ++ "." ++ output_ext fmt) - 1))%nat;
    [|now left].
  right. rewrite substring_after_prefix, length_app.
  replace (String.length s + String.length ("." ++ output_ext fmt)
           - String.length s)
    with (String.length ("." ++ output_ext fmt)) by lia.
  destruct (output_ext_cases fmt) as [-> | ->]; reflexivity.
Qed.

Lemma output_file_is_no_page fs n fmt dir :
  qualifies fs (output_file n fmt dir) = false.
Proof.
  unfold qualifies, output_file, Path.suffix. rewrite name_child.
  destruct (output_name_suffix (sanitize_filename n) fmt) as [-> | ->].
  - apply andb_false_r.
  - destruct (output_ext_cases fmt) as [-> | ->]; apply andb_false_r.
Qed.

(** *** Paths below the working directory *)

Lemma collapse_snoc ps : forall stack c,
  String.eqb c ".." = false ->
  Path.collapse stack (ps ++ [c]) = Path.collapse stack ps ++ [c].
Proof.
  induction ps as [|p ps IH]; intros stack c Hc; simpl.
  - now rewrite Hc.
  - destruct (String.eqb p ".."); now apply IH.
Qed.

Lemma outputs_below_workdir cwd tempdir :
  Path.resolve cwd (Path.joinpath (Path.parse tempdir) (Path.parse "outputs"))
  = Path.resolve cwd (Path.parse tempdir) ++ ["outputs"].
Proof.
  unfold Path.resolve, Path.joinpath. simpl Path.anchored. cbv iota.
  cbn [Path.anchored Path.parts]. simpl (Path.parts (Path.parse "outputs")).
  rewrite app_assoc. now apply collapse_snoc.
Qed.

Lemma archive_beside_outputs cwd tempdir :
  Path.resolve cwd
    (Path.joinpath (Path.parse tempdir) (Path.parse "outputs.zip"))
  = Path.resolve cwd (Path.parse tempdir) ++ ["outputs.zip"].
Proof.
  unfold Path.resolve, Path.joinpath. simpl Path.anchored. cbv iota.
  cbn [Path.anchored Path.parts].
  simpl (Path.parts (Path.parse "outputs.zip")).
  rewrite app_assoc. now apply collapse_snoc.
Qed.

Lemma output_is_not_archive (workdir : Path.t) n :
  (workdir ++ ["outputs"]) ++ [n] <> workdir ++ ["outputs.zip"].
Proof.
  rewrite <- app_assoc. intros E. apply app_inv_head in E. discriminate E.
Qed.

Section ConvertSelectedFacts.
Variable Service : Type.
Variable respond : Service -> request -> result string * Service.
Variable json_loads : string -> json_outcome.
Variable b64encode : string -> string.
Variable archive_bytes : bool -> archive -> string.
Variable cwd : Path.t.

Lemma substring_length_bound n s : String.length (substring 0 n s) <= n.
Proof.
  revert s. induction n as [|n IH]; intros [|c s]; simpl; try lia.
  specialize (IH s). lia.
Qed.

(** The preview a loop ends with.  When no name was known nothing
    changed at all; else the preview is the one of the last known name,
    made from what the model run for it returned in the state the loop
    had reached, and the client is as that run left it. *)
Lemma convert_loop_preview receipt_map selected fmt dir :
  forall fs llama preview preview' fs' llama',
  convert_loop Service respond json_loads b64encode fs llama receipt_map
    selected fmt dir preview = (Done (preview', fs'), llama') ->
  (preview' = preview /\ fs' = fs /\ llama' = llama
   /\ forall n, In n selected -> dict_get n receipt_map = None)
  \/ exists before n after r result preview0 fs0 llama0,
       selected = before ++ n :: after
       /\ (forall m, In m after -> dict_get m receipt_map = None)
       /\ dict_get n receipt_map = Some r
       /\ convert_loop Service respond json_loads b64encode fs llama
            receipt_map before fmt dir preview
          = (Done (preview0, fs0), llama0)
       /\ _run_model Service respond json_loads b64encode fs0 llama0 r fmt
          = (Ok result, llama')
       /\ preview' = ("# " ++ name r ++ LF ++ LF ++ substring 0 5000 result)%string.
Proof.
  induction selected as [|n rest IH]; intros fs llama preview preview' fs' llama' H.
  - cbn [convert_loop] in H. injection H as <- <- <-. left.
    repeat split. intros n [].
  - cbn [convert_loop] in H. destruct (dict_get n receipt_map) as [r|] eqn:E.
    + destruct (_run_model Service respond json_loads b64encode fs llama r fmt)
        as [[result|e] llama1] eqn:R; [|discriminate].
      destruct (write_output fs (name r) result fmt dir) as [[fs1 path]|e] eqn:W;
        [|discriminate].
      right. destruct (IH _ _ _ _ _ _ H)
        as [[-> [-> [-> U]]]
           | [before [m [after [r' [result' [pv0 [fs0 [l0
               [-> [U [E' [B [R' ->]]]]]]]]]]]]]].
      * exists [], n, rest, r, result, preview, fs, llama.
        repeat split; try assumption.
      * exists (n :: before), m, after, r', result', pv0, fs0, l0.
        repeat split; try assumption.
        cbn [convert_loop]. now rewrite E, R, W.
    + destruct (IH _ _ _ _ _ _ H)
        as [[-> [-> [-> U]]]
           | [before [m [after [r' [result' [pv0 [fs0 [l0
               [-> [U [E' [B [R' ->]]]]]]]]]]]]]].
      * left. repeat split. intros m [<- | Hm]; [exact E | now apply U].
      * right. exists (n :: before), m, after, r', result', pv0, fs0, l0.
        repeat split; try assumption.
        cbn [convert_loop]. now rewrite E.
Qed.

End ConvertSelectedFacts.

Section ConvertSelectedSteps.
Variable Service : Type.
Variable respond : Service -> request -> result string * Service.
Variable json_loads : string -> json_outcome.
Variable b64encode : string -> string.
Variable archive_bytes : bool -> archive -> string.
Variable cwd : Path.t.

(** With a working directory and a selection, [convert_selected] is its
    loop followed by the packaging of [outputs] below the working
    directory. *)
Lemma convert_selected_unfold fs service0 tempdir selected fmt receipts :
  tempdir <> EmptyString ->
  discover_receipts fs (Path.resolve cwd (Path.parse tempdir)) = Ok receipts ->
  selected <> [] ->
  convert_selected Service respond json_loads b64encode archive_bytes cwd fs service0
    tempdir selected fmt
  = match convert_loop Service respond json_loads b64encode fs
            {| service := service0; sent := [] |}
            (receipt_dict receipts) selected fmt
            (Path.resolve cwd (Path.parse tempdir) ++ ["outputs"])
            EmptyString with
    | (Done (last_preview, fs'), llama') =>
        match build_outputs_zip archive_bytes fs'
                (Path.resolve cwd (Path.parse tempdir) ++ ["outputs"])
                (Path.resolve cwd
                   (Path.joinpath (Path.parse tempdir)
                      (Path.parse "outputs.zip"))) with
        | Ok (fs'', zip_path, zf) =>
            (Done (last_preview,
                   path_text (Path.joinpath (Path.parse tempdir)
                                (Path.parse "outputs.zip")),
                   fs'', zf), llama')
        | Err e => (Raised (Uncaught e), llama')
        end
    | (Raised e, llama') => (Raised e, llama')
    end.
Proof.
  intros Ht Hd Hs. unfold convert_selected.
  destruct (String.eqb_spec tempdir EmptyString) as [E|_]; [contradiction|].
  rewrite Hd. destruct selected as [|a sel]; [contradiction|].
  cbv zeta. rewrite outputs_below_workdir. reflexivity.
Qed.

(** A regular file stays a regular file through the loop. *)
Lemma convert_loop_files_stay fs llama receipt_map selected fmt dir preview
      preview' fs' llama' :
  convert_loop Service respond json_loads b64encode fs llama receipt_map
    selected fmt dir preview = (Done (preview', fs'), llama') ->
  forall q c, FS.read fs q = Ok c -> exists c', FS.read fs' q = Ok c'.
Proof.
  revert fs llama preview.
  induction selected as [|n rest IH]; intros fs llama preview H q c R.
  - simpl in H. injection H as _ <- _. now exists c.
  - cbn [convert_loop] in H. destruct (dict_get n receipt_map) as [r|].
    + destruct (_run_model Service respond json_loads b64encode fs llama r fmt)
        as [[result|e] llama1]; [|discriminate].
      destruct (write_output fs (name r) result fmt dir) as [[fs1 path]|e] eqn:W;
        [|discriminate].
      destruct (FrameFacts.write_output_ok _ _ _ _ _ _ _ W) as [P [Wr [K _]]].
      destruct (list_eq_dec string_dec q path) as [->|Hne].
      * exact (IH _ _ _ H _ _ Wr).
      * exact (IH _ _ _ H _ _ (K _ _ Hne R)).
    + exact (IH _ _ _ H _ _ R).
Qed.

(** After the loop every known selected name has its output file. *)
Lemma convert_loop_writes fs llama receipt_map selected fmt dir preview
      preview' fs' llama' :
  (forall n r, dict_get n receipt_map = Some r -> name r = n) ->
  convert_loop Service respond json_loads b64encode fs llama receipt_map
    selected fmt dir preview = (Done (preview', fs'), llama') ->
  forall n r, In n selected -> dict_get n receipt_map = Some r ->
    exists d, FS.read fs' (output_file n fmt dir) = Ok d.
Proof.
  intros Hkey. revert fs llama preview.
  induction selected as [|m rest IH]; intros fs llama preview H n r Hin E;
    [destruct Hin|].
  cbn [convert_loop] in H. destruct Hin as [-> | Hin].
  - rewrite E in H.
    destruct (_run_model Service respond json_loads b64encode fs llama r fmt)
      as [[result|e] llama1]; [|discriminate].
    destruct (write_output fs (name r) result fmt dir) as [[fs1 path]|e] eqn:W;
      [|discriminate].
    destruct (FrameFacts.write_output_ok _ _ _ _ _ _ _ W) as [P [Wr _]].
    rewrite P, (Hkey _ _ E) in Wr.
    exact (convert_loop_files_stay _ _ _ _ _ _ _ _ _ _ H _ _ Wr).
  - destruct (dict_get m receipt_map) as [r'|].
    + destruct (_run_model Service respond json_loads b64encode fs llama r' fmt)
        as [[result|e] llama1]; [|discriminate].
      destruct (write_output fs (name r') result fmt dir) as [[fs1 path]|e];
        [|discriminate].
      exact (IH _ _ _ H _ _ Hin E).
    + exact (IH _ _ _ H _ _ Hin E).
Qed.

End ConvertSelectedSteps.

Lemma filter_all_false {A : Type} (f : A -> bool) l :
  (forall x, In x l -> f x = false) -> filter f l = [].
Proof.
  induction l as [|x l IH]; intros H; simpl; [reflexivity|].
  rewrite (H x (or_introl eq_refl)). apply IH. intros y Hy. apply H. now right.
Qed.

Lemma filter_filter_same {A : Type} (f g : A -> bool) l :
  (forall x, f x = g x) -> filter f (filter g l) = filter f l.
Proof.
  intros H. induction l as [|x l IH]; simpl; [reflexivity|].
  destruct (g x) eqn:G; simpl; rewrite H, G; [now rewrite IH | exact IH].
Qed.

(** Selected names that are no discovered group change nothing: as long
    as one selected name is a group, converting the selection is
    converting its names that are groups, in their order: the same
    requests, the same files, the same preview and archive, or the same
    error. *)
Theorem convert_selected_passes_over_unknown_names :
  forall (Service : Type)
         (respond : Service -> request -> result string * Service)
         (json_loads : string -> json_outcome) (b64encode : string -> string)
         (archive_bytes : bool -> archive -> string) (cwd : Path.t)
         (fs : node) (service0 : Service)
         (tempdir : string) (selected : list string) (fmt : string)
         (receipts : list ReceiptGroup),
    discover_receipts fs (Path.resolve cwd (Path.parse tempdir)) = Ok receipts ->
    filter (fun n => in_set n (map name receipts)) selected <> [] ->
    convert_selected Service respond json_loads b64encode archive_bytes cwd fs service0
      tempdir selected fmt
    = convert_selected Service respond json_loads b64encode archive_bytes cwd fs service0
        tempdir (filter (fun n => in_set n (map name receipts)) selected) fmt.
Proof.
  intros Service respond json_loads b64encode archive_bytes cwd fs service0 tempdir
         selected fmt receipts Hd Hf.
  destruct (String.eqb_spec tempdir EmptyString) as [->|Ht]; [reflexivity|].
  assert (Hs : selected <> []) by (intros ->; now apply Hf).
  rewrite (convert_selected_unfold Service respond json_loads b64encode archive_bytes cwd
             fs service0 tempdir selected fmt receipts Ht Hd Hs).
  rewrite (convert_selected_unfold Service respond json_loads b64encode archive_bytes cwd
             fs service0 tempdir _ fmt receipts Ht Hd Hf).
  rewrite (convert_loop_skips Service respond json_loads b64encode fs _
             (receipt_dict receipts) selected).
  rewrite (convert_loop_skips Service respond json_loads b64encode fs _
             (receipt_dict receipts)
             (filter (fun n => in_set n (map name receipts)) selected)).
  rewrite filter_filter_same; [reflexivity|].
  intros n. symmetry. apply DictFacts.receipt_dict_known.
Qed.

Lemma convert_selected_passes_over_unknown_names_witness :
  convert_selected nat (fun n _ => (Ok "# r", S n)) (fun _ => JSONDecodeError)
    (fun s => s) entry_names [] (Dir [("w", Dir [("r", Dir [("1.png", File "one")])])])
    0 "/w" ["x"; "r"; "y"] "markdown"
  = convert_selected nat (fun n _ => (Ok "# r", S n)) (fun _ => JSONDecodeError)
      (fun s => s) entry_names [] (Dir [("w", Dir [("r", Dir [("1.png", File "one")])])])
      0 "/w" ["r"] "markdown".
Proof.
  apply (convert_selected_passes_over_unknown_names nat
           (fun n _ => (Ok "# r", S n)) (fun _ => JSONDecodeError) (fun s => s) entry_names []
           (Dir [("w", Dir [("r", Dir [("1.png", File "one")])])])
           0 "/w" ["x"; "r"; "y"] "markdown"
           [{| name := "r"; pages := [["w"; "r"; "1.png"]] |}]).
  - reflexivity.
  - discriminate.
Defined.

(** A selection none of whose names is a discovered group is no error,
    unlike the empty selection: no request is sent, the preview is
    empty, and the result is that of packaging the outputs directory as
    it stands. *)
Theorem convert_selected_with_no_known_name :
  forall (Service : Type)
         (respond : Service -> request -> result string * Service)
         (json_loads : string -> json_outcome) (b64encode : string -> string)
         (archive_bytes : bool -> archive -> string) (cwd : Path.t)
         (fs : node) (service0 : Service)
         (tempdir : string) (selected : list string) (fmt : string)
         (receipts : list ReceiptGroup),
    tempdir <> EmptyString ->
    discover_receipts fs (Path.resolve cwd (Path.parse tempdir)) = Ok receipts ->
    selected <> [] ->
    (forall n, In n selected -> in_set n (map name receipts) = false) ->
    convert_selected Service respond json_loads b64encode archive_bytes cwd fs service0
      tempdir selected fmt
    = match build_outputs_zip archive_bytes fs
              (Path.resolve cwd (Path.parse tempdir) ++ ["outputs"])
              (Path.resolve cwd
                 (Path.joinpath (Path.parse tempdir)
                    (Path.parse "outputs.zip"))) with
      | Ok (fs', zip_path, zf) =>
          (Done (EmptyString,
                 path_text (Path.joinpath (Path.parse tempdir)
                              (Path.parse "outputs.zip")),
                 fs', zf),
           {| service := service0; sent := [] |})
      | Err e =>
          (Raised (Uncaught e), {| service := service0; sent := [] |})
      end.
Proof.
  intros Service respond json_loads b64encode archive_bytes cwd fs service0 tempdir
         selected fmt receipts Ht Hd Hs Hu.
  rewrite (convert_selected_unfold Service respond json_loads b64encode archive_bytes cwd
             fs service0 tempdir selected fmt receipts Ht Hd Hs).
  rewrite convert_loop_skips, filter_all_false; [reflexivity|].
  intros n Hn. rewrite <- DictFacts.receipt_dict_known. now apply Hu.
Qed.

Lemma convert_selected_with_no_known_name_witness :
  convert_selected nat (fun n _ => (Ok "# r", S n)) (fun _ => JSONDecodeError)
    (fun s => s) entry_names []
    (Dir [("w", Dir [("r", Dir [("1.png", File "one")]);
                     ("outputs", Dir [("old.md", File "old")])])])
    0 "/w" ["x"] "markdown"
  = (Done (EmptyString, "/w/outputs.zip",
           Dir [("w", Dir [("r", Dir [("1.png", File "one")]);
                           ("outputs", Dir [("old.md", File "old")]);
                           ("outputs.zip", File "old.md")])],
           [("old.md", "old")]),
     {| service := 0; sent := [] |}).
Proof.
  apply (convert_selected_with_no_known_name nat
           (fun n _ => (Ok "# r", S n)) (fun _ => JSONDecodeError) (fun s => s) entry_names []
           (Dir [("w", Dir [("r", Dir [("1.png", File "one")]);
                            ("outputs", Dir [("old.md", File "old")])])])
           0 "/w" ["x"] "markdown"
           [{| name := "r"; pages := [["w"; "r"; "1.png"]] |}]).
  - discriminate.
  - reflexivity.
  - discriminate.
  - intros n [<- | []]. reflexivity.
Defined.

(** Conversion stops at the first failure: when the names before a
    selected group went through and the model run for that group raises,
    the whole call raises that error; the names selected after it play
    no part (no request is sent for them) and no archive is built. *)
Theorem convert_selected_stops_at_first_failure :
  forall (Service : Type)
         (respond : Service -> request -> result string * Service)
         (json_loads : string -> json_outcome) (b64encode : string -> string)
         (archive_bytes : bool -> archive -> string) (cwd : Path.t)
         (fs : node) (service0 : Service)
         (tempdir : string) (before after : list string) (n fmt : string)
         (receipts : list ReceiptGroup) (r : ReceiptGroup)
         (preview : string) (fs1 : node) (llama1 llama2 : LlamaClient Service)
         (e : exn),
    tempdir <> EmptyString ->
    discover_receipts fs (Path.resolve cwd (Path.parse tempdir)) = Ok receipts ->
    dict_get n (receipt_dict receipts) = Some r ->
    convert_loop Service respond json_loads b64encode fs
      {| service := service0; sent := [] |} (receipt_dict receipts) before fmt
      (Path.resolve cwd (Path.parse tempdir) ++ ["outputs"]) EmptyString
    = (Done (preview, fs1), llama1) ->
    _run_model Service respond json_loads b64encode fs1 llama1 r fmt
    = (Err e, llama2) ->
    convert_selected Service respond json_loads b64encode archive_bytes cwd fs service0
      tempdir (before ++ n :: after) fmt
    = (Raised (Uncaught e), llama2).
Proof.
  intros Service respond json_loads b64encode archive_bytes cwd fs service0 tempdir
         before after n fmt receipts r preview fs1 llama1 llama2 e
         Ht Hd Hn Hb Hr.
  rewrite (convert_selected_unfold Service respond json_loads b64encode archive_bytes cwd
             fs service0 tempdir _ fmt receipts Ht Hd);
    [|now destruct before].
  rewrite convert_loop_app, Hb. cbn [convert_loop]. now rewrite Hn, Hr.
Qed.

Lemma convert_selected_stops_at_first_failure_witness :
  convert_selected nat
    (fun n _ => (if Nat.eqb n 0 then Ok "# a" else Err ModelServiceError, S n))
    (fun _ => JSONDecodeError) (fun s => s) entry_names []
    (Dir [("w", Dir [("a", Dir [("1.png", File "one")]);
                     ("b", Dir [("1.png", File "two")]);
                     ("c", Dir [("1.png", File "three")])])])
    0 "/w" (["a"] ++ "b" :: ["c"]) "markdown"
  = (Raised (Uncaught ModelServiceError),
     {| service := 2;
        sent := [{| mode := MarkdownMode;
                    prompt := _build_prompt
                                {| name := "a"; pages := [["w"; "a"; "1.png"]] |}
                                "markdown";
                    images := ["data:image/png;base64,one"] |};
                 {| mode := MarkdownMode;
                    prompt := _build_prompt
                                {| name := "b"; pages := [["w"; "b"; "1.png"]] |}
                                "markdown";
                    images := ["data:image/png;base64,two"] |}] |}).
Proof.
  apply (convert_selected_stops_at_first_failure nat
           (fun n _ => (if Nat.eqb n 0 then Ok "# a" else Err ModelServiceError, S n))
           (fun _ => JSONDecodeError) (fun s => s) entry_names []
           (Dir [("w", Dir [("a", Dir [("1.png", File "one")]);
                            ("b", Dir [("1.png", File "two")]);
                            ("c", Dir [("1.png", File "three")])])])
           0 "/w" ["a"] ["c"] "b" "markdown"
           [{| name := "a"; pages := [["w"; "a"; "1.png"]] |};
            {| name := "b"; pages := [["w"; "b"; "1.png"]] |};
            {| name := "c"; pages := [["w"; "c"; "1.png"]] |}]
           {| name := "b"; pages := [["w"; "b"; "1.png"]] |}
           ("# a" ++ LF ++ LF ++ "# a")%string
           (Dir [("w", Dir [("a", Dir [("1.png", File "one")]);
                            ("b", Dir [("1.png", File "two")]);
                            ("c", Dir [("1.png", File "three")]);
                            ("outputs", Dir [("a.md", File "# a")])])])
           {| service := 1;
              sent := [{| mode := MarkdownMode;
                          prompt := _build_prompt
                                      {| name := "a"; pages := [["w"; "a"; "1.png"]] |}
                                      "markdown";
                          images := ["data:image/png;base64,one"] |}] |}).
  - discriminate.
  - reflexivity.
  - reflexivity.
  - reflexivity.
  - reflexivity.
Defined.

(** However it ends, a conversion sends at most two requests for each
    selected name, and at most one in the markdown format; the client
    it uses starts with none. *)
Theorem convert_selected_request_bound :
  forall (Service : Type)
         (respond : Service -> request -> result string * Service)
         (json_loads : string -> json_outcome) (b64encode : string -> string)
         (archive_bytes : bool -> archive -> string) (cwd : Path.t)
         (fs : node) (service0 : Service)
         (tempdir : string) (selected : list string) (fmt : string),
    List.length
      (sent (snd (convert_selected Service respond json_loads b64encode archive_bytes cwd
                    fs service0 tempdir selected fmt)))
    <= 2 * List.length selected
    /\ (fmt = "markdown" ->
        List.length
          (sent (snd (convert_selected Service respond json_loads b64encode archive_bytes
                        cwd fs service0 tempdir selected fmt)))
        <= List.length selected).
Proof.
  intros Service respond json_loads b64encode archive_bytes cwd fs service0 tempdir
         selected fmt.
  unfold convert_selected.
  destruct (String.eqb tempdir EmptyString); [simpl; split; [lia | intros _; lia]|].
  destruct (discover_receipts fs (Path.resolve cwd (Path.parse tempdir)))
    as [receipts|e]; [|simpl; split; [lia | intros _; lia]].
  destruct selected as [|a sel]; [simpl; split; [lia | intros _; lia]|].
  cbv zeta.
  destruct (convert_loop_requests Service respond json_loads b64encode fs
              {| service := service0; sent := [] |} (receipt_dict receipts)
              (a :: sel) fmt
              (Path.resolve cwd
                 (Path.joinpath (Path.parse tempdir) (Path.parse "outputs")))
              EmptyString) as [new [S [L M]]].
  destruct (convert_loop Service respond json_loads b64encode fs
              {| service := service0; sent := [] |} (receipt_dict receipts)
              (a :: sel) fmt
              (Path.resolve cwd
                 (Path.joinpath (Path.parse tempdir) (Path.parse "outputs")))
              EmptyString) as [[[pv fs']|e] llama'];
    cbn [snd sent app] in S.
  - destruct (build_outputs_zip archive_bytes fs' _ _) as [[[fs'' zp] zf]|e];
      cbn [snd]; rewrite S; split; [exact L | exact M | exact L | exact M].
  - cbn [snd]. rewrite S. split; [exact L | exact M].
Qed.

Section ConvertSelectedDone.
Variable Service : Type.
Variable respond : Service -> request -> result string * Service.
Variable json_loads : string -> json_outcome.
Variable b64encode : string -> string.
Variable archive_bytes : bool -> archive -> string.
Variable cwd : Path.t.

(** What a normal return of [convert_selected] went through. *)
Lemma convert_selected_done fs service0 tempdir selected fmt receipts
      preview zip_text fs' zf llama' :
  discover_receipts fs (Path.resolve cwd (Path.parse tempdir)) = Ok receipts ->
  convert_selected Service respond json_loads b64encode archive_bytes cwd fs
    service0 tempdir selected fmt
  = (Done (preview, zip_text, fs', zf), llama') ->
  exists fs1,
    convert_loop Service respond json_loads b64encode fs
      {| service := service0; sent := [] |} (receipt_dict receipts) selected
      fmt (Path.resolve cwd (Path.parse tempdir) ++ ["outputs"]) EmptyString
    = (Done (preview, fs1), llama')
    /\ (forall q c,
          q <> Path.resolve cwd (Path.parse tempdir) ++ ["outputs.zip"] ->
          FS.read fs1 q = Ok c -> FS.read fs' q = Ok c)
    /\ (forall n d,
          In (n, d) zf
          <-> FS.read fs' ((Path.resolve cwd (Path.parse tempdir) ++ ["outputs"])
                           ++ [n]) = Ok d)
    /\ FS.read fs' (Path.resolve cwd (Path.parse tempdir) ++ ["outputs.zip"])
       = Ok (archive_bytes true zf)
    /\ zip_text = path_text (Path.joinpath (Path.parse tempdir)
                               (Path.parse "outputs.zip")).
Proof.
  intros Hd H.
  destruct (String.eqb_spec tempdir EmptyString) as [->|Ht];
    [discriminate H|].
  assert (Hs : selected <> []).
  { intros ->. unfold convert_selected in H.
    destruct (String.eqb tempdir EmptyString); [discriminate H|].
    rewrite Hd in H. discriminate H. }
  rewrite (convert_selected_unfold Service respond json_loads b64encode
             archive_bytes cwd fs service0 tempdir selected fmt receipts
             Ht Hd Hs) in H.
  rewrite archive_beside_outputs in H.
  destruct (convert_loop Service respond json_loads b64encode fs _ _ _ _ _ _)
    as [[[pv fs1]|e] l1]; [|discriminate H].
  destruct (FS.mkdir_parents fs1
              (Path.resolve cwd (Path.parse tempdir) ++ ["outputs"]))
    as [fs2|e] eqn:M.
  2: { unfold build_outputs_zip, ensure_directory in H. rewrite M in H.
       discriminate H. }
  destruct (FS.write_text fs2
              (Path.resolve cwd (Path.parse tempdir) ++ ["outputs.zip"])
              EmptyString) as [fs3|e] eqn:O.
  2: { unfold build_outputs_zip, ensure_directory in H. rewrite M in H.
       cbn [bind fst snd] in H. rewrite O in H. discriminate H. }
  destruct (build_outputs_zip_opened archive_bytes fs1 fs2 fs3 _ _ M O)
    as [fs0 [zf0 [B [_ [R [E [_ [I _]]]]]]]].
  rewrite B in H. injection H as <- <- <- <- <-.
  exists fs1. split; [reflexivity|]. split.
  { intros q c Hq Rq. rewrite (E q Hq).
    apply FrameFacts.read_file. apply FrameFacts.read_file in Rq.
    exact (FrameFacts.mkdir_parents_keeps_files _ _ _ M q c Rq). }
  split; [|split; [exact R | reflexivity]].
  intros n d. apply I, output_is_not_archive.
Qed.

(** After a normal return every regular file of before that no selected
    name's output file replaced is there with its data, the archive
    file apart. *)
Lemma convert_selected_frame fs service0 tempdir selected fmt receipts
      preview zip_text fs' zf llama' q c :
  discover_receipts fs (Path.resolve cwd (Path.parse tempdir)) = Ok receipts ->
  convert_selected Service respond json_loads b64encode archive_bytes cwd fs
    service0 tempdir selected fmt
  = (Done (preview, zip_text, fs', zf), llama') ->
  FS.read fs q = Ok c ->
  q <> Path.resolve cwd (Path.parse tempdir) ++ ["outputs.zip"] ->
  (forall n, In n selected ->
     q <> output_file n fmt
            (Path.resolve cwd (Path.parse tempdir) ++ ["outputs"])) ->
  FS.read fs' q = Ok c.
Proof.
  intros Hd H R Hz Hq.
  destruct (convert_selected_done _ _ _ _ _ _ _ _ _ _ _ Hd H)
    as [fs1 [L [K1 _]]].
  destruct (convert_loop_frame Service respond json_loads b64encode _ _ _ _ _
              _ _ _ _ _
              (fun n r E => proj2 (DictFacts.receipt_dict_get receipts n r E)) L)
    as [K _].
  apply (K1 q c Hz). now apply K.
Qed.

(** After a normal return the archive has an entry for every selected
    name that is a discovered group. *)
Lemma convert_selected_entries fs service0 tempdir selected fmt receipts
      preview zip_text fs' zf llama' n :
  discover_receipts fs (Path.resolve cwd (Path.parse tempdir)) = Ok receipts ->
  convert_selected Service respond json_loads b64encode archive_bytes cwd fs
    service0 tempdir selected fmt
  = (Done (preview, zip_text, fs', zf), llama') ->
  In n selected -> in_set n (map name receipts) = true ->
  exists d,
    In ((sanitize_filename n ++ "." ++ output_ext fmt)%string, d) zf.
Proof.
  intros Hd H Hin Hk.
  destruct (convert_selected_done _ _ _ _ _ _ _ _ _ _ _ Hd H)
    as [fs1 [L [K1 [I _]]]].
  rewrite DictFacts.receipt_dict_known in Hk.
  destruct (dict_get n (receipt_dict receipts)) as [r|] eqn:E; [|discriminate].
  destruct (convert_loop_writes Service respond json_loads b64encode _ _ _ _
              _ _ _ _ _ _
              (fun n r E => proj2 (DictFacts.receipt_dict_get receipts n r E))
              L n r Hin E) as [d R].
  exists d. apply I. apply (K1 _ d); [apply output_is_not_archive | exact R].
Qed.

End ConvertSelectedDone.

Lemma in_set_of_member n names : In n names -> in_set n names = true.
Proof.
  intros H. unfold in_set. apply existsb_exists. exists n.
  split; [exact H | apply String.eqb_refl].
Qed.

(** A conversion that returns never touched a page of a discovered
    group: each page is read afterwards as before.  An output file that
    was in the outputs directory before and is the file of no selected
    name is kept, and is packed into the archive under its name with its
    data, beside the new ones. *)
Theorem convert_selected_keeps_pages_and_other_outputs :
  forall (Service : Type)
         (respond : Service -> request -> result string * Service)
         (json_loads : string -> json_outcome) (b64encode : string -> string)
         (archive_bytes : bool -> archive -> string) (cwd : Path.t)
         (fs : node) (service0 : Service)
         (tempdir : string) (selected : list string) (fmt : string)
         (receipts : list ReceiptGroup)
         (preview zip_text : string) (fs' : node) (zf : archive)
         (llama' : LlamaClient Service),
    discover_receipts fs (Path.resolve cwd (Path.parse tempdir)) = Ok receipts ->
    convert_selected Service respond json_loads b64encode archive_bytes cwd fs service0
      tempdir selected fmt = (Done (preview, zip_text, fs', zf), llama') ->
    (forall g p, In g receipts -> In p (pages g) ->
       exists c, FS.read fs p = Ok c /\ FS.read fs' p = Ok c)
    /\ (forall x d,
          FS.read fs ((Path.resolve cwd (Path.parse tempdir) ++ ["outputs"])
                      ++ [x]) = Ok d ->
          (forall n, In n selected ->
             x <> (sanitize_filename n ++ "." ++ output_ext fmt)%string) ->
          FS.read fs' ((Path.resolve cwd (Path.parse tempdir) ++ ["outputs"])
                       ++ [x]) = Ok d
          /\ In (x, d) zf).
Proof.
  intros Service respond json_loads b64encode archive_bytes cwd fs service0 tempdir
         selected fmt receipts preview zip_text fs' zf llama' Hd H.
  split.
  - intros g p Hg Hp.
    destruct (discovered_pages_qualify _ _ _ _ _ Hd Hg Hp) as [Q [f Ef]].
    assert (F : FS.is_file fs p = true).
    { unfold qualifies in Q. now apply andb_true_iff in Q. }
    apply is_file_read in F. destruct F as [c R]. exists c.
    split; [exact R|].
    apply (convert_selected_frame Service respond json_loads b64encode
             archive_bytes cwd _ _ _ _ _ _ _ _ _ _ _ _ _ Hd H R).
    + rewrite Ef. intros E. apply app_inv_head in E. discriminate E.
    + intros n _ ->. rewrite output_file_is_no_page in Q. discriminate Q.
  - intros x d R Hx.
    assert (R' : FS.read fs' ((Path.resolve cwd (Path.parse tempdir)
                               ++ ["outputs"]) ++ [x]) = Ok d).
    { apply (convert_selected_frame Service respond json_loads b64encode
               archive_bytes cwd _ _ _ _ _ _ _ _ _ _ _ _ _ Hd H R).
      - apply output_is_not_archive.
      - intros n Hn E. unfold output_file in E. apply app_inv_head in E.
        injection E as E. exact (Hx n Hn E). }
    split; [exact R'|].
    destruct (convert_selected_done Service respond json_loads b64encode
                archive_bytes cwd _ _ _ _ _ _ _ _ _ _ _ Hd H)
      as [fs1 [_ [_ [I _]]]].
    now apply I.
Qed.

Lemma convert_selected_keeps_pages_and_other_outputs_witness :
  let fs := Dir [("w", Dir [("r", Dir [("1.png", File "one")]);
                            ("outputs", Dir [("old.md", File "old")])])] in
  let fs' := Dir [("w", Dir [("r", Dir [("1.png", File "one")]);
                             ("outputs", Dir [("old.md", File "old");
                                              ("r.md", File "# r")]);
                             ("outputs.zip", File "old.md,r.md")])] in
  let zf := [("old.md", "old"); ("r.md", "# r")] in
  (forall g p,
     In g [{| name := "r"; pages := [["w"; "r"; "1.png"]] |}] ->
     In p (pages g) ->
     exists c, FS.read fs p = Ok c /\ FS.read fs' p = Ok c)
  /\ (forall x d,
        FS.read fs ((Path.resolve [] (Path.parse "/w") ++ ["outputs"]) ++ [x])
        = Ok d ->
        (forall n, In n ["r"] ->
           x <> (sanitize_filename n ++ "." ++ output_ext "markdown")%string) ->
        FS.read fs' ((Path.resolve [] (Path.parse "/w") ++ ["outputs"]) ++ [x])
        = Ok d
        /\ In (x, d) zf).
Proof.
  intros fs fs' zf.
  apply (convert_selected_keeps_pages_and_other_outputs nat
           (fun n _ => (Ok "# r", S n)) (fun _ => JSONDecodeError) (fun s => s) entry_names []
           fs 0 "/w" ["r"] "markdown"
           [{| name := "r"; pages := [["w"; "r"; "1.png"]] |}]
           ("# r" ++ LF ++ LF ++ "# r")%string "/w/outputs.zip" fs' zf
           {| service := 1;
              sent := [{| mode := MarkdownMode;
                          prompt := _build_prompt
                                      {| name := "r";
                                         pages := [["w"; "r"; "1.png"]] |}
                                      "markdown";
                          images := ["data:image/png;base64,one"] |}] |}).
  - reflexivity.
  - reflexivity.
Defined.

(** A conversion that returns packed an entry for every selected name
    that is a discovered group: the sanitized name with the extension of
    the format. *)
Theorem convert_selected_archives_every_selected_group :
  forall (Service : Type)
         (respond : Service -> request -> result string * Service)
         (json_loads : string -> json_outcome) (b64encode : string -> string)
         (archive_bytes : bool -> archive -> string) (cwd : Path.t)
         (fs : node) (service0 : Service)
         (tempdir : string) (selected : list string) (fmt : string)
         (receipts : list ReceiptGroup)
         (preview zip_text : string) (fs' : node) (zf : archive)
         (llama' : LlamaClient Service) (n : string),
    discover_receipts fs (Path.resolve cwd (Path.parse tempdir)) = Ok receipts ->
    convert_selected Service respond json_loads b64encode archive_bytes cwd fs service0
      tempdir selected fmt = (Done (preview, zip_text, fs', zf), llama') ->
    In n selected -> in_set n (map name receipts) = true ->
    exists d,
      In ((sanitize_filename n ++ "." ++ output_ext fmt)%string, d) zf
      /\ FS.read fs' (output_file n fmt
                        (Path.resolve cwd (Path.parse tempdir) ++ ["outputs"]))
         = Ok d.
Proof.
  intros Service respond json_loads b64encode archive_bytes cwd fs service0 tempdir
         selected fmt receipts preview zip_text fs' zf llama' n Hd H Hin Hk.
  destruct (convert_selected_entries Service respond json_loads b64encode archive_bytes cwd
              _ _ _ _ _ _ _ _ _ _ _ n Hd H Hin Hk) as [d Hz].
  exists d. split; [exact Hz|].
  destruct (convert_selected_done Service respond json_loads b64encode archive_bytes cwd
              _ _ _ _ _ _ _ _ _ _ _ Hd H) as [fs1 [_ [_ [I _]]]].
  now apply I.
Qed.

Lemma convert_selected_archives_every_selected_group_witness :
  exists d,
    In ((sanitize_filename "a\b" ++ "." ++ output_ext "json")%string, d)
       [("a_b.json", "{}")]
    /\ FS.read
         (Dir [("w", Dir [("a\b", Dir [("1.png", File "one")]);
                          ("outputs", Dir [("a_b.json", File "{}")]);
                          ("outputs.zip", File "a_b.json")])])
         (output_file "a\b" "json"
            (Path.resolve [] (Path.parse "/w") ++ ["outputs"]))
       = Ok d.
Proof.
  apply (convert_selected_archives_every_selected_group nat
           (fun n _ => (Ok "{}", S n)) only_braces (fun s => s) entry_names []
           (Dir [("w", Dir [("a\b", Dir [("1.png", File "one")])])])
           0 "/w" ["a\b"] "json"
           [{| name := "a\b"; pages := [["w"; "a\b"; "1.png"]] |}]
           ("# a\b" ++ LF ++ LF ++ "{}")%string "/w/outputs.zip"
           (Dir [("w", Dir [("a\b", Dir [("1.png", File "one")]);
                            ("outputs", Dir [("a_b.json", File "{}")]);
                            ("outputs.zip", File "a_b.json")])])
           [("a_b.json", "{}")]
           {| service := 1;
              sent := [{| mode := JsonMode;
                          prompt := _build_prompt
                                      {| name := "a\b";
                                         pages := [["w"; "a\b"; "1.png"]] |}
                                      "json";
                          images := ["data:image/png;base64,one"] |}] |}).
  - reflexivity.
  - reflexivity.
  - now left.
  - reflexivity.
Defined.

(** The preview of a conversion that returns is empty when no selected
    name is a discovered group.  Else it belongs to the last selected
    name that is one: a heading with that name, a blank line, and the
    first 5000 characters of the result that the model run for that
    group returned, in the state the loop had reached after the names
    before it; the client returned is as that run left it.  So the
    preview is never longer than the name plus 4 plus 5000
    characters. *)
Theorem convert_selected_preview :
  forall (Service : Type)
         (respond : Service -> request -> result string * Service)
         (json_loads : string -> json_outcome) (b64encode : string -> string)
         (archive_bytes : bool -> archive -> string) (cwd : Path.t)
         (fs : node) (service0 : Service)
         (tempdir : string) (selected : list string) (fmt : string)
         (receipts : list ReceiptGroup)
         (preview zip_text : string) (fs' : node) (zf : archive)
         (llama' : LlamaClient Service),
    discover_receipts fs (Path.resolve cwd (Path.parse tempdir)) = Ok receipts ->
    convert_selected Service respond json_loads b64encode archive_bytes cwd
      fs service0 tempdir selected fmt
    = (Done (preview, zip_text, fs', zf), llama') ->
    (preview = EmptyString
     /\ llama' = {| service := service0; sent := [] |}
     /\ forall n, In n selected -> in_set n (map name receipts) = false)
    \/ exists before n after r result preview0 fs0 llama0,
         selected = before ++ n :: after
         /\ (forall m, In m after -> in_set m (map name receipts) = false)
         /\ In r receipts /\ name r = n
         /\ convert_loop Service respond json_loads b64encode fs
              {| service := service0; sent := [] |} (receipt_dict receipts)
              before fmt
              (Path.resolve cwd (Path.parse tempdir) ++ ["outputs"])
              EmptyString
            = (Done (preview0, fs0), llama0)
         /\ _run_model Service respond json_loads b64encode fs0 llama0 r fmt
            = (Ok result, llama')
         /\ preview = ("# " ++ n ++ LF ++ LF ++ substring 0 5000 result)%string
         /\ String.length preview <= String.length n + 4 + 5000.
Proof.
  intros Service respond json_loads b64encode archive_bytes cwd fs service0
         tempdir selected fmt receipts preview zip_text fs' zf llama' Hd H.
  destruct (convert_selected_done Service respond json_loads b64encode
              archive_bytes cwd _ _ _ _ _ _ _ _ _ _ _ Hd H) as [fs1 [L _]].
  destruct (convert_loop_preview Service respond json_loads b64encode
              _ _ _ _ _ _ _ _ _ _ L)
    as [[-> [_ [-> U]]]
       | [before [n [after [r [result [pv0 [fs0 [l0
           [-> [U [E [B [R ->]]]]]]]]]]]]]].
  - left. split; [reflexivity|]. split; [reflexivity|]. intros n Hn.
    rewrite DictFacts.receipt_dict_known. now rewrite (U n Hn).
  - right. exists before, n, after, r, result, pv0, fs0, l0.
    destruct (DictFacts.receipt_dict_get _ _ _ E) as [Hin Hname].
    rewrite Hname.
    split; [reflexivity|]. split.
    { intros m Hm. rewrite DictFacts.receipt_dict_known. now rewrite (U m Hm). }
    split; [exact Hin|]. split; [reflexivity|]. split; [exact B|].
    split; [exact R|]. split; [reflexivity|].
    rewrite !length_app.
    pose proof (substring_length_bound 5000 result) as Bd.
    change (String.length "# ") with 2. change (String.length LF) with 1.
    revert Bd. generalize 5000. intros k Bd. lia.
Qed.

Lemma convert_selected_preview_witness :
  let respond := fun (n : nat) (_ : request) =>
                   (Ok (if Nat.eqb n 0 then "# first" else "# second"), S n) in
  let json_loads := fun _ : string => JSONDecodeError in
  let b64encode := fun s : string => s in
  let receipts := [{| name := "a"; pages := [["w"; "a"; "1.png"]] |};
                   {| name := "b"; pages := [["w"; "b"; "1.png"]] |}] in
  exists before n after r result preview0 fs0 llama0,
    ["a"; "b"; "x"] = before ++ n :: after
    /\ n = "b"
    /\ In r receipts /\ name r = n
    /\ convert_loop nat respond json_loads b64encode
         (Dir [("w", Dir [("a", Dir [("1.png", File "one")]);
                          ("b", Dir [("1.png", File "two")])])])
         {| service := 0; sent := [] |} (receipt_dict receipts)
         before "markdown" ["w"; "outputs"] EmptyString
       = (Done (preview0, fs0), llama0)
    /\ service llama0 = 1
    /\ result = "# second"
    /\ ("# b" ++ LF ++ LF ++ "# second")%string
       = ("# " ++ n ++ LF ++ LF ++ substring 0 5000 result)%string.
Proof.
  intros respond json_loads b64encode receipts.
  destruct (convert_selected_preview nat respond json_loads b64encode
              entry_names []
              (Dir [("w", Dir [("a", Dir [("1.png", File "one")]);
                               ("b", Dir [("1.png", File "two")])])])
              0 "/w" ["a"; "b"; "x"] "markdown" receipts
              ("# b" ++ LF ++ LF ++ "# second")%string "/w/outputs.zip"
              (Dir [("w", Dir [("a", Dir [("1.png", File "one")]);
                               ("b", Dir [("1.png", File "two")]);
                               ("outputs", Dir [("a.md", File "# first");
                                                ("b.md", File "# second")]);
                               ("outputs.zip", File "a.md,b.md")])])
              [("a.md", "# first"); ("b.md", "# second")]
              {| service := 2;
                 sent := [{| mode := MarkdownMode;
                             prompt := _build_prompt
                                         {| name := "a";
                                            pages := [["w"; "a"; "1.png"]] |}
                                         "markdown";
                             images := ["data:image/png;base64,one"] |};
                          {| mode := MarkdownMode;
                             prompt := _build_prompt
                                         {| name := "b";
                                            pages := [["w"; "b"; "1.png"]] |}
                                         "markdown";
                             images := ["data:image/png;base64,two"] |}] |}
              eq_refl eq_refl)
    as [[P _]
       | [before [n [after [r [result [pv0 [fs0 [l0
           [Es [U [Hin [Hn [B [R [P _]]]]]]]]]]]]]]]].
  - discriminate P.
  - assert (Eb : before = ["a"] /\ n = "b" /\ after = ["x"]).
    { destruct before as [|x1 [|x2 [|x3 before]]]; cbn [app] in Es.
      - injection Es as <- <-.
        discriminate (U "b" (or_introl eq_refl)).
      - injection Es as <- <- <-. auto.
      - injection Es as <- <- <- <-. destruct Hin as [<- | [<- | []]];
          discriminate Hn.
      - injection Es as _ _ _ Es. destruct before; discriminate Es. }
    destruct Eb as [-> [-> ->]].
    exists ["a"], "b", ["x"], r, result, pv0, fs0, l0.
    split; [reflexivity|]. split; [reflexivity|]. split; [exact Hin|].
    split; [exact Hn|]. split; [exact B|].
    vm_compute in B. injection B as <- <- <-.
    destruct Hin as [<- | [<- | []]]; [discriminate Hn|].
    vm_compute in R. injection R as <-.
    split; [reflexivity|]. split; [reflexivity|]. reflexivity.
Defined.

(* ================================================================= *)
(** ** app.run_all *)

(** Converting all, when it returns: the progress text counts the
    discovered groups, there is at least one, and the archive has an
    entry for every one of them. *)
Theorem run_all_converts_every_group :
  forall (Service : Type)
         (respond : Service -> request -> result string * Service)
         (json_loads : string -> json_outcome) (b64encode : string -> string)
         (archive_bytes : bool -> archive -> string) (cwd : Path.t)
         (fs : node) (service0 : Service)
         (tempdir fmt : string) (receipts : list ReceiptGroup)
         (progress preview zip_text : string) (fs' : node) (zf : archive)
         (llama' : LlamaClient Service),
    discover_receipts fs (Path.resolve cwd (Path.parse tempdir)) = Ok receipts ->
    run_all Service respond json_loads b64encode archive_bytes cwd fs
      service0 tempdir fmt
    = (Done (progress, preview, zip_text, fs', zf), llama') ->
    progress = ("Converting "
                ++ DecimalString.NilZero.string_of_uint
                     (Nat.to_uint (List.length receipts))
                ++ " receipt(s)...")%string
    /\ receipts <> []
    /\ forall g, In g receipts ->
         exists d,
           In ((sanitize_filename (name g) ++ "." ++ output_ext fmt)%string,
               d) zf.
Proof.
  intros Service respond json_loads b64encode archive_bytes cwd fs service0
         tempdir fmt receipts progress preview zip_text fs' zf llama' Hd H.
  unfold run_all in H.
  destruct (String.eqb_spec tempdir EmptyString) as [E|Ht]; [discriminate H|].
  rewrite Hd in H. cbv zeta in H. unfold run_conversion in H.
  destruct (convert_selected Service respond json_loads b64encode
              archive_bytes cwd fs service0 tempdir (map name receipts) fmt)
    as [[[[[pv zt] fs2] zf2]|e] l2] eqn:C; [|discriminate H].
  injection H as <- <- <- <- <- <-.
  split; [now rewrite length_map|]. split.
  - intros ->. unfold convert_selected in C.
    destruct (String.eqb tempdir EmptyString); [discriminate C|].
    rewrite Hd in C. discriminate C.
  - intros g Hg.
    apply (convert_selected_entries Service respond json_loads b64encode
             archive_bytes cwd _ _ _ _ _ _ _ _ _ _ _ (name g) Hd C).
    + now apply in_map.
    + apply in_set_of_member. now apply in_map.
Qed.

Lemma run_all_converts_every_group_witness :
  let receipts := [{| name := "a"; pages := [["w"; "a"; "1.png"]] |};
                   {| name := "b"; pages := [["w"; "b"; "1.png"]] |}] in
  let zf := [("a.md", "# r"); ("b.md", "# r")] in
  "Converting 2 receipt(s)..."
  = ("Converting "
     ++ DecimalString.NilZero.string_of_uint
          (Nat.to_uint (List.length receipts))
     ++ " receipt(s)...")%string
  /\ receipts <> []
  /\ forall g, In g receipts ->
       exists d,
         In ((sanitize_filename (name g) ++ "."
              ++ output_ext "markdown")%string, d) zf.
Proof.
  intros receipts zf.
  apply (run_all_converts_every_group nat
           (fun n _ => (Ok "# r", S n)) (fun _ => JSONDecodeError)
           (fun s => s) entry_names []
           (Dir [("w", Dir [("a", Dir [("1.png", File "one")]);
                            ("b", Dir [("1.png", File "two")])])])
           0 "/w" "markdown" receipts
           "Converting 2 receipt(s)..."
           ("# b" ++ LF ++ LF ++ "# r")%string "/w/outputs.zip"
           (Dir [("w", Dir [("a", Dir [("1.png", File "one")]);
                            ("b", Dir [("1.png", File "two")]);
                            ("outputs", Dir [("a.md", File "# r");
                                             ("b.md", File "# r")]);
                            ("outputs.zip", File "a.md,b.md")])])
           zf
           {| service := 2;
              sent := [{| mode := MarkdownMode;
                          prompt := _build_prompt
                                      {| name := "a";
                                         pages := [["w"; "a"; "1.png"]] |}
                                      "markdown";
                          images := ["data:image/png;base64,one"] |};
                       {| mode := MarkdownMode;
                          prompt := _build_prompt
                                      {| name := "b";
                                         pages := [["w"; "b"; "1.png"]] |}
                                      "markdown";
                          images := ["data:image/png;base64,two"] |}] |}).
  - reflexivity.
  - reflexivity.
Defined.

(** Converting all on a working directory in which discovery finds no
    group raises the error of the empty selection; nothing is sent. *)
Theorem run_all_without_groups :
  forall (Service : Type)
         (respond : Service -> request -> result string * Service)
         (json_loads : string -> json_outcome) (b64encode : string -> string)
         (archive_bytes : bool -> archive -> string) (cwd : Path.t)
         (fs : node) (service0 : Service) (tempdir fmt : string),
    tempdir <> EmptyString ->
    discover_receipts fs (Path.resolve cwd (Path.parse tempdir)) = Ok [] ->
    run_all Service respond json_loads b64encode archive_bytes cwd fs
      service0 tempdir fmt
    = (Raised (GrError "Select at least one receipt."),
       {| service := service0; sent := [] |}).
Proof.
  intros Service respond json_loads b64encode archive_bytes cwd fs service0
         tempdir fmt Ht Hd.
  unfold run_all.
  destruct (String.eqb_spec tempdir EmptyString) as [E|_]; [contradiction|].
  rewrite Hd. cbv zeta. unfold run_conversion, convert_selected.
  destruct (String.eqb_spec tempdir EmptyString) as [E|_]; [contradiction|].
  now rewrite Hd.
Qed.

Lemma run_all_without_groups_witness :
  run_all nat (fun n _ => (Ok "# r", S n)) (fun _ => JSONDecodeError)
    (fun s => s) entry_names []
    (Dir [("w", Dir [("notes", Dir [("readme.txt", File "hello")])])])
    0 "/w" "markdown"
  = (Raised (GrError "Select at least one receipt."),
     {| service := 0; sent := [] |}).
Proof.
  apply (run_all_without_groups nat
           (fun n _ => (Ok "# r", S n)) (fun _ => JSONDecodeError)
           (fun s => s) entry_names []
           (Dir [("w", Dir [("notes", Dir [("readme.txt", File "hello")])])])
           0 "/w" "markdown").
  - discriminate.
  - reflexivity.
Defined.
